(** * MXUser barriers (lib/lock/ulBarrier.c)

    A shallow embedding of the self-regenerating barrier of the MXUser
    lock library, and the properties its description states about it.

    Layout of the development:
    - the data of [struct MXUserBarrier] and the body of
      [MXUser_EnterBarrier], split at its only suspension point;
    - the heap, the collaborators (allocator, lock, condition variable,
      atomic cell, diagnostics) and the functions [MXUser_CreateBarrier],
      [MXUser_DestroyBarrier] and [MXUser_CreateSingletonBarrier] in a
      state-and-abort monad;
    - an interleaving semantics of threads calling [MXUser_EnterBarrier];
    - the properties. *)

From Stdlib Require Import ZArith Lia.
From stdpp Require Import base option list gmap sets strings.

Local Open Scope Z_scope.

(** ** Machine data *)

(** [uint32] values are kept in [Z]; [u32] is the wrap-around that C applies
    to the result of unsigned arithmetic. *)
Definition u32 (z : Z) : Z := z mod 2 ^ 32.

(** A heap address; a C pointer is [None] for [NULL]. *)
Definition loc := positive.
Definition ptr := option loc.
Definition NULL : ptr := None.

(** [#define MXUSER_BARRIER_SIGNATURE 0x52524142] *)
Definition MXUSER_BARRIER_SIGNATURE : Z := 0x52524142.

(** The [dumpFunc] member of the header is a function pointer; the only
    function ever stored there by this file is [MXUserDumpBarrier]. *)
Inductive DumpFunc := DumpNull | DumpBarrier.

(** The members of [MXUserHeader] that ulBarrier.c reads or writes (the two
    that exist only under [MXUSER_STATS] are left out). *)
Record MXUserHeader := {
  name : ptr;
  signature : Z;
  rank : Z;
  dumpFunc : DumpFunc
}.

(** [struct BarrierContext] *)
Record BarrierContext := {
  count : Z;
  condVar : ptr
}.

(** [struct MXUserBarrier]; [contexts] is the two-element array. *)
Record MXUserBarrier := {
  header : MXUserHeader;
  lock : ptr;
  emptying : bool;
  configCount : Z;
  curContext : Z;
  contexts : list BarrierContext
}.

#[global] Instance DumpFunc_eq_dec : EqDecision DumpFunc.
Proof. solve_decision. Defined.
#[global] Instance MXUserHeader_eq_dec : EqDecision MXUserHeader.
Proof. solve_decision. Defined.
#[global] Instance BarrierContext_eq_dec : EqDecision BarrierContext.
Proof. solve_decision. Defined.
#[global] Instance MXUserBarrier_eq_dec : EqDecision MXUserBarrier.
Proof. solve_decision. Defined.

(** Field assignments. *)
Definition set_header (h : MXUserHeader) (b : MXUserBarrier) : MXUserBarrier :=
  {| header := h; lock := lock b; emptying := emptying b;
     configCount := configCount b; curContext := curContext b;
     contexts := contexts b |}.

Definition set_lock (l : ptr) (b : MXUserBarrier) : MXUserBarrier :=
  {| header := header b; lock := l; emptying := emptying b;
     configCount := configCount b; curContext := curContext b;
     contexts := contexts b |}.

Definition set_emptying (e : bool) (b : MXUserBarrier) : MXUserBarrier :=
  {| header := header b; lock := lock b; emptying := e;
     configCount := configCount b; curContext := curContext b;
     contexts := contexts b |}.

Definition set_configCount (n : Z) (b : MXUserBarrier) : MXUserBarrier :=
  {| header := header b; lock := lock b; emptying := emptying b;
     configCount := n; curContext := curContext b;
     contexts := contexts b |}.

Definition set_curContext (c : Z) (b : MXUserBarrier) : MXUserBarrier :=
  {| header := header b; lock := lock b; emptying := emptying b;
     configCount := configCount b; curContext := c;
     contexts := contexts b |}.

(** [barrier->contexts[i] = c]; like the C array, the list is not extended
    by a store, and an index past its end is not meant to occur (the
    functions below check the index with a lookup first). *)
Definition set_context (i : nat) (c : BarrierContext) (b : MXUserBarrier)
  : MXUserBarrier :=
  {| header := header b; lock := lock b; emptying := emptying b;
     configCount := configCount b; curContext := curContext b;
     contexts := <[i := c]> (contexts b) |}.

Definition set_count (n : Z) (c : BarrierContext) : BarrierContext :=
  {| count := n; condVar := condVar c |}.

Definition set_condVar (cv : ptr) (c : BarrierContext) : BarrierContext :=
  {| count := count c; condVar := cv |}.

Definition set_name (p : ptr) (h : MXUserHeader) : MXUserHeader :=
  {| name := p; signature := signature h; rank := rank h;
     dumpFunc := dumpFunc h |}.

Definition set_signature (s : Z) (h : MXUserHeader) : MXUserHeader :=
  {| name := name h; signature := s; rank := rank h;
     dumpFunc := dumpFunc h |}.

Definition set_rank (r : Z) (h : MXUserHeader) : MXUserHeader :=
  {| name := name h; signature := signature h; rank := r;
     dumpFunc := dumpFunc h |}.

Definition set_dumpFunc (f : DumpFunc) (h : MXUserHeader) : MXUserHeader :=
  {| name := name h; signature := signature h; rank := rank h;
     dumpFunc := f |}.

(** ** The body of [MXUser_EnterBarrier]

    The function runs under the barrier's lock from
    [MXUser_AcquireExclLock] to [MXUser_ReleaseExclLock], except while it is
    parked in [MXUser_WaitCondVarExclLock].  Its body is therefore two
    critical sections: [enter_arrive], from the acquisition to the call on
    the condition variable, and [enter_leave], from that call's return to
    the release.  What lies between them is the condition-variable call
    itself, which [enter_arrive] reports. *)

(** The call a thread makes on a condition variable when it arrives. *)
Inductive CondVarCall :=
  | BroadcastCondVar (cv : ptr)
  | WaitCondVarExclLock (lk : ptr) (cv : ptr).

#[global] Instance CondVarCall_eq_dec : EqDecision CondVarCall.
Proof. solve_decision. Defined.

(** What an arriving thread leaves behind: the barrier as it stands when
    the condition-variable call is made, the context the local [ptr]
    points to (as an index into [contexts]), and the call. *)
Record Arrival := {
  arr_barrier : MXUserBarrier;
  arr_ptr : nat;
  arr_call : CondVarCall
}.

(** [(barrier->curContext + 1) & 0x1] *)
Definition flip (cur : Z) : Z := Z.land (u32 (cur + 1)) 1.

(** [ptr->count++] and [ptr->count--] on a [uint32]. *)
Definition incr_count (c : BarrierContext) : BarrierContext :=
  set_count (u32 (count c + 1)) c.
Definition decr_count (c : BarrierContext) : BarrierContext :=
  set_count (u32 (count c - 1)) c.

(** Lines 237-278.  [None] stands for an index outside [contexts], which C
    leaves undefined. *)
Definition enter_arrive (barrier : MXUserBarrier) : option Arrival :=
  if emptying barrier then
    let other := Z.to_nat (flip (curContext barrier)) in
    c ← contexts barrier !! other;
    let c' := incr_count c in
    Some {| arr_barrier := set_context other c' barrier;
            arr_ptr := other;
            arr_call := WaitCondVarExclLock (lock barrier) (condVar c') |}
  else
    let cur := Z.to_nat (curContext barrier) in
    c ← contexts barrier !! cur;
    let c' := incr_count c in
    let e := bool_decide (count c' = configCount barrier) in
    Some {| arr_barrier := set_emptying e (set_context cur c' barrier);
            arr_ptr := cur;
            arr_call := if e then BroadcastCondVar (condVar c')
                        else WaitCondVarExclLock (lock barrier) (condVar c') |}.

(** Lines 280-285, run with the [ptr] chosen on arrival. *)
Definition enter_leave (ptr : nat) (barrier : MXUserBarrier)
  : option MXUserBarrier :=
  c ← contexts barrier !! ptr;
  let c' := decr_count c in
  let b1 := set_context ptr c' barrier in
  Some (if bool_decide (count c' = 0)
        then set_curContext (flip (curContext b1)) (set_emptying false b1)
        else b1).

(** A call that does not park runs both sections back to back; a call that
    parks has no result here. *)
Definition enter_through (barrier : MXUserBarrier) : option MXUserBarrier :=
  a ← enter_arrive barrier;
  match arr_call a with
  | BroadcastCondVar _ => enter_leave (arr_ptr a) (arr_barrier a)
  | WaitCondVarExclLock _ _ => None
  end.

(** ** The heap and the collaborators *)

(** What a block of memory holds.  Locks, condition variables and atomic
    pointer cells belong to other files of the library; only their
    existence and, for a cell, its value matter here. *)
Inductive Object :=
  | ObjBarrier (b : MXUserBarrier)
  | ObjString (s : string)
  | ObjExclLock (nm : ptr) (rk : Z)
  | ObjCondVar (lk : ptr)
  | ObjAtomicPtr (v : ptr).

(** The operations performed on an [Atomic_Ptr], in program order. *)
Inductive AtomicEvent :=
  | EvReadPtr (cell : loc) (seen : ptr)
  | EvReadIfEqualWritePtr (cell : loc) (oldv newv : ptr) (seen : ptr).

#[global] Instance AtomicEvent_eq_dec : EqDecision AtomicEvent.
Proof. solve_decision. Defined.

(** The state a call runs in.
    - [mem] holds the contents of every block, and keeps the last contents
      of a block that has been freed;
    - [live] is the set of blocks allocated and not yet freed;
    - [alloc_ok] tells, for the coming calls of the allocators that can
      fail, whether each succeeds (when it runs out, they succeed);
    - [rivals] tells, for the coming atomic operations of this thread,
      what another thread tries to install in the cell just before
      ([None]: no other thread acts; when it runs out, none does);
    - [atomics] logs the atomic operations of this thread, oldest first. *)
Record World := {
  mem : gmap loc Object;
  live : gset loc;
  alloc_ok : list bool;
  rivals : list ptr;
  atomics : list AtomicEvent
}.

Definition set_mem (m : gmap loc Object) (w : World) : World :=
  {| mem := m; live := live w; alloc_ok := alloc_ok w; rivals := rivals w;
     atomics := atomics w |}.
Definition set_live (s : gset loc) (w : World) : World :=
  {| mem := mem w; live := s; alloc_ok := alloc_ok w; rivals := rivals w;
     atomics := atomics w |}.
Definition set_alloc_ok (o : list bool) (w : World) : World :=
  {| mem := mem w; live := live w; alloc_ok := o; rivals := rivals w;
     atomics := atomics w |}.
Definition set_rivals (r : list ptr) (w : World) : World :=
  {| mem := mem w; live := live w; alloc_ok := alloc_ok w; rivals := r;
     atomics := atomics w |}.
Definition set_atomics (a : list AtomicEvent) (w : World) : World :=
  {| mem := mem w; live := live w; alloc_ok := alloc_ok w; rivals := rivals w;
     atomics := a |}.

(** A call returns, aborts the process, or has no defined behaviour in C
    (a load through a dangling or mistyped pointer, an index outside an
    array). *)
Inductive Outcome (A : Type) :=
  | Done (a : A) (w : World)
  | Panic (msg : string) (w : World)
  | Undefined.
Arguments Done {A} a w.
Arguments Panic {A} msg w.
Arguments Undefined {A}.

Definition M (A : Type) : Type := World → Outcome A.

#[global] Instance M_ret : MRet M := λ A a w, Done a w.
#[global] Instance M_bind : MBind M := λ A B k m w,
  match m w with
  | Done a w' => k a w'
  | Panic msg w' => Panic msg w'
  | Undefined => Undefined
  end.

Definition undefined {A} : M A := λ _, Undefined.

(** A value C would have read from memory: [None] is undefined behaviour. *)
Definition defined {A} (o : option A) : M A :=
  match o with Some a => mret a | None => undefined end.

(** Modelled from the spec: the diagnostics sink's [fatalAbort], which does
    not return.  [Panic] is what the [ASSERT] macro and [MXUserDumpAndPanic]
    (both declared outside this file) end in. *)
Definition panic {A} (msg : string) : M A := λ w, Panic msg w.

(** Modelled from the spec: [ASSERT(e)], a precondition whose violation is
    fatal. *)
Definition ASSERT (e : bool) : M unit :=
  if e then mret () else panic "ASSERT".

(** Modelled from the spec: [MXUserDumpAndPanic(header, fmt, ...)], the
    diagnostic dump followed by the abort. *)
Definition MXUserDumpAndPanic {A} (h : MXUserHeader) (msg : string) : M A :=
  panic msg.

(** Modelled from the spec: the allocator.  A new block gets an address that
    was never used; [Util_SafeCalloc], [Util_SafeStrdup] and
    [Str_SafeAsprintf] do not return on exhaustion, so they are total
    here. *)
Definition alloc (o : Object) : M loc := λ w,
  let l := fresh (dom (mem w) ∪ live w) in
  Done l (set_live ({[l]} ∪ live w) (set_mem (<[l := o]> (mem w)) w)).

(** [free(p)]; [free(NULL)] does nothing, and freeing a block that is not
    live (a second free, a dangling pointer) is undefined. *)
Definition free (p : ptr) : M unit := λ w,
  match p with
  | None => Done () w
  | Some l =>
      if bool_decide (l ∈ live w) then Done () (set_live (live w ∖ {[l]}) w)
      else Undefined
  end.

(** [Util_SafeCalloc(1, sizeof *barrier)]: every member zero. *)
Definition zero_context : BarrierContext := {| count := 0; condVar := NULL |}.
Definition zero_barrier : MXUserBarrier :=
  {| header := {| name := NULL; signature := 0; rank := 0;
                  dumpFunc := DumpNull |};
     lock := NULL; emptying := false; configCount := 0; curContext := 0;
     contexts := [zero_context; zero_context] |}.

Definition Util_SafeCalloc_barrier : M loc := alloc (ObjBarrier zero_barrier).
Definition Util_SafeStrdup (s : string) : M loc := alloc (ObjString s).
Definition Str_SafeAsprintf (s : string) : M loc := alloc (ObjString s).

(** The next answer of the fallible allocators. *)
Definition next_alloc_ok : M bool := λ w,
  match alloc_ok w with
  | [] => Done true w
  | ok :: rest => Done ok (set_alloc_ok rest w)
  end.

(** Modelled from the spec: the exclusive lock's [create(name, rank)],
    handle or null. *)
Definition MXUser_CreateExclLock (nm : ptr) (rk : Z) : M ptr :=
  ok ← next_alloc_ok;
  if ok : bool then l ← alloc (ObjExclLock nm rk); mret (Some l)
  else mret NULL.

(** Modelled from the spec: the condition variable's [create(lockHandle)],
    handle or null. *)
Definition MXUser_CreateCondVarExclLock (lk : ptr) : M ptr :=
  ok ← next_alloc_ok;
  if ok : bool then l ← alloc (ObjCondVar lk); mret (Some l)
  else mret NULL.

(** Modelled from the spec: the collaborators' [destroy(handle)], which
    release the object; a null handle is ignored, as by [free], and a
    handle on an object that is not live is undefined, as for [free]. *)
Definition MXUser_DestroyCondVar (cv : ptr) : M unit := free cv.
Definition MXUser_DestroyExclLock (lk : ptr) : M unit := free lk.

(** Loads and stores through a [MXUserBarrier *]. *)
Definition load (l : loc) : M MXUserBarrier := λ w,
  match mem w !! l with
  | Some (ObjBarrier b) =>
      if bool_decide (l ∈ live w) then Done b w else Undefined
  | _ => Undefined
  end.

Definition store (l : loc) (b : MXUserBarrier) : M unit := λ w,
  Done () (set_mem (<[l := ObjBarrier b]> (mem w)) w).

Definition poke (l : loc) (f : MXUserBarrier → MXUserBarrier) : M unit :=
  b ← load l; store l (f b).

(** [barrier->contexts[i].condVar = cv] *)
Definition set_context_condVar (i : nat) (cv : ptr) (b : MXUserBarrier)
  : MXUserBarrier :=
  {| header := header b; lock := lock b; emptying := emptying b;
     configCount := configCount b; curContext := curContext b;
     contexts := alter (set_condVar cv) i (contexts b) |}.

(** The cell operations.  Another thread may act on the cell between two
    operations of this one; as every user of a singleton cell goes through
    [MXUser_CreateSingletonBarrier], what it does is install its own
    barrier if the cell is still null. *)
Definition rival_step (cell : loc) (w : World) : World :=
  match rivals w with
  | [] => w
  | r :: rest =>
      let w1 := set_rivals rest w in
      match mem w !! cell with
      | Some (ObjAtomicPtr None) =>
          set_mem (<[cell := ObjAtomicPtr r]> (mem w)) w1
      | _ => w1
      end
  end.

Definition log_atomic (e : AtomicEvent) (w : World) : World :=
  set_atomics (atomics w ++ [e]) w.

(** Modelled from the spec: the atomic pointer cell's [read(cell)]. *)
Definition Atomic_ReadPtr (cell : loc) : M ptr := λ w,
  let w1 := rival_step cell w in
  match mem w1 !! cell with
  | Some (ObjAtomicPtr v) => Done v (log_atomic (EvReadPtr cell v) w1)
  | _ => Undefined
  end.

(** Modelled from the spec: the cell's compare-and-swap, which returns the
    previous value and writes [newv] when that value is [oldv]. *)
Definition Atomic_ReadIfEqualWritePtr (cell : loc) (oldv newv : ptr) : M ptr :=
  λ w,
  let w1 := rival_step cell w in
  match mem w1 !! cell with
  | Some (ObjAtomicPtr v) =>
      let w2 := log_atomic (EvReadIfEqualWritePtr cell oldv newv v) w1 in
      if bool_decide (v = oldv)
      then Done v (set_mem (<[cell := ObjAtomicPtr newv]> (mem w2)) w2)
      else Done v w2
  | _ => Undefined
  end.

(** ** The functions of ulBarrier.c *)

(** [MXUser_CreateBarrier(userName, rank, count)].  [userName] is the
    caller's string or [None] for [NULL]; [anonName] is the text
    ["Barrier-%p"] formats for the caller's return address, used when
    [userName] is [NULL]. *)
Definition MXUser_CreateBarrier (userName : option string) (rk : Z)
    (cnt : Z) (anonName : string) : M ptr :=
  ASSERT (bool_decide (cnt ≠ 0));;
  barrier ← Util_SafeCalloc_barrier;
  properName ← match userName with
               | None => Str_SafeAsprintf anonName
               | Some s => Util_SafeStrdup s
               end;
  lk ← MXUser_CreateExclLock (Some properName) rk;
  poke barrier (set_lock lk);;
  b ← load barrier;
  if bool_decide (lock b = NULL) then
    free (Some properName);;
    free (Some barrier);;
    mret NULL
  else
    cv0 ← MXUser_CreateCondVarExclLock (lock b);
    poke barrier (set_context_condVar 0 cv0);;
    cv1 ← MXUser_CreateCondVarExclLock (lock b);
    poke barrier (set_context_condVar 1 cv1);;
    b ← load barrier;
    c0 ← defined (contexts b !! 0%nat);
    c1 ← defined (contexts b !! 1%nat);
    if bool_decide (condVar c0 = NULL) || bool_decide (condVar c1 = NULL) then
      MXUser_DestroyCondVar (condVar c0);;
      MXUser_DestroyCondVar (condVar c1);;
      MXUser_DestroyExclLock (lock b);;
      free (Some properName);;
      free (Some barrier);;
      mret NULL
    else
      poke barrier (set_configCount cnt);;
      poke barrier (set_emptying false);;
      poke barrier (set_curContext 0);;
      poke barrier (λ b, set_header (set_name (Some properName) (header b)) b);;
      poke barrier (λ b, set_header
                           (set_signature MXUSER_BARRIER_SIGNATURE (header b)) b);;
      poke barrier (λ b, set_header (set_rank rk (header b)) b);;
      poke barrier (λ b, set_header (set_dumpFunc DumpBarrier (header b)) b);;
      mret (Some barrier).

(** The text of the fatal report of [MXUser_DestroyBarrier]: the format
    string of line 190 with [__FUNCTION__] filled in; it ends in a
    newline. *)
Definition destroy_in_use : string :=
  String.append
    "MXUser_DestroyBarrier: Attempted destroy on barrier while in use"
    (String (Ascii.ascii_of_nat 10) EmptyString).

(** [MXUser_DestroyBarrier(barrier)] *)
Definition MXUser_DestroyBarrier (barrier : ptr) : M unit :=
  match barrier with
  | None => mret ()
  | Some l =>
      b ← load l;
      ASSERT (bool_decide (signature (header b) = MXUSER_BARRIER_SIGNATURE));;
      c0 ← defined (contexts b !! 0%nat);
      c1 ← defined (contexts b !! 1%nat);
      (if bool_decide (count c0 ≠ 0) || bool_decide (count c1 ≠ 0)
       then MXUserDumpAndPanic (header b) destroy_in_use
       else mret ());;
      MXUser_DestroyCondVar (condVar c0);;
      MXUser_DestroyCondVar (condVar c1);;
      MXUser_DestroyExclLock (lock b);;
      poke l (λ b, set_header (set_signature 0 (header b)) b);;
      b ← load l;
      free (name (header b));;
      poke l (λ b, set_header (set_name NULL (header b)) b);;
      free (Some l)
  end.

(** [MXUser_CreateSingletonBarrier(barrierStorage, name, rank, count)] *)
Definition MXUser_CreateSingletonBarrier (barrierStorage : ptr)
    (nm : option string) (rk : Z) (cnt : Z) (anonName : string) : M ptr :=
  ASSERT (bool_decide (barrierStorage ≠ NULL));;
  cell ← defined barrierStorage;
  barrier ← Atomic_ReadPtr cell;
  if bool_decide (barrier = NULL) then
    newBarrier ← MXUser_CreateBarrier nm rk cnt anonName;
    barrier ← Atomic_ReadIfEqualWritePtr cell NULL newBarrier;
    if bool_decide (barrier ≠ NULL) then
      MXUser_DestroyBarrier newBarrier;;
      mret barrier
    else
      Atomic_ReadPtr cell
  else
    mret barrier.

(** [MXUser_EnterBarrier(barrier)], through a handle: the [ASSERT] and the
    first critical section, and the second critical section.  Acquiring
    and releasing the lock is what makes each of them one step. *)
Definition MXUser_EnterBarrier_arrive (barrier : ptr)
  : M (nat * CondVarCall) :=
  ASSERT (bool_decide (barrier ≠ NULL));;
  l ← defined barrier;
  b ← load l;
  ASSERT (bool_decide (signature (header b) = MXUSER_BARRIER_SIGNATURE));;
  a ← defined (enter_arrive b);
  store l (arr_barrier a);;
  mret (arr_ptr a, arr_call a).

Definition MXUser_EnterBarrier_leave (l : loc) (ptr : nat) : M unit :=
  b ← load l;
  b' ← defined (enter_leave ptr b);
  store l b'.

(** ** Threads entering one barrier *)

(** Where a thread stands with respect to its call of
    [MXUser_EnterBarrier]. *)
Inductive ThreadState :=
  | Outside                           (* has not called yet *)
  | Parked (cv : ptr) (ptr : nat)     (* waiting on [cv]; its local [ptr] *)
  | Woken (ptr : nat)                 (* woken, has to get the lock back *)
  | Returned.                         (* the call has returned *)

#[global] Instance ThreadState_eq_dec : EqDecision ThreadState.
Proof. solve_decision. Defined.

Record System := {
  sys_barrier : MXUserBarrier;
  sys_threads : list ThreadState
}.

(** Modelled from the spec: the condition variable's [broadcast(cvHandle)],
    which wakes all current waiters of that condition variable (and no
    other thread). *)
Definition wake (cv : ptr) (t : ThreadState) : ThreadState :=
  match t with
  | Parked cv' k => if bool_decide (cv' = cv) then Woken k else t
  | _ => t
  end.

(** Thread [i] runs until it next gives up the lock.  Modelled from the
    spec: [wait(lockHandle, cvHandle)] releases the lock, parks, and
    reacquires the lock before returning, so a parked thread can do nothing
    until a broadcast wakes it, and the lock makes each critical section
    one step.  [None] when thread [i] cannot run (it is parked, it has
    returned, there is no such thread) or when the step is undefined. *)
Definition sched (i : nat) (s : System) : option System :=
  t ← sys_threads s !! i;
  match t with
  | Outside =>
      a ← enter_arrive (sys_barrier s);
      match arr_call a with
      | WaitCondVarExclLock _ cv =>
          Some {| sys_barrier := arr_barrier a;
                  sys_threads := <[i := Parked cv (arr_ptr a)]> (sys_threads s) |}
      | BroadcastCondVar cv =>
          b' ← enter_leave (arr_ptr a) (arr_barrier a);
          Some {| sys_barrier := b';
                  sys_threads := <[i := Returned]> (wake cv <$> sys_threads s) |}
      end
  | Woken k =>
      b' ← enter_leave k (sys_barrier s);
      Some {| sys_barrier := b';
              sys_threads := <[i := Returned]> (sys_threads s) |}
  | Parked _ _ | Returned => None
  end.

(** A schedule is the list of the threads that run, in order. *)
Fixpoint run (sch : list nat) (s : System) : option System :=
  match sch with
  | [] => Some s
  | i :: rest => s' ← sched i s; run rest s'
  end.

(** [n] threads, none of which has called yet. *)
Definition start (b : MXUserBarrier) (n : nat) : System :=
  {| sys_barrier := b; sys_threads := replicate n Outside |}.

(** A barrier nobody is inside of. *)
Definition quiescent (b : MXUserBarrier) : Prop :=
  emptying b = false ∧
  (curContext b = 0 ∨ curContext b = 1) ∧
  ∃ cv0 cv1, contexts b = [ {| count := 0; condVar := cv0 |};
                            {| count := 0; condVar := cv1 |} ].

(** The number of threads in state [x]. *)
Definition occ (x : ThreadState) (ts : list ThreadState) : nat :=
  length (filter (λ t, t = x) ts).

(** What is left for the threads to do: two steps for a thread outside, one
    for a thread inside. *)
Definition todo (t : ThreadState) : nat :=
  match t with
  | Outside => 2
  | Parked _ _ | Woken _ => 1
  | Returned => 0
  end.

Definition backlog (ts : list ThreadState) : nat := sum_list (todo <$> ts).

(** [n] calls one after the other, none of which parks. *)
Fixpoint enter_times (n : nat) (b : MXUserBarrier) : option MXUserBarrier :=
  match n with
  | O => Some b
  | S n' => b' ← enter_through b; enter_times n' b'
  end.

(** A barrier as [MXUser_CreateBarrier] leaves it, given the addresses of
    its name, lock and condition variables. *)
Definition fresh_barrier (nm lk cv0 cv1 : ptr) (rk cnt : Z) : MXUserBarrier :=
  {| header := {| name := nm; signature := MXUSER_BARRIER_SIGNATURE;
                  rank := rk; dumpFunc := DumpBarrier |};
     lock := lk; emptying := false; configCount := cnt; curContext := 0;
     contexts := [ {| count := 0; condVar := cv0 |};
                   {| count := 0; condVar := cv1 |} ] |}.

(** Sample barriers: one for three parties, one for a single party, and
    the first in the middle of a release, with two threads still to leave. *)
Definition barrier3 : MXUserBarrier :=
  fresh_barrier (Some 2%positive) (Some 3%positive) (Some 4%positive)
    (Some 5%positive) 0 3.
Definition barrier1 : MXUserBarrier :=
  fresh_barrier (Some 2%positive) (Some 3%positive) (Some 4%positive)
    (Some 5%positive) 0 1.
Definition barrier3_emptying : MXUserBarrier :=
  set_emptying true
    (set_context 0 {| count := 2; condVar := Some 4%positive |} barrier3).

(** The two phases of a round of [n] threads on a barrier that starts with
    nobody inside.  While the round fills, every thread is outside or
    parked on the current context, whose count is the number of parked
    threads, and somebody is still outside.  While it drains, every thread
    is woken or has returned, and the count of the context they registered
    in is the number of threads still to leave. *)
Definition filling (n : nat) (s : System) : Prop :=
  let b := sys_barrier s in
  let cur := Z.to_nat (curContext b) in
  emptying b = false ∧ configCount b = Z.of_nat n ∧
  ∃ c, contexts b !! cur = Some c ∧
       Forall (λ t, t = Outside ∨ t = Parked (condVar c) cur) (sys_threads s) ∧
       count c = Z.of_nat (occ (Parked (condVar c) cur) (sys_threads s)) ∧
       (occ (Parked (condVar c) cur) (sys_threads s) < n)%nat.

Definition draining (s : System) : Prop :=
  ∃ k c, contexts (sys_barrier s) !! k = Some c ∧
         Forall (λ t, t = Woken k ∨ t = Returned) (sys_threads s) ∧
         Returned ∈ sys_threads s ∧
         count c = Z.of_nat (occ (Woken k) (sys_threads s)).

Definition round_inv (n : nat) (s : System) : Prop :=
  length (sys_threads s) = n ∧ (filling n s ∨ draining s).

(** The block a pointer names, as a set: empty for [NULL]. *)
Definition blocks (p : ptr) : gset loc :=
  match p with
  | Some l => {[l]}
  | None => ∅
  end.

(** The pointers a barrier holds to the objects it owns. *)
Definition owned (b : MXUserBarrier) : list ptr :=
  name (header b) :: lock b :: (condVar <$> contexts b).

(** The blocks those pointers name: the null ones name none. *)
Definition owned_blocks (b : MXUserBarrier) : list loc := omap id (owned b).

(** A sample state: [barrier3] at address 1 with its name, its lock and its
    two condition variables at addresses 2 to 5, all live. *)
Definition world3 : World :=
  {| mem := <[1%positive := ObjBarrier barrier3]>
              (<[2%positive := ObjString "b3"]>
                 (<[3%positive := ObjExclLock (Some 2%positive) 0]>
                    (<[4%positive := ObjCondVar (Some 3%positive)]>
                       (<[5%positive := ObjCondVar (Some 3%positive)]> ∅))));
     live := {[1%positive; 2%positive; 3%positive; 4%positive; 5%positive]};
     alloc_ok := []; rivals := []; atomics := [] |}.

(** Whether one of the (at most three) fallible allocations of
    [MXUser_CreateBarrier] is going to fail: the lock, then the two
    condition variables. *)
Definition create_fails (o : list bool) : bool :=
  negb (nth 0 o true && nth 1 o true && nth 2 o true).

(** What an atomic operation finds in a cell that held [v] when another
    thread tried to install [r] just before: [v] if there was one, else
    [r]. *)
Definition seen (v r : ptr) : ptr :=
  match v with
  | Some _ => v
  | None => r
  end.

(** A sample state for the singleton: an empty cell at address 9 and the
    barrier of another thread at address 7, which that thread installs
    after this thread has read the cell and before its compare-and-swap. *)
Definition racing_world : World :=
  {| mem := <[9%positive := ObjAtomicPtr NULL]>
              (<[7%positive := ObjBarrier barrier3]> ∅);
     live := {[7%positive; 9%positive]};
     alloc_ok := []; rivals := [None; Some 7%positive]; atomics := [] |}.

(** The same cell with no other thread around, and an allocator that has
    no lock to give. *)
Definition exhausted_world : World :=
  {| mem := <[9%positive := ObjAtomicPtr NULL]> ∅;
     live := {[9%positive]};
     alloc_ok := [false]; rivals := []; atomics := [] |}.

(** ** Notions for the properties of the whole file *)

(** The shape [MXUser_CreateBarrier] gives a barrier and every later call
    relies on: two contexts, and a current context that is one of them. *)
Definition well_formed (b : MXUserBarrier) : Prop :=
  (curContext b = 0 ∨ curContext b = 1) ∧ length (contexts b) = 2%nat.

(** The context a thread inside the barrier is registered in. *)
Definition registered (t : ThreadState) : option nat :=
  match t with
  | Parked _ k | Woken k => Some k
  | Outside | Returned => None
  end.

(** The number of threads inside the barrier that are registered in
    context [k]. *)
Definition inside (k : nat) (ts : list ThreadState) : nat :=
  length (filter (λ t, registered t = Some k) ts).

(** The count of every context is the number of threads registered in
    it, on a well-formed barrier whose threads are registered in context 0
    or 1. *)
Definition accounted (s : System) : Prop :=
  well_formed (sys_barrier s) ∧
  Forall (λ t, ∀ k, registered t = Some k → (k < 2)%nat) (sys_threads s) ∧
  ∀ k c, contexts (sys_barrier s) !! k = Some c →
         count c = Z.of_nat (inside k (sys_threads s)).

(** The number of threads inside the barrier: parked or woken. *)
Definition entered (ts : list ThreadState) : nat :=
  length (filter (λ t, is_Some (registered t)) ts).

(** [world3] after two of four threads have entered [barrier3] and
    parked. *)
Definition barrier3_two_parked : MXUserBarrier :=
  set_context 0 {| count := 2; condVar := Some 4%positive |} barrier3.
Definition world3_two_parked : World :=
  set_mem (<[1%positive := ObjBarrier barrier3_two_parked]> (mem world3))
    world3.

(** The barrier itself in the course of one round of [n] threads on a
    barrier [b] that nobody is inside of: while the round fills it is [b]
    with the count of the current context raised, while the round drains
    it is [b] with [emptying] set and the count of those still to leave, and
    when all have left it is [b] with [curContext] flipped. *)
Definition round_shape (b : MXUserBarrier) (n : nat) (s : System) : Prop :=
  let cur := Z.to_nat (curContext b) in
  ∃ c, contexts b !! cur = Some c ∧
    ((∃ p, (p < n)%nat ∧
        sys_barrier s = set_context cur (set_count (Z.of_nat p) c) b ∧
        Forall (λ t, t = Outside ∨ t = Parked (condVar c) cur)
          (sys_threads s) ∧
        occ (Parked (condVar c) cur) (sys_threads s) = p)
     ∨ (∃ q, (1 ≤ q)%nat ∧
        sys_barrier s
        = set_emptying true (set_context cur (set_count (Z.of_nat q) c) b) ∧
        Forall (λ t, t = Woken cur ∨ t = Returned) (sys_threads s) ∧
        occ (Woken cur) (sys_threads s) = q)
     ∨ (sys_barrier s = set_curContext (flip (curContext b)) b ∧
        Forall (λ t, t = Returned) (sys_threads s))).

(** ** Threads that enter again and again

    Modelled from the spec: a party of threads that use one barrier round
    after round, each thread calling [MXUser_EnterBarrier] a number of
    times.  A thread is where it is in its current call ([Outside] between
    two calls) and has some calls still to make. *)
Record Looper := {
  calls_left : nat;
  place : ThreadState
}.

Record Loop := {
  loop_barrier : MXUserBarrier;
  loop_threads : list Looper
}.

(** A broadcast, as [wake]. *)
Definition rouse (cv : ptr) (t : Looper) : Looper :=
  {| calls_left := calls_left t; place := wake cv (place t) |}.

(** Thread [i] runs until it next gives up the lock, as in [sched]; a
    thread that returns is outside again, with one call fewer to make. *)
Definition turn (i : nat) (s : Loop) : option Loop :=
  t ← loop_threads s !! i;
  match place t with
  | Outside =>
      match calls_left t with
      | O => None
      | S r =>
          a ← enter_arrive (loop_barrier s);
          match arr_call a with
          | WaitCondVarExclLock _ cv =>
              Some {| loop_barrier := arr_barrier a;
                      loop_threads :=
                        <[i := {| calls_left := r;
                                  place := Parked cv (arr_ptr a) |}]>
                          (loop_threads s) |}
          | BroadcastCondVar cv =>
              b' ← enter_leave (arr_ptr a) (arr_barrier a);
              Some {| loop_barrier := b';
                      loop_threads :=
                        <[i := {| calls_left := r; place := Outside |}]>
                          (rouse cv <$> loop_threads s) |}
          end
      end
  | Woken k =>
      b' ← enter_leave k (loop_barrier s);
      Some {| loop_barrier := b';
              loop_threads :=
                <[i := {| calls_left := calls_left t; place := Outside |}]>
                  (loop_threads s) |}
  | Parked _ _ | Returned => None
  end.

Fixpoint turns (sch : list nat) (s : Loop) : option Loop :=
  match sch with
  | [] => Some s
  | i :: rest => s' ← turn i s; turns rest s'
  end.

(** [n] threads with [r] calls each to make. *)
Definition party (b : MXUserBarrier) (n r : nat) : Loop :=
  {| loop_barrier := b;
     loop_threads := replicate n {| calls_left := r; place := Outside |} |}.

(** The steps a thread still has to take: two for each call not begun, one
    for a call it is inside of. *)
Definition effort (t : Looper) : nat :=
  (2 * calls_left t
   + match place t with Parked _ _ | Woken _ => 1 | _ => 0 end)%nat.

Definition workload (ts : list Looper) : nat := sum_list (effort <$> ts).

(** The calls a thread has begun but not returned from: 0 or 1. *)
Definition in_call (t : Looper) : nat :=
  match place t with Parked _ _ | Woken _ => 1 | _ => 0 end.

(** The counts are right: as [accounted], for the places of the threads. *)
Definition loop_accounted (s : Loop) : Prop :=
  well_formed (loop_barrier s) ∧
  Forall (λ t, ∀ k, registered (place t) = Some k → (k < 2)%nat)
    (loop_threads s) ∧
  ∀ k c, contexts (loop_barrier s) !! k = Some c →
         count c = Z.of_nat (inside k (place <$> loop_threads s)).

(** Where the party is.  Either a round is filling: every thread is
    outside with [m] calls to make, or parked on the current context in a
    call taken from those [m], and somebody is outside.  Or a round is
    draining: every thread is woken from the current context, or outside,
    with [m] calls to make, or already parked on the other context in a
    call taken from those [m], and somebody is woken. *)
Definition loop_phase (n : nat) (s : Loop) : Prop :=
  let b := loop_barrier s in
  let cur := Z.to_nat (curContext b) in
  let oth := Z.to_nat (flip (curContext b)) in
  configCount b = Z.of_nat n ∧ length (loop_threads s) = n ∧
  ∃ m cc co,
    contexts b !! cur = Some cc ∧ contexts b !! oth = Some co ∧
    if emptying b then
      Forall (λ t, (place t = Woken cur ∧ calls_left t = m) ∨
                   (place t = Outside ∧ calls_left t = m) ∨
                   (place t = Parked (condVar co) oth ∧ S (calls_left t) = m))
        (loop_threads s) ∧
      (∃ t, t ∈ loop_threads s ∧ place t = Woken cur)
    else
      Forall (λ t, (place t = Outside ∧ calls_left t = m) ∨
                   (place t = Parked (condVar cc) cur ∧ S (calls_left t) = m))
        (loop_threads s) ∧
      (∃ t, t ∈ loop_threads s ∧ place t = Outside).

(** The party seen as threads in one call each: the barrier and where
    each thread is. *)
Definition snapshot (s : Loop) : System :=
  {| sys_barrier := loop_barrier s;
     sys_threads := place <$> loop_threads s |}.

(** Every thread is between two calls and has no call left to make. *)
Definition all_done (ts : list Looper) : Prop :=
  Forall (λ t, place t = Outside ∧ calls_left t = 0%nat) ts.

(** More threads than the barrier was made for: the context in use holds
    [configCount] threads or more while the barrier is not emptying, no
    thread is woken, and the count cannot wrap around. *)
Definition overfull (s : System) : Prop :=
  let b := sys_barrier s in
  emptying b = false ∧
  Forall (λ t, ∀ k, t ≠ Woken k) (sys_threads s) ∧
  ∃ c, contexts b !! Z.to_nat (curContext b) = Some c ∧
       0 ≤ configCount b ≤ count c ∧
       count c + Z.of_nat (occ Outside (sys_threads s)) < 2 ^ 32.

(** A barrier for two parties, and five threads after the schedule
    0, 1, 2, 3, 0: two have returned, two arrived during the release and
    are parked on the other context, which is now the one in use. *)
Definition barrier2 : MXUserBarrier :=
  fresh_barrier (Some 2%positive) (Some 3%positive) (Some 4%positive)
    (Some 5%positive) 0 2.
Definition stranded5 : System :=
  {| sys_barrier :=
       set_curContext 1
         (set_context 1 {| count := 2; condVar := Some 5%positive |}
            barrier2);
     sys_threads := [ Returned; Returned; Parked (Some 5%positive) 1;
                      Parked (Some 5%positive) 1; Outside ] |}.



(** * Properties *)

(** ** Arithmetic of the counters *)

Lemma u32_small z : 0 ≤ z < 2 ^ 32 → u32 z = z.
Proof. intros H. unfold u32. by apply Z.mod_small. Qed.

Lemma flip_0 : flip 0 = 1.
Proof. reflexivity. Qed.

Lemma flip_1 : flip 1 = 0.
Proof. reflexivity. Qed.

Lemma flip_other cur : cur = 0 ∨ cur = 1 → flip cur = 1 - cur.
Proof. by intros [-> | ->]. Qed.

Lemma flip_range cur : flip cur = 0 ∨ flip cur = 1.
Proof.
  unfold flip. generalize (u32 (cur + 1)). intros z.
  assert (H : Z.land z 1 = z mod 2 ^ 1) by (apply (Z.land_ones z 1); lia).
  assert (0 ≤ z mod 2 ^ 1 < 2 ^ 1) by (apply Z.mod_pos_bound; lia).
  lia.
Qed.

(** ** The two critical sections of [MXUser_EnterBarrier] *)

Section Enter.
Implicit Types (b : MXUserBarrier) (c : BarrierContext).

(** Neither critical section touches the identity or the configuration of
    the barrier, and only the second one may move [curContext]. *)
Lemma enter_arrive_frame b a :
  enter_arrive b = Some a →
  header (arr_barrier a) = header b ∧ lock (arr_barrier a) = lock b ∧
  configCount (arr_barrier a) = configCount b ∧
  curContext (arr_barrier a) = curContext b.
Proof.
  unfold enter_arrive. intros H.
  destruct (emptying b); simplify_option_eq; done.
Qed.

Lemma enter_leave_frame b k b' :
  enter_leave k b = Some b' →
  header b' = header b ∧ lock b' = lock b ∧ configCount b' = configCount b.
Proof.
  unfold enter_leave. intros H.
  destruct (contexts b !! k) as [c|]; simpl in H; [|done].
  injection H as <-. by destruct (bool_decide _).
Qed.

Lemma enter_arrive_normal b c :
  emptying b = false →
  contexts b !! Z.to_nat (curContext b) = Some c →
  enter_arrive b =
    Some {| arr_barrier :=
              set_emptying (bool_decide (u32 (count c + 1) = configCount b))
                (set_context (Z.to_nat (curContext b)) (incr_count c) b);
            arr_ptr := Z.to_nat (curContext b);
            arr_call :=
              if bool_decide (u32 (count c + 1) = configCount b)
              then BroadcastCondVar (condVar c)
              else WaitCondVarExclLock (lock b) (condVar c) |}.
Proof. intros He Hc. unfold enter_arrive. by rewrite He, Hc. Qed.

Lemma enter_arrive_abnormal b c :
  emptying b = true →
  contexts b !! Z.to_nat (flip (curContext b)) = Some c →
  enter_arrive b =
    Some {| arr_barrier :=
              set_context (Z.to_nat (flip (curContext b))) (incr_count c) b;
            arr_ptr := Z.to_nat (flip (curContext b));
            arr_call := WaitCondVarExclLock (lock b) (condVar c) |}.
Proof. intros He Hc. unfold enter_arrive. by rewrite He, Hc. Qed.

Lemma enter_leave_eq b k c :
  contexts b !! k = Some c →
  enter_leave k b =
    Some (if bool_decide (u32 (count c - 1) = 0)
          then set_curContext (flip (curContext b))
                 (set_emptying false (set_context k (decr_count c) b))
          else set_context k (decr_count c) b).
Proof. intros Hc. unfold enter_leave. by rewrite Hc. Qed.

End Enter.

(** ** Arrival and departure *)

(** C1.  A thread that enters while the barrier is not emptying registers
    in [contexts[curContext]]: its local [ptr] is that context and the
    context's count goes up by one (a [uint32] increment).  If the new
    count is [configCount], [emptying] is set and the thread broadcasts on
    that context's condition variable instead of waiting, and goes on to
    the second critical section; otherwise [emptying] stays clear and the
    thread waits on that condition variable. *)
Theorem enter_normal_arrival (b : MXUserBarrier) (c : BarrierContext) :
  emptying b = false →
  contexts b !! Z.to_nat (curContext b) = Some c →
  ∃ a,
    enter_arrive b = Some a ∧
    arr_ptr a = Z.to_nat (curContext b) ∧
    contexts (arr_barrier a) =
      <[Z.to_nat (curContext b) := set_count (u32 (count c + 1)) c]> (contexts b) ∧
    (0 ≤ count c < 2 ^ 32 - 1 → u32 (count c + 1) = count c + 1) ∧
    curContext (arr_barrier a) = curContext b ∧
    (u32 (count c + 1) = configCount b →
       emptying (arr_barrier a) = true ∧
       arr_call a = BroadcastCondVar (condVar c) ∧
       enter_through b = enter_leave (arr_ptr a) (arr_barrier a)) ∧
    (u32 (count c + 1) ≠ configCount b →
       emptying (arr_barrier a) = false ∧
       arr_call a = WaitCondVarExclLock (lock b) (condVar c) ∧
       enter_through b = None).
Proof.
  intros He Hc. eexists. split; [by apply enter_arrive_normal|].
  unfold enter_through. rewrite (enter_arrive_normal b c He Hc). simpl.
  repeat split; try done.
  - intros ?. apply u32_small. lia.
  - by rewrite bool_decide_eq_true_2.
  - by rewrite bool_decide_eq_true_2.
  - by rewrite bool_decide_eq_true_2.
  - by rewrite bool_decide_eq_false_2.
  - by rewrite bool_decide_eq_false_2.
  - by rewrite bool_decide_eq_false_2.
Qed.

Lemma enter_normal_arrival_witness :
  emptying barrier3 = false ∧
  contexts barrier3 !! Z.to_nat (curContext barrier3)
    = Some {| count := 0; condVar := Some 4%positive |} ∧
  ∃ a, enter_arrive barrier3 = Some a ∧
       arr_call a = WaitCondVarExclLock (Some 3%positive) (Some 4%positive).
Proof.
  split; [reflexivity|]. split; [reflexivity|].
  destruct (enter_normal_arrival barrier3
              {| count := 0; condVar := Some 4%positive |}
              eq_refl eq_refl) as (a & Ha & _ & _ & _ & _ & _ & Hw).
  exists a. split; [exact Ha|].
  refine (proj1 (proj2 (Hw _))). vm_compute. discriminate.
Defined.

(** C2.  A thread that enters while the barrier is emptying registers in
    the other context, index [1 - curContext]: that context's count goes up
    by one (a [uint32] increment; nothing else of the context changes) and
    the thread waits on that context's condition variable.  The context
    being drained, [emptying], [curContext] and the rest of the barrier are
    left as they were. *)
Theorem enter_abnormal_arrival (b : MXUserBarrier) (c : BarrierContext) :
  emptying b = true →
  curContext b = 0 ∨ curContext b = 1 →
  contexts b !! Z.to_nat (1 - curContext b) = Some c →
  ∃ a c',
    enter_arrive b = Some a ∧
    arr_ptr a = Z.to_nat (1 - curContext b) ∧
    arr_call a = WaitCondVarExclLock (lock b) (condVar c) ∧
    contexts (arr_barrier a) !! Z.to_nat (1 - curContext b) = Some c' ∧
    count c' = u32 (count c + 1) ∧
    (0 ≤ count c < 2 ^ 32 - 1 → count c' = count c + 1) ∧
    condVar c' = condVar c ∧
    contexts (arr_barrier a)
      = <[Z.to_nat (1 - curContext b) := c']> (contexts b) ∧
    contexts (arr_barrier a) !! Z.to_nat (curContext b)
      = contexts b !! Z.to_nat (curContext b) ∧
    emptying (arr_barrier a) = true ∧
    curContext (arr_barrier a) = curContext b ∧
    configCount (arr_barrier a) = configCount b ∧
    header (arr_barrier a) = header b ∧
    lock (arr_barrier a) = lock b ∧
    enter_through b = None.
Proof.
  intros He Hcur Hc. rewrite <- (flip_other _ Hcur) in Hc.
  exists {| arr_barrier :=
              set_context (Z.to_nat (flip (curContext b))) (incr_count c) b;
            arr_ptr := Z.to_nat (flip (curContext b));
            arr_call := WaitCondVarExclLock (lock b) (condVar c) |},
         (incr_count c).
  split; [by apply enter_arrive_abnormal|].
  unfold enter_through. rewrite (enter_arrive_abnormal b c He Hc). simpl.
  rewrite <- (flip_other _ Hcur).
  split; [done|]. split; [done|]. split.
  { apply list_lookup_insert_eq. by eapply lookup_lt_Some. }
  split; [done|]. split.
  { intros ?. apply u32_small. lia. }
  split; [done|]. split; [done|]. split.
  { apply list_lookup_insert_ne. rewrite (flip_other _ Hcur).
    destruct Hcur as [-> | ->]; simpl; lia. }
  by repeat split.
Qed.

Lemma enter_abnormal_arrival_witness :
  emptying barrier3_emptying = true ∧
  (curContext barrier3_emptying = 0 ∨ curContext barrier3_emptying = 1) ∧
  contexts barrier3_emptying !! Z.to_nat (1 - curContext barrier3_emptying)
    = Some {| count := 0; condVar := Some 5%positive |} ∧
  ∃ a c', enter_arrive barrier3_emptying = Some a ∧
          arr_ptr a = 1%nat ∧
          arr_call a
          = WaitCondVarExclLock (Some 3%positive) (Some 5%positive) ∧
          contexts (arr_barrier a) !! 1%nat = Some c' ∧
          count c' = 1 ∧
          count <$> contexts (arr_barrier a) = [2; 1].
Proof.
  split; [reflexivity|]. split; [left; reflexivity|]. split; [reflexivity|].
  destruct (enter_abnormal_arrival barrier3_emptying
              {| count := 0; condVar := Some 5%positive |}
              eq_refl (or_introl eq_refl) eq_refl)
    as (a & c' & Ha & Hp & Hw & Hc' & Hcount & _ & _ & Hctx & _).
  exists a, c'. split; [exact Ha|]. split; [exact Hp|]. split; [exact Hw|].
  split; [exact Hc'|]. split; [exact Hcount|].
  rewrite Hctx. simpl. by rewrite Hcount.
Defined.

(** The context a thread leaves through is the one it registered in: a
    thread returns either in the step in which it arrived (it was the last
    of its round) or in a later step, after it was woken, and in both cases
    the second critical section runs with the [ptr] of its arrival. *)
Lemma sched_returns i s s' :
  sched i s = Some s' →
  sys_threads s' !! i = Some Returned →
  ∃ k b1,
    enter_leave k b1 = Some (sys_barrier s') ∧
    ((sys_threads s !! i = Some (Woken k) ∧ b1 = sys_barrier s) ∨
     (sys_threads s !! i = Some Outside ∧
      ∃ a, enter_arrive (sys_barrier s) = Some a ∧
           arr_ptr a = k ∧ arr_barrier a = b1)).
Proof.
  unfold sched. intros Hs Hr.
  destruct (sys_threads s !! i) as [[| cv k | k |]|] eqn:Ht; simpl in Hs;
    try done.
  - destruct (enter_arrive (sys_barrier s)) as [a|] eqn:Ha; simpl in Hs;
      [|done].
    destruct (arr_call a) as [cv | lk cv].
    + destruct (enter_leave (arr_ptr a) (arr_barrier a)) as [b'|] eqn:Hl;
        simpl in Hs; [|done].
      injection Hs as <-. simpl. exists (arr_ptr a), (arr_barrier a).
      split; [done|]. right. split; [done|]. by exists a.
    + injection Hs as <-. simpl in Hr.
      rewrite list_lookup_insert_eq in Hr by (by eapply lookup_lt_Some).
      done.
  - destruct (enter_leave k (sys_barrier s)) as [b'|] eqn:Hl; simpl in Hs;
      [|done].
    injection Hs as <-. simpl. exists k, (sys_barrier s).
    split; [done|]. by left.
Qed.

Lemma sched_parks i s s' cv k :
  sched i s = Some s' →
  sys_threads s' !! i = Some (Parked cv k) →
  ∃ a lk, enter_arrive (sys_barrier s) = Some a ∧ arr_ptr a = k ∧
          arr_call a = WaitCondVarExclLock lk cv.
Proof.
  unfold sched. intros Hs Hp.
  destruct (sys_threads s !! i) as [[| cv' k' | k' |]|] eqn:Ht; simpl in Hs;
    try done.
  - destruct (enter_arrive (sys_barrier s)) as [a|] eqn:Ha; simpl in Hs;
      [|done].
    destruct (arr_call a) as [cv' | lk cv'] eqn:Hcall.
    + destruct (enter_leave (arr_ptr a) (arr_barrier a)) as [b'|];
        simpl in Hs; [|done].
      injection Hs as <-. simpl in Hp.
      rewrite list_lookup_insert_eq in Hp; [done|].
      rewrite length_fmap. by eapply lookup_lt_Some.
    + injection Hs as <-. simpl in Hp.
      rewrite list_lookup_insert_eq in Hp by (by eapply lookup_lt_Some).
      injection Hp as H1 H2. subst cv' k. by exists a, lk.
  - destruct (enter_leave k' (sys_barrier s)) as [b'|]; simpl in Hs; [|done].
    injection Hs as <-. simpl in Hp.
    rewrite list_lookup_insert_eq in Hp by (by eapply lookup_lt_Some).
    done.
Qed.

(** C3.  On its way out a thread decrements (as a [uint32]) the count of
    the context its [ptr] names.  If the count becomes 0, [emptying] is
    cleared and [curContext] moves to the other index; if it does not,
    [emptying] and [curContext] keep their values.  Arriving never changes
    [curContext].  The [ptr] a thread leaves with is the one it registered
    with: a thread that returns in the step of its arrival uses the [ptr]
    of that arrival, a thread that parks is recorded with the [ptr] of its
    arrival, and waking it keeps that [ptr]. *)
Theorem enter_departure (b : MXUserBarrier) (k : nat) (c : BarrierContext) :
  contexts b !! k = Some c →
  (∃ b',
     enter_leave k b = Some b' ∧
     contexts b' = <[k := set_count (u32 (count c - 1)) c]> (contexts b) ∧
     (1 ≤ count c < 2 ^ 32 → u32 (count c - 1) = count c - 1) ∧
     (u32 (count c - 1) = 0 →
        emptying b' = false ∧
        curContext b' = flip (curContext b) ∧
        (curContext b = 0 ∨ curContext b = 1 →
         curContext b' = 1 - curContext b)) ∧
     (u32 (count c - 1) ≠ 0 →
        emptying b' = emptying b ∧ curContext b' = curContext b)) ∧
  (∀ a, enter_arrive b = Some a → curContext (arr_barrier a) = curContext b) ∧
  (∀ i ts s',
     sched i {| sys_barrier := b; sys_threads := ts |} = Some s' →
     sys_threads s' !! i = Some Returned →
     ∃ j b1,
       enter_leave j b1 = Some (sys_barrier s') ∧
       ((ts !! i = Some (Woken j) ∧ b1 = b) ∨
        (ts !! i = Some Outside ∧
         ∃ a, enter_arrive b = Some a ∧ arr_ptr a = j ∧ arr_barrier a = b1))) ∧
  (∀ i ts s' cv j,
     sched i {| sys_barrier := b; sys_threads := ts |} = Some s' →
     sys_threads s' !! i = Some (Parked cv j) →
     (∃ a lk, enter_arrive b = Some a ∧ arr_ptr a = j ∧
              arr_call a = WaitCondVarExclLock lk cv) ∧
     wake cv (Parked cv j) = Woken j).
Proof.
  intros Hc. split; [|split; [|split]].
  - eexists. split; [by apply enter_leave_eq|].
    case_bool_decide as Hz; simpl.
    + repeat split; try done.
      * intros ?. apply u32_small. lia.
      * intros Hcur. by apply flip_other.
    + repeat split; try done.
      intros ?. apply u32_small. lia.
  - intros a Ha. by apply enter_arrive_frame in Ha as (_ & _ & _ & ?).
  - intros i ts s' Hs Hr.
    exact (sched_returns i {| sys_barrier := b; sys_threads := ts |} s' Hs Hr).
  - intros i ts s' cv j Hs Hp. split.
    + exact (sched_parks i {| sys_barrier := b; sys_threads := ts |} s' cv j
               Hs Hp).
    + unfold wake. by rewrite bool_decide_eq_true_2.
Qed.

Lemma enter_departure_witness :
  contexts barrier3_emptying !! 0%nat
    = Some {| count := 2; condVar := Some 4%positive |} ∧
  ∃ b', enter_leave 0 barrier3_emptying = Some b' ∧
        emptying b' = true ∧ curContext b' = 0.
Proof.
  split; [reflexivity|].
  destruct (enter_departure barrier3_emptying 0
              {| count := 2; condVar := Some 4%positive |} eq_refl)
    as ((b' & Hl & _ & _ & _ & Hnz) & _).
  exists b'. split; [exact Hl|]. apply Hnz. vm_compute. discriminate.
Defined.

(** ** A barrier for one party *)

Lemma quiescent_single_through (b : MXUserBarrier) :
  configCount b = 1 → quiescent b →
  ∃ c,
    contexts b !! Z.to_nat (curContext b) = Some c ∧
    enter_arrive b =
      Some {| arr_barrier :=
                set_emptying true
                  (set_context (Z.to_nat (curContext b)) (set_count 1 c) b);
              arr_ptr := Z.to_nat (curContext b);
              arr_call := BroadcastCondVar (condVar c) |} ∧
    enter_leave (Z.to_nat (curContext b))
      (set_emptying true
         (set_context (Z.to_nat (curContext b)) (set_count 1 c) b))
      = Some (set_curContext (1 - curContext b) b) ∧
    quiescent (set_curContext (1 - curContext b) b).
Proof.
  intros Hn (He & Hcur & cv0 & cv1 & Hctx).
  destruct b as [h lk e n cur ctxs]; simpl in *. subst e n ctxs.
  destruct Hcur as [-> | ->].
  - exists {| count := 0; condVar := cv0 |}. repeat split; try done.
    + by right.
    + by exists cv0, cv1.
  - exists {| count := 0; condVar := cv1 |}. repeat split; try done.
    + by left.
    + by exists cv0, cv1.
Qed.

(** With one party no thread is ever found parked or woken: every step of
    a thread outside takes it to the end of its call. *)
Lemma single_party_sched i s s' :
  configCount (sys_barrier s) = 1 → quiescent (sys_barrier s) →
  Forall (λ t, t = Outside ∨ t = Returned) (sys_threads s) →
  sched i s = Some s' →
  configCount (sys_barrier s') = 1 ∧ quiescent (sys_barrier s') ∧
  Forall (λ t, t = Outside ∨ t = Returned) (sys_threads s') ∧
  sys_threads s !! i = Some Outside ∧ sys_threads s' !! i = Some Returned.
Proof.
  intros Hn Hq Hall Hs. destruct s as [b ts]. simpl in *.
  unfold sched in Hs. simpl in Hs.
  destruct (ts !! i) as [t|] eqn:Ht; simpl in Hs; [|done].
  assert (Hti : t = Outside ∨ t = Returned).
  { rewrite Forall_lookup in Hall. by eapply Hall. }
  destruct Hti as [-> | ->]; [|done].
  destruct (quiescent_single_through b Hn Hq) as (c & Hc & Ha & Hl & Hq').
  rewrite Ha in Hs. simpl in Hs. rewrite Hl in Hs. simpl in Hs.
  injection Hs as <-. simpl.
  assert (Hw : wake (condVar c) <$> ts = ts).
  { clear Ht. induction Hall as [|t ts Ht _ IH]; [done|].
    rewrite fmap_cons, IH. by destruct Ht as [-> | ->]. }
  rewrite Hw. repeat split; try done.
  - by destruct Hq' as (? & ? & ?).
  - by destruct Hq' as (? & ? & ?).
  - by destruct Hq' as (? & ? & ?).
  - apply Forall_insert; [done | by right].
  - apply list_lookup_insert_eq. by eapply lookup_lt_Some.
Qed.

Lemma single_party_run sch s s' :
  configCount (sys_barrier s) = 1 → quiescent (sys_barrier s) →
  Forall (λ t, t = Outside ∨ t = Returned) (sys_threads s) →
  run sch s = Some s' →
  configCount (sys_barrier s') = 1 ∧ quiescent (sys_barrier s') ∧
  Forall (λ t, t = Outside ∨ t = Returned) (sys_threads s').
Proof.
  revert s. induction sch as [|i sch IH]; intros s Hn Hq Hall Hr;
    simpl in Hr.
  - by injection Hr as <-.
  - destruct (sched i s) as [s1|] eqn:Hs; simpl in Hr; [|done].
    destruct (single_party_sched i s s1 Hn Hq Hall Hs)
      as (Hn1 & Hq1 & Hall1 & _).
    by apply (IH s1).
Qed.

(** C5.  On a barrier for one party that nobody is inside of, a call of
    [MXUser_EnterBarrier] does not park: on arrival the count of the current
    context becomes 1, [emptying] is set and the thread broadcasts; on the
    way out the count is back to 0, [emptying] is cleared and [curContext]
    is toggled.  The barrier after the call differs from the barrier before
    it in [curContext] only, which names the other context; it is again a
    barrier nobody is inside of, so the same holds for every further call:
    after [n] calls [curContext] is the original one if [n] is even and the
    other one if [n] is odd, and nothing else has changed.  However many
    threads call in whatever order, each of them goes from outside to
    returned in one step, and none is ever parked. *)
Theorem enter_single_party (b : MXUserBarrier) :
  configCount b = 1 →
  quiescent b →
  (∃ a c c1,
     contexts b !! Z.to_nat (curContext b) = Some c ∧
     count c = 0 ∧
     enter_arrive b = Some a ∧
     arr_ptr a = Z.to_nat (curContext b) ∧
     arr_call a = BroadcastCondVar (condVar c) ∧
     contexts (arr_barrier a) !! arr_ptr a = Some c1 ∧
     count c1 = 1 ∧ condVar c1 = condVar c ∧
     emptying (arr_barrier a) = true ∧
     curContext (arr_barrier a) = curContext b ∧
     enter_through b = enter_leave (arr_ptr a) (arr_barrier a)) ∧
  (∃ b',
     enter_through b = Some b' ∧
     curContext b' = 1 - curContext b ∧
     emptying b' = false ∧
     count <$> contexts b' = [0; 0] ∧
     contexts b' = contexts b ∧
     header b' = header b ∧ lock b' = lock b ∧
     configCount b' = configCount b ∧
     quiescent b') ∧
  (∀ n, ∃ b',
     enter_times n b = Some b' ∧
     curContext b' = (if Nat.even n then curContext b
                      else 1 - curContext b) ∧
     emptying b' = false ∧
     contexts b' = contexts b ∧
     header b' = header b ∧ lock b' = lock b ∧
     configCount b' = configCount b ∧
     quiescent b') ∧
  (∀ n sch s, run sch (start b n) = Some s →
     quiescent (sys_barrier s) ∧
     Forall (λ t, t = Outside ∨ t = Returned) (sys_threads s) ∧
     ∀ i s', sched i s = Some s' →
             sys_threads s !! i = Some Outside ∧
             sys_threads s' !! i = Some Returned).
Proof.
  intros Hn Hq.
  assert (Hone : ∀ b0, configCount b0 = 1 → quiescent b0 →
            ∃ b', enter_through b0 = Some b' ∧
                  curContext b' = 1 - curContext b0 ∧
                  emptying b' = false ∧
                  count <$> contexts b' = [0; 0] ∧
                  contexts b' = contexts b0 ∧
                  header b' = header b0 ∧ lock b' = lock b0 ∧
                  configCount b' = configCount b0 ∧
                  quiescent b').
  { intros b0 Hn0 Hq0.
    destruct (quiescent_single_through b0 Hn0 Hq0) as (c & Hc & Ha & Hl & Hq').
    exists (set_curContext (1 - curContext b0) b0).
    split; [unfold enter_through; rewrite Ha; simpl; exact Hl|].
    destruct Hq0 as (He0 & _ & cv0 & cv1 & Hctx0).
    split; [done|]. split; [done|]. split; [simpl; by rewrite Hctx0|].
    do 4 (split; [done|]). exact Hq'. }
  destruct (quiescent_single_through b Hn Hq) as (c & Hc & Ha & Hl & Hq').
  split; [|split; [|split]].
  - exists {| arr_barrier :=
                set_emptying true
                  (set_context (Z.to_nat (curContext b)) (set_count 1 c) b);
              arr_ptr := Z.to_nat (curContext b);
              arr_call := BroadcastCondVar (condVar c) |}, c, (set_count 1 c).
    split; [exact Hc|]. split.
    { destruct Hq as (_ & Hcur & cv0 & cv1 & Hctx). rewrite Hctx in Hc.
      destruct Hcur as [Hcur | Hcur]; rewrite Hcur in Hc; simpl in Hc;
        by injection Hc as <-. }
    split; [exact Ha|]. simpl. split; [done|]. split; [done|]. split.
    { apply list_lookup_insert_eq. by eapply lookup_lt_Some. }
    split; [done|]. split; [done|]. split; [done|]. split; [done|].
    unfold enter_through. by rewrite Ha.
  - by apply Hone.
  - clear c Hc Ha Hl Hq'. intros n. revert b Hn Hq.
    induction n as [|n IH]; intros b Hn Hq.
    + exists b. pose proof Hq as (He & _). by split_and!.
    + destruct (Hone b Hn Hq)
        as (b1 & Ht & Hcur1 & He1 & _ & Hctx1 & Hh1 & Hl1 & Hcfg1 & Hq1).
      destruct (IH b1 ltac:(congruence) Hq1)
        as (b' & Ht' & Hcur' & He' & Hctx' & Hh' & Hl' & Hcfg' & Hq'').
      assert (Hpar : (if Nat.even n then curContext b1
                      else 1 - curContext b1)
                     = (if Nat.even (S n) then curContext b
                        else 1 - curContext b)).
      { rewrite Nat.even_succ, <- Nat.negb_even, Hcur1.
        destruct (Nat.even n); simpl; lia. }
      exists b'. split.
      { simpl enter_times. rewrite Ht. exact Ht'. }
      split; [by rewrite Hcur', Hpar|].
      split; [done|]. split_and!; congruence || exact Hq''.
  - intros n sch s Hrun.
    assert (Hstart : Forall (λ t, t = Outside ∨ t = Returned)
                       (sys_threads (start b n)))
      by (apply Forall_replicate; by left).
    destruct (single_party_run sch (start b n) s Hn Hq Hstart Hrun)
      as (Hns & Hqs & Halls).
    split; [exact Hqs|]. split; [exact Halls|]. intros i s' Hs.
    destruct (single_party_sched i s s' Hns Hqs Halls Hs)
      as (_ & _ & _ & Ho & Hr).
    by split.
Qed.

Lemma enter_single_party_witness :
  configCount barrier1 = 1 ∧ quiescent barrier1 ∧
  ∃ b', enter_through barrier1 = Some b' ∧
        curContext barrier1 = 0 ∧ curContext b' = 1 ∧
        emptying b' = false ∧ count <$> contexts b' = [0; 0].
Proof.
  assert (Hq : quiescent barrier1).
  { split; [reflexivity|]. split; [left; reflexivity|].
    exists (Some 4%positive), (Some 5%positive). reflexivity. }
  split; [reflexivity|]. split; [exact Hq|].
  destruct (proj1 (proj2 (enter_single_party barrier1 eq_refl Hq)))
    as (b' & Ht & Hcur & He & Hcnt & _).
  exists b'. split; [exact Ht|]. split; [reflexivity|].
  split; [exact Hcur|]. split; [exact He | exact Hcnt].
Defined.

(** ** A round of the barrier *)

Section Counting.
Implicit Types (t x y z : ThreadState) (ts : list ThreadState).

Lemma occ_nil x : occ x [] = 0%nat.
Proof. reflexivity. Qed.

Lemma occ_cons x t ts :
  occ x (t :: ts) = ((if decide (t = x) then 1 else 0) + occ x ts)%nat.
Proof.
  unfold occ. rewrite filter_cons. by destruct (decide (t = x)).
Qed.

Lemma occ_insert x i y z ts :
  ts !! i = Some z →
  (occ x (<[i := y]> ts) + (if decide (z = x) then 1 else 0) =
   occ x ts + (if decide (y = x) then 1 else 0))%nat.
Proof.
  revert i. induction ts as [|t ts IH]; intros [|i] Hi; simpl in *;
    try done.
  - injection Hi as ->. rewrite !occ_cons. lia.
  - rewrite !occ_cons. specialize (IH i Hi). lia.
Qed.

Lemma occ_zero x ts : occ x ts = 0%nat → x ∉ ts.
Proof.
  induction ts as [|t ts IH]; [intros _; apply not_elem_of_nil|].
  rewrite occ_cons. intros H. apply not_elem_of_cons.
  destruct (decide (t = x)); [lia|]. split; [done|]. apply IH. lia.
Qed.

Lemma occ_split x y ts :
  x ≠ y → Forall (λ t, t = x ∨ t = y) ts →
  (occ x ts + occ y ts = length ts)%nat.
Proof.
  intros Hxy. induction 1 as [|t ts Ht _ IH]; [done|].
  rewrite !occ_cons. simpl.
  destruct Ht as [-> | ->].
  - rewrite decide_True by done. rewrite decide_False by done. lia.
  - rewrite decide_False by done. rewrite decide_True by done. lia.
Qed.

Lemma wake_parked cv k : wake cv (Parked cv k) = Woken k.
Proof. unfold wake. by rewrite bool_decide_eq_true_2. Qed.

Lemma occ_wake cv k ts :
  Forall (λ t, t = Parked cv k ∨ t = Returned) ts →
  occ (Woken k) (wake cv <$> ts) = occ (Parked cv k) ts ∧
  Forall (λ t, t = Woken k ∨ t = Returned) (wake cv <$> ts).
Proof.
  induction 1 as [|t ts Ht _ [IH1 IH2]]; [by split|].
  rewrite fmap_cons, !occ_cons, IH1.
  destruct Ht as [-> | ->].
  - rewrite wake_parked, !decide_True by done.
    split; [done|]. constructor; auto.
  - change (wake cv Returned) with Returned.
    rewrite !decide_False by done. split; [done|]. constructor; auto.
Qed.

Lemma backlog_cons t ts : backlog (t :: ts) = (todo t + backlog ts)%nat.
Proof. reflexivity. Qed.

Lemma backlog_insert i y z ts :
  ts !! i = Some z →
  (backlog (<[i := y]> ts) + todo z = backlog ts + todo y)%nat.
Proof.
  revert i. induction ts as [|t ts IH]; intros [|i] Hi; simpl in *;
    try done.
  - injection Hi as ->. rewrite !backlog_cons. lia.
  - rewrite !backlog_cons. specialize (IH i Hi). lia.
Qed.

Lemma todo_wake cv t : todo (wake cv t) = todo t.
Proof. destruct t; simpl; try done. by case_bool_decide. Qed.

Lemma backlog_wake cv ts : backlog (wake cv <$> ts) = backlog ts.
Proof.
  induction ts as [|t ts IH]; [done|].
  rewrite fmap_cons, !backlog_cons, todo_wake, IH. done.
Qed.

Lemma backlog_start n : backlog (replicate n Outside) = (2 * n)%nat.
Proof.
  induction n as [|n IH]; [done|].
  simpl replicate. rewrite backlog_cons, IH. simpl. lia.
Qed.

Lemma backlog_zero ts :
  backlog ts = 0%nat → ts = replicate (length ts) Returned.
Proof.
  induction ts as [|t ts IH]; [done|].
  rewrite backlog_cons. intros H. simpl.
  destruct t; simpl in H; try lia. f_equal. apply IH. lia.
Qed.

End Counting.

(** Every step takes work off the backlog, so a schedule that runs is no
    longer than the backlog it started with. *)
Lemma sched_backlog i s s' :
  sched i s = Some s' →
  (backlog (sys_threads s') < backlog (sys_threads s))%nat.
Proof.
  unfold sched. intros Hs.
  destruct (sys_threads s !! i) as [[| cv k | k |]|] eqn:Ht; simpl in Hs;
    try done.
  - destruct (enter_arrive (sys_barrier s)) as [a|]; simpl in Hs; [|done].
    destruct (arr_call a) as [cv | lk cv].
    + destruct (enter_leave (arr_ptr a) (arr_barrier a)) as [b'|];
        simpl in Hs; [|done].
      injection Hs as <-. simpl.
      pose proof (backlog_insert i Returned (wake cv Outside)
                    (wake cv <$> sys_threads s)) as H.
      rewrite list_lookup_fmap, Ht in H. specialize (H eq_refl).
      rewrite backlog_wake in H. simpl in H. lia.
    + injection Hs as <-. simpl.
      pose proof (backlog_insert i (Parked cv (arr_ptr a)) _ _ Ht) as H.
      simpl in H. lia.
  - destruct (enter_leave k (sys_barrier s)) as [b'|]; simpl in Hs; [|done].
    injection Hs as <-. simpl.
    pose proof (backlog_insert i Returned _ _ Ht) as H. simpl in H. lia.
Qed.

Lemma run_backlog sch s s' :
  run sch s = Some s' →
  (length sch + backlog (sys_threads s') ≤ backlog (sys_threads s))%nat.
Proof.
  revert s. induction sch as [|i sch IH]; intros s Hr; simpl in Hr.
  - injection Hr as <-. simpl. lia.
  - destruct (sched i s) as [s1|] eqn:Hs; simpl in Hr; [|done].
    apply sched_backlog in Hs. apply IH in Hr. simpl. lia.
Qed.

Lemma enter_leave_lookup (b : MXUserBarrier) k c :
  contexts b !! k = Some c →
  ∃ b', enter_leave k b = Some b' ∧ contexts b' !! k = Some (decr_count c).
Proof.
  intros Hc. eexists. split; [by apply enter_leave_eq|].
  assert (Hk : (k < length (contexts b))%nat) by (by eapply lookup_lt_Some).
  case_bool_decide; simpl; by apply list_lookup_insert_eq.
Qed.

Lemma occ_replicate_ne x y n : x ≠ y → occ x (replicate n y) = 0%nat.
Proof.
  intros Hxy. induction n as [|n IH]; [done|].
  simpl replicate. rewrite occ_cons, IH. by rewrite decide_False.
Qed.

Lemma round_inv_start n b :
  (1 ≤ n)%nat → configCount b = Z.of_nat n → quiescent b →
  round_inv n (start b n).
Proof.
  intros Hn Hcfg (He & Hcur & cv0 & cv1 & Hctx).
  split; [apply length_replicate|]. left. unfold filling, start. simpl.
  split; [done|]. split; [done|].
  assert (∃ c, contexts b !! Z.to_nat (curContext b) = Some c ∧ count c = 0)
    as (c & Hc & Hz).
  { rewrite Hctx. destruct Hcur as [-> | ->]; eexists; split; done. }
  exists c. split; [done|]. rewrite occ_replicate_ne by done.
  split; [|split; [by rewrite Hz | lia]].
  apply Forall_replicate. by left.
Qed.

Lemma round_inv_sched n i s s' :
  Z.of_nat n < 2 ^ 32 → round_inv n s → sched i s = Some s' →
  round_inv n s'.
Proof.
  intros Hn [Hlen Hphase] Hs. destruct s as [b ts]. simpl in *.
  unfold sched in Hs. simpl in Hs.
  destruct (ts !! i) as [t|] eqn:Ht; simpl in Hs; [|done].
  destruct Hphase as [(He & Hcfg & c & Hc & Hall & Hcnt & Hlt)
                     | (k & c & Hc & Hall & Hret & Hcnt)]; simpl in *.
  - (* the round is filling: thread [i] arrives *)
    set (cur := Z.to_nat (curContext b)) in *.
    assert (Hti : t = Outside ∨ t = Parked (condVar c) cur).
    { rewrite Forall_lookup in Hall. by eapply Hall. }
    destruct Hti as [-> | ->]; [|done].
    rewrite (enter_arrive_normal b c He Hc) in Hs. simpl in Hs.
    assert (Hu : u32 (count c + 1) = count c + 1) by (apply u32_small; lia).
    rewrite Hu in Hs. fold cur in Hs.
    assert (Hpk : occ (Parked (condVar c) cur) (<[i := Returned]> ts)
                  = occ (Parked (condVar c) cur) ts).
    { pose proof (occ_insert (Parked (condVar c) cur) i Returned _ _ Ht) as H.
      rewrite !decide_False in H by done. lia. }
    case_bool_decide as Hlast; simpl in Hs.
    + (* the last arrival: broadcast and leave *)
      destruct (enter_leave_lookup
                  (set_emptying true (set_context cur (incr_count c) b))
                  cur (incr_count c)) as (b' & Hl & Hk).
      { simpl. apply list_lookup_insert_eq. by eapply lookup_lt_Some. }
      rewrite Hl in Hs. simpl in Hs. injection Hs as <-.
      split; simpl; [by rewrite length_insert, length_fmap|].
      right. exists cur, (decr_count (incr_count c)). simpl.
      split; [exact Hk|].
      assert (Heq : <[i := Returned]> (wake (condVar c) <$> ts)
                    = wake (condVar c) <$> <[i := Returned]> ts)
        by (by rewrite list_fmap_insert).
      rewrite Heq. clear Heq.
      assert (Hout : Outside ∉ <[i := Returned]> ts).
      { apply occ_zero.
        pose proof (occ_insert Outside i Returned _ _ Ht) as H1.
        rewrite decide_True in H1 by done.
        rewrite decide_False in H1 by done.
        pose proof (occ_split Outside (Parked (condVar c) cur) ts) as H2.
        specialize (H2 ltac:(done) Hall). lia. }
      assert (Hall' : Forall (λ t, t = Parked (condVar c) cur ∨ t = Returned)
                        (<[i := Returned]> ts)).
      { apply Forall_forall. intros t Hin.
        assert (Hw : Forall (λ t, t = Outside ∨ t = Parked (condVar c) cur
                                  ∨ t = Returned) (<[i := Returned]> ts)).
        { apply Forall_insert; [|by auto].
          eapply Forall_impl; [exact Hall|]. simpl. intros ? [?|?]; auto. }
        rewrite Forall_forall in Hw. destruct (Hw t Hin) as [-> | H]; done. }
      destruct (occ_wake _ _ _ Hall') as [Ho Hf].
      split; [exact Hf|]. split.
      * apply list_elem_of_lookup. exists i. rewrite list_lookup_fmap.
        rewrite list_lookup_insert_eq by (by eapply lookup_lt_Some). done.
      * rewrite Ho, Hpk. simpl. rewrite Hu.
        replace (count c + 1 - 1) with (count c) by lia.
        rewrite u32_small by lia. done.
    + (* not the last: park *)
      injection Hs as <-.
      split; simpl; [by rewrite length_insert|].
      left. unfold filling. simpl. fold cur.
      split; [done|]. split; [done|].
      exists (incr_count c). simpl.
      split; [apply list_lookup_insert_eq; by eapply lookup_lt_Some|].
      pose proof (occ_insert (Parked (condVar c) cur) i
                    (Parked (condVar c) cur) _ _ Ht) as H.
      rewrite decide_False in H by done. rewrite decide_True in H by done.
      split; [|split].
      * apply Forall_insert; [done | by right].
      * rewrite Hu. lia.
      * lia.
  - (* the round is draining: thread [i] leaves *)
    assert (Hti : t = Woken k ∨ t = Returned).
    { rewrite Forall_lookup in Hall. by eapply Hall. }
    destruct Hti as [-> | ->]; [|done].
    destruct (enter_leave_lookup b k c Hc) as (b' & Hl & Hk).
    rewrite Hl in Hs. simpl in Hs. injection Hs as <-.
    split; simpl; [by rewrite length_insert|].
    right. exists k, (decr_count c). split; [exact Hk|].
    pose proof (occ_insert (Woken k) i Returned _ _ Ht) as H.
    rewrite decide_True in H by done. rewrite decide_False in H by done.
    split; [|split].
    + apply Forall_insert; [done | by right].
    + apply list_elem_of_lookup. exists i. simpl.
      by rewrite list_lookup_insert_eq by (by eapply lookup_lt_Some).
    + pose proof (length_filter (λ t, t = Woken k) ts) as Hle.
      fold (occ (Woken k) ts) in Hle.
      simpl. rewrite u32_small by lia. lia.
Qed.

Lemma round_inv_run n sch s s' :
  Z.of_nat n < 2 ^ 32 → round_inv n s → run sch s = Some s' →
  round_inv n s'.
Proof.
  intros Hn. revert s. induction sch as [|i sch IH]; intros s Hi Hr;
    simpl in Hr.
  - by injection Hr as <-.
  - destruct (sched i s) as [s1|] eqn:Hs; simpl in Hr; [|done].
    eapply IH; [|exact Hr]. by eapply round_inv_sched.
Qed.

Lemma occ_pos x ts : (0 < occ x ts)%nat → ∃ i, ts !! i = Some x.
Proof.
  induction ts as [|t ts IH]; [rewrite occ_nil; lia|].
  rewrite occ_cons. destruct (decide (t = x)) as [-> | _].
  - intros _. by exists 0%nat.
  - intros H. destruct IH as [i Hi]; [lia|]. by exists (S i).
Qed.

Lemma woken_or_all_returned k ts :
  Forall (λ t, t = Woken k ∨ t = Returned) ts →
  ts = replicate (length ts) Returned ∨ ∃ i, ts !! i = Some (Woken k).
Proof.
  induction 1 as [|t ts Ht _ IH]; [by left|].
  destruct Ht as [-> | ->]; [right; by exists 0%nat|].
  destruct IH as [IH | [i Hi]].
  - left. simpl. by f_equal.
  - right. by exists (S i).
Qed.

(** While a thread has not returned, some thread can run. *)
Lemma round_progress n s :
  round_inv n s →
  sys_threads s ≠ replicate n Returned →
  ∃ i s', sched i s = Some s'.
Proof.
  intros [Hlen Hphase] Hne. destruct s as [b ts]. simpl in *.
  destruct Hphase as [(He & Hcfg & c & Hc & Hall & Hcnt & Hlt)
                     | (k & c & Hc & Hall & Hret & Hcnt)]; simpl in *.
  - assert (Hsum : (occ Outside ts
                    + occ (Parked (condVar c) (Z.to_nat (curContext b))) ts
                    = length ts)%nat) by (by apply occ_split).
    destruct (occ_pos Outside ts) as [i Hi]; [lia|].
    exists i. unfold sched. simpl. rewrite Hi. simpl.
    rewrite (enter_arrive_normal b c He Hc). simpl.
    case_bool_decide; [|by eexists].
    destruct (enter_leave_lookup
                (set_emptying true
                   (set_context (Z.to_nat (curContext b)) (incr_count c) b))
                (Z.to_nat (curContext b)) (incr_count c)) as (b' & Hl & _).
    { simpl. apply list_lookup_insert_eq. by eapply lookup_lt_Some. }
    rewrite Hl. by eexists.
  - destruct (woken_or_all_returned k ts Hall) as [Hr | [i Hi]].
    { rewrite Hlen in Hr. done. }
    exists i. unfold sched. simpl. rewrite Hi. simpl.
    destruct (enter_leave_lookup b k c Hc) as (b' & Hl & _).
    rewrite Hl. by eexists.
Qed.

(** From any state of the round the threads can be scheduled to the end. *)
Lemma round_completes n m s :
  Z.of_nat n < 2 ^ 32 → round_inv n s →
  (backlog (sys_threads s) ≤ m)%nat →
  ∃ sch s', run sch s = Some s' ∧ sys_threads s' = replicate n Returned.
Proof.
  intros Hn. revert s. induction m as [|m IH]; intros s Hi Hm.
  - exists [], s. split; [done|].
    destruct Hi as [Hlen _]. rewrite <- Hlen. apply backlog_zero. lia.
  - destruct (decide (sys_threads s = replicate n Returned)) as [Hr | Hr].
    { by exists [], s. }
    destruct (round_progress n s Hi Hr) as (i & s1 & Hs).
    pose proof (sched_backlog _ _ _ Hs) as Hlt.
    destruct (IH s1) as (sch & s' & Hrun & Hfin).
    { by eapply round_inv_sched. }
    { lia. }
    exists (i :: sch), s'. simpl. rewrite Hs. simpl. by split.
Qed.

(** C4.  [n >= 1] threads call [MXUser_EnterBarrier] on a barrier for [n]
    parties that nobody is inside of, each once, scheduled in any way.
    In every state they can reach:
    - if some thread has returned then no thread is still outside, that
      is, nobody returns before the [n]-th thread has called;
    - a parked thread has no step of its own: it stays parked until a
      broadcast wakes it (no timeout, no interruption, no early exit);
    - unless every thread has returned some thread can run, every step
      takes work off a backlog of at most [2 * n], so a schedule cannot
      go on for more than [2 * n] steps, and the threads can be scheduled
      on from here until every one of them has returned. *)
Theorem barrier_round (n : nat) (b : MXUserBarrier) (sch : list nat)
    (s : System) :
  (1 ≤ n)%nat →
  Z.of_nat n < 2 ^ 32 →
  configCount b = Z.of_nat n →
  quiescent b →
  run sch (start b n) = Some s →
  (Returned ∈ sys_threads s → Outside ∉ sys_threads s) ∧
  (∀ i cv k, sys_threads s !! i = Some (Parked cv k) → sched i s = None) ∧
  (sys_threads s ≠ replicate n Returned → ∃ i s', sched i s = Some s') ∧
  (length sch + backlog (sys_threads s) ≤ 2 * n)%nat ∧
  (∀ i s', sched i s = Some s' →
           (backlog (sys_threads s') < backlog (sys_threads s))%nat) ∧
  (∃ sch' s', run sch' s = Some s' ∧ sys_threads s' = replicate n Returned).
Proof.
  intros Hn Hmax Hcfg Hq Hrun.
  assert (Hinv : round_inv n s).
  { eapply round_inv_run; [done | | exact Hrun]. by apply round_inv_start. }
  split; [|split; [|split; [|split; [|split]]]].
  - intros Hret Hout.
    destruct Hinv as [_ [(_ & _ & c & _ & Hall & _) | (k & c & _ & Hall & _)]].
    + rewrite Forall_forall in Hall. by destruct (Hall _ Hret).
    + rewrite Forall_forall in Hall. by destruct (Hall _ Hout).
  - intros i cv k Hi. unfold sched. by rewrite Hi.
  - by apply round_progress.
  - pose proof (run_backlog _ _ _ Hrun) as H. simpl in H.
    by rewrite backlog_start in H.
  - intros i s' Hs. by apply (sched_backlog i).
  - by apply (round_completes n (backlog (sys_threads s))).
Qed.

Lemma barrier_round_witness :
  (1 ≤ 3)%nat ∧ Z.of_nat 3 < 2 ^ 32 ∧ configCount barrier3 = Z.of_nat 3 ∧
  quiescent barrier3 ∧
  run [2; 0; 1]%nat (start barrier3 3)
    = Some {| sys_barrier :=
                set_emptying true
                  (set_context 0 {| count := 2; condVar := Some 4%positive |}
                     barrier3);
              sys_threads := [Woken 0; Returned; Woken 0] |} ∧
  (Returned ∈ [Woken 0; Returned; Woken 0] →
   Outside ∉ [Woken 0; Returned; Woken 0]).
Proof.
  assert (Hq : quiescent barrier3).
  { split; [reflexivity|]. split; [left; reflexivity|].
    exists (Some 4%positive), (Some 5%positive). reflexivity. }
  assert (Hrun : run [2; 0; 1]%nat (start barrier3 3)
    = Some {| sys_barrier :=
                set_emptying true
                  (set_context 0 {| count := 2; condVar := Some 4%positive |}
                     barrier3);
              sys_threads := [Woken 0; Returned; Woken 0] |})
    by (vm_compute; reflexivity).
  split; [lia|]. split; [vm_compute; reflexivity|]. split; [reflexivity|].
  split; [exact Hq|]. split; [vm_compute; reflexivity|].
  exact (proj1 (barrier_round 3 barrier3 [2; 0; 1]%nat _
                  ltac:(lia) ltac:(vm_compute; reflexivity) eq_refl Hq Hrun)).
Defined.

(** ** Running the heap-level functions *)

Section Monad.
Context {A B : Type}.

Lemma bind_done (m : M A) (k : A → M B) w a w' :
  m w = Done a w' → (m ≫= k) w = k a w'.
Proof. intros H. unfold mbind, M_bind. by rewrite H. Qed.

Lemma bind_panic (m : M A) (k : A → M B) w msg w' :
  m w = Panic msg w' → (m ≫= k) w = Panic msg w'.
Proof. intros H. unfold mbind, M_bind. by rewrite H. Qed.

End Monad.

Lemma set_live_id w : set_live (live w) w = w.
Proof. by destruct w. Qed.

Lemma free_eq p w :
  blocks p ⊆ live w → free p w = Done () (set_live (live w ∖ blocks p) w).
Proof.
  destruct p as [l|]; simpl; intros Hl.
  - rewrite bool_decide_eq_true_2; [done|]. set_unfold. by apply Hl.
  - by rewrite difference_empty_L, set_live_id.
Qed.

Lemma free_dangling l w : l ∉ live w → free (Some l) w = Undefined.
Proof. intros Hl. simpl. by rewrite bool_decide_eq_false_2. Qed.

Lemma load_done l b w :
  mem w !! l = Some (ObjBarrier b) → l ∈ live w → load l w = Done b w.
Proof.
  intros Hm Hl. unfold load. rewrite Hm. by rewrite bool_decide_eq_true_2.
Qed.

Lemma poke_done l f b w :
  mem w !! l = Some (ObjBarrier b) → l ∈ live w →
  poke l f w = Done () (set_mem (<[l := ObjBarrier (f b)]> (mem w)) w).
Proof.
  intros Hm Hl. unfold poke. by rewrite (bind_done _ _ _ _ _ (load_done _ _ _ Hm Hl)).
Qed.

Lemma ASSERT_true w : ASSERT true w = Done () w.
Proof. reflexivity. Qed.


Lemma not_in_blocks l p : Some l ≠ p → l ∉ blocks p.
Proof. destruct p as [l'|]; simpl; [|set_solver]. intros H. set_solver. Qed.

Lemma not_owned l (b : MXUserBarrier) c0 c1 :
  contexts b = [c0; c1] → Some l ∉ owned b →
  (l ∉ blocks (name (header b))) ∧ (l ∉ blocks (lock b)) ∧
  (l ∉ blocks (condVar c0)) ∧ (l ∉ blocks (condVar c1)).
Proof.
  unfold owned. intros -> H. simpl in H.
  rewrite !not_elem_of_cons in H. destruct H as (? & ? & ? & ? & _).
  repeat split; by apply not_in_blocks.
Qed.

(** ** Destruction *)

(** The blocks a barrier owns, when they are live and apart from each
    other, can be released one after the other. *)
Lemma owned_apart (lv : gset loc) (b : MXUserBarrier) c0 c1 :
  contexts b = [c0; c1] →
  NoDup (owned_blocks b) →
  (∀ x, x ∈ owned_blocks b → x ∈ lv) →
  blocks (condVar c0) ⊆ lv ∧
  blocks (condVar c1) ⊆ lv ∖ blocks (condVar c0) ∧
  blocks (lock b) ⊆ lv ∖ blocks (condVar c0) ∖ blocks (condVar c1) ∧
  blocks (name (header b))
    ⊆ lv ∖ blocks (condVar c0) ∖ blocks (condVar c1) ∖ blocks (lock b).
Proof.
  unfold owned_blocks, owned. intros -> Hnd Hlv. simpl in Hnd, Hlv.
  destruct (name (header b)) as [nm|], (lock b) as [lk|],
    (condVar c0) as [cv0|], (condVar c1) as [cv1|];
    simpl in *;
    rewrite ?NoDup_cons, ?not_elem_of_cons in Hnd;
    repeat split; intros y;
    rewrite ?elem_of_difference, ?elem_of_singleton, ?elem_of_empty;
    try done; intros ->;
    intuition (subst; try done; try congruence);
    apply Hlv; rewrite !elem_of_cons; auto 10.
Qed.

(** The two ways [MXUser_DestroyBarrier] goes on a live barrier.  The
    second needs the name, the lock and the condition variables to be live
    blocks apart from each other: releasing a block twice, or one that is
    not live, is undefined. *)
Lemma destroy_run (w : World) (l : loc) (b : MXUserBarrier)
    (c0 c1 : BarrierContext) :
  mem w !! l = Some (ObjBarrier b) →
  l ∈ live w →
  signature (header b) = MXUSER_BARRIER_SIGNATURE →
  contexts b = [c0; c1] →
  Some l ∉ owned b →
  (count c0 ≠ 0 ∨ count c1 ≠ 0 →
     MXUser_DestroyBarrier (Some l) w = Panic destroy_in_use w) ∧
  (count c0 = 0 ∧ count c1 = 0 →
   NoDup (owned_blocks b) →
   (∀ x, x ∈ owned_blocks b → x ∈ live w) →
     ∃ w',
       MXUser_DestroyBarrier (Some l) w = Done () w' ∧
       live w' = live w ∖ (blocks (condVar c0) ∪ blocks (condVar c1) ∪
                           blocks (lock b) ∪ blocks (name (header b)) ∪ {[l]}) ∧
       mem w' = <[l := ObjBarrier
                         (set_header
                            (set_name NULL (set_signature 0 (header b))) b)]>
                  (mem w) ∧
       alloc_ok w' = alloc_ok w ∧ rivals w' = rivals w ∧
       atomics w' = atomics w).
Proof.
  intros Hm Hl Hs Hc Hown.
  destruct (not_owned l b c0 c1 Hc Hown) as (Hnm & Hlk & Hcv0 & Hcv1).
  unfold MXUser_DestroyBarrier.
  rewrite (bind_done _ _ _ _ _ (load_done _ _ _ Hm Hl)).
  rewrite Hs, bool_decide_eq_true_2 by done.
  rewrite (bind_done _ _ _ _ _ (ASSERT_true _)).
  rewrite Hc. simpl lookup.
  do 2 (erewrite bind_done by reflexivity).
  split.
  - intros Hn.
    assert (bool_decide (count c0 ≠ 0) || bool_decide (count c1 ≠ 0) = true)
      as ->.
    { apply orb_true_iff. rewrite !bool_decide_eq_true. done. }
    by erewrite bind_panic by reflexivity.
  - intros [Hz0 Hz1] Hnd Hlv.
    destruct (owned_apart (live w) b c0 c1 Hc Hnd Hlv)
      as (Ha0 & Ha1 & Ha2 & Ha3).
    rewrite (bool_decide_eq_false_2 (count c0 ≠ 0)) by (intros H; done).
    rewrite (bool_decide_eq_false_2 (count c1 ≠ 0)) by (intros H; done).
    simpl orb. erewrite bind_done by reflexivity.
    unfold MXUser_DestroyCondVar, MXUser_DestroyExclLock.
    rewrite (bind_done _ _ _ _ _ (free_eq _ _ Ha0)).
    erewrite bind_done; [| apply free_eq; exact Ha1].
    erewrite bind_done; [| apply free_eq; exact Ha2].
    erewrite bind_done; cycle 1.
    { apply poke_done; simpl; [exact Hm | set_solver]. }
    erewrite bind_done; cycle 1.
    { apply load_done; simpl; [apply lookup_insert_eq | set_solver]. }
    erewrite bind_done; [| apply free_eq; exact Ha3].
    erewrite bind_done; cycle 1.
    { apply poke_done; simpl; [apply lookup_insert_eq | set_solver]. }
    rewrite free_eq by (simpl; set_solver).
    eexists. split; [reflexivity|]. simpl.
    split; [|by rewrite insert_insert_eq].
    by rewrite !difference_difference_l_L, !(assoc_L (∪)).
Qed.

(** C6.  [MXUser_DestroyBarrier] on a live barrier: if the count of either
    context is not 0 the call ends in [MXUserDumpAndPanic], with nothing
    freed and nothing written; if both are 0 (and the name, the lock and
    the condition variables are live blocks apart from each other, as
    releasing them requires) it returns, having destroyed both condition
    variables and the lock and freed the name and the barrier itself: none
    of them is live afterwards.  The block the handle points to is left
    with signature 0 and a null name, and is otherwise as it was. *)
Theorem destroy_barrier (w : World) (l : loc) (b : MXUserBarrier)
    (c0 c1 : BarrierContext) :
  mem w !! l = Some (ObjBarrier b) →
  l ∈ live w →
  signature (header b) = MXUSER_BARRIER_SIGNATURE →
  contexts b = [c0; c1] →
  Some l ∉ owned b →
  (count c0 ≠ 0 ∨ count c1 ≠ 0 →
     MXUser_DestroyBarrier (Some l) w = Panic destroy_in_use w) ∧
  (count c0 = 0 ∧ count c1 = 0 →
   NoDup (owned_blocks b) →
   (∀ x, x ∈ owned_blocks b → x ∈ live w) →
     ∃ w' b',
       MXUser_DestroyBarrier (Some l) w = Done () w' ∧
       live w' = live w ∖ (blocks (condVar c0) ∪ blocks (condVar c1) ∪
                           blocks (lock b) ∪ blocks (name (header b)) ∪ {[l]}) ∧
       (∀ x, Some x ∈ owned b → x ∉ live w') ∧
       (l ∉ live w') ∧
       mem w' = <[l := ObjBarrier b']> (mem w) ∧
       signature (header b') = 0 ∧
       name (header b') = NULL ∧
       rank (header b') = rank (header b) ∧
       dumpFunc (header b') = dumpFunc (header b) ∧
       lock b' = lock b ∧ emptying b' = emptying b ∧
       configCount b' = configCount b ∧ curContext b' = curContext b ∧
       contexts b' = contexts b).
Proof.
  intros Hm Hl Hs Hc Hown.
  destruct (destroy_run w l b c0 c1 Hm Hl Hs Hc Hown) as [Hp Hd].
  split; [exact Hp|]. intros Hz Hnd Hlv.
  destruct (Hd Hz Hnd Hlv) as (w' & Hrun & Hlive & Hmem & _).
  exists w', (set_header (set_name NULL (set_signature 0 (header b))) b).
  split; [exact Hrun|]. split; [exact Hlive|]. split; [|split].
  - intros x Hx. rewrite Hlive. intros Hin.
    apply elem_of_difference in Hin as [_ Hin]. apply Hin. clear Hin.
    unfold owned in Hx. rewrite Hc in Hx. simpl in Hx.
    rewrite !elem_of_cons in Hx.
    destruct Hx as [<- | [<- | [<- | [<- | Hx]]]];
      [| | | | by apply elem_of_nil in Hx];
      rewrite !elem_of_union; simpl; rewrite elem_of_singleton; tauto.
  - rewrite Hlive. intros Hin.
    apply elem_of_difference in Hin as [_ Hin]. apply Hin.
    apply elem_of_union_r. by apply elem_of_singleton_2.
  - split; [exact Hmem|]. by repeat split.
Qed.

Lemma destroy_barrier_witness :
  mem world3 !! 1%positive = Some (ObjBarrier barrier3) ∧
  1%positive ∈ live world3 ∧
  signature (header barrier3) = MXUSER_BARRIER_SIGNATURE ∧
  contexts barrier3 = [ {| count := 0; condVar := Some 4%positive |};
                        {| count := 0; condVar := Some 5%positive |} ] ∧
  (Some 1%positive ∉ owned barrier3) ∧
  NoDup (owned_blocks barrier3) ∧
  (∀ x, x ∈ owned_blocks barrier3 → x ∈ live world3) ∧
  (∃ w' b',
     MXUser_DestroyBarrier (Some 1%positive) world3 = Done () w' ∧
     live w' = live world3 ∖ (blocks (Some 4%positive) ∪
                              blocks (Some 5%positive) ∪
                              blocks (Some 3%positive) ∪
                              blocks (Some 2%positive) ∪ {[1%positive]}) ∧
     mem w' !! 1%positive = Some (ObjBarrier b') ∧
     signature (header barrier3) = 0x52524142 ∧
     signature (header b') = 0 ∧ name (header b') = NULL) ∧
  MXUser_DestroyBarrier (Some 1%positive) world3_two_parked
  = Panic destroy_in_use world3_two_parked.
Proof.
  assert (H1 : mem world3 !! 1%positive = Some (ObjBarrier barrier3))
    by (vm_compute; reflexivity).
  assert (H2 : 1%positive ∈ live world3) by (vm_compute; reflexivity).
  assert (H3 : Some 1%positive ∉ owned barrier3).
  { apply (bool_decide_unpack _). vm_compute. exact I. }
  assert (H4 : NoDup (owned_blocks barrier3)).
  { apply (bool_decide_unpack _). vm_compute. exact I. }
  assert (H5 : ∀ x, x ∈ owned_blocks barrier3 → x ∈ live world3).
  { apply Forall_forall. apply (bool_decide_unpack _). vm_compute. exact I. }
  split; [exact H1|]. split; [exact H2|]. split; [reflexivity|].
  split; [reflexivity|]. split; [exact H3|]. split; [exact H4|].
  split; [exact H5|]. split.
  - destruct (proj2 (destroy_barrier world3 1%positive barrier3 _ _ H1 H2
                       eq_refl eq_refl H3) (conj eq_refl eq_refl) H4 H5)
      as (w' & b' & Hd & Hlive & _ & _ & Hmem & Hsig & Hnm & _).
    exists w', b'. split; [exact Hd|]. split; [exact Hlive|].
    split; [|by repeat split]. rewrite Hmem. apply lookup_insert_eq.
  - apply (proj1 (destroy_barrier world3_two_parked 1%positive
                    barrier3_two_parked
                    {| count := 2; condVar := Some 4%positive |}
                    {| count := 0; condVar := Some 5%positive |}
                    ltac:(vm_compute; reflexivity)
                    ltac:(vm_compute; reflexivity) eq_refl eq_refl H3)).
    left. simpl. lia.
Defined.

(** C9.  [MXUser_DestroyBarrier(NULL)] returns at once: no abort, nothing
    freed, nothing written, whatever the state. *)
Theorem destroy_null (w : World) : MXUser_DestroyBarrier NULL w = Done () w.
Proof. reflexivity. Qed.

(** ** Construction *)

Lemma set_alloc_ok_id w : set_alloc_ok (alloc_ok w) w = w.
Proof. by destruct w. Qed.

Lemma next_alloc_ok_eq w :
  next_alloc_ok w
  = Done (nth 0 (alloc_ok w) true) (set_alloc_ok (tail (alloc_ok w)) w).
Proof.
  unfold next_alloc_ok. destruct (alloc_ok w) as [|ok rest] eqn:Ho; simpl.
  - by rewrite <- Ho, set_alloc_ok_id.
  - done.
Qed.

Lemma alloc_done o w :
  ∃ l, alloc o w
       = Done l (set_live ({[l]} ∪ live w) (set_mem (<[l := o]> (mem w)) w)) ∧
       (l ∉ dom (mem w)) ∧ (l ∉ live w).
Proof.
  exists (fresh (dom (mem w) ∪ live w)). split; [done|].
  pose proof (is_fresh (dom (mem w) ∪ live w)) as H.
  split; intros ?; apply H; apply elem_of_union; auto.
Qed.

(** The two fallible allocators: the next answer of the oracle decides. *)
Lemma fallible_alloc_run (o : Object) w :
  let w0 := set_alloc_ok (tail (alloc_ok w)) w in
  ∃ l, (l ∉ dom (mem w)) ∧ (l ∉ live w) ∧
       (ok ← next_alloc_ok;
        if ok : bool then l ← alloc o; mret (Some l) else mret NULL) w
       = if nth 0 (alloc_ok w) true
         then Done (Some l)
                (set_live ({[l]} ∪ live w) (set_mem (<[l := o]> (mem w)) w0))
         else Done NULL w0.
Proof.
  intros w0. destruct (alloc_done o w0) as (l & Hl & H1 & H2).
  exists l. split; [done|]. split; [done|].
  rewrite (bind_done _ _ _ _ _ (next_alloc_ok_eq _)). fold w0.
  destruct (nth 0 (alloc_ok w) true); [|done].
  by rewrite (bind_done _ _ _ _ _ Hl).
Qed.

Ltac fresh_facts H :=
  simpl in H;
  rewrite ?dom_insert_L, ?not_elem_of_union, ?not_elem_of_singleton in H;
  destruct_and? H.

Ltac in_live :=
  simpl;
  repeat first [ apply elem_of_union_l; apply elem_of_singleton_2; reflexivity
               | apply elem_of_union_r ].

Ltac step_load :=
  erewrite bind_done;
  [| apply load_done; [simpl; by simplify_map_eq | in_live] ].

Ltac step_poke :=
  erewrite bind_done;
  [| apply poke_done; [simpl; by simplify_map_eq | in_live] ].

Ltac in_blocks :=
  simpl; set_unfold; intuition (subst; try done; try congruence).

Ltac step_free := erewrite bind_done; [| apply free_eq; in_blocks ].

Ltac frame_tac :=
  let x := fresh "x" in
  let Hx := fresh "Hx" in
  let Hd := fresh "Hd" in
  intros x ? Hx; pose proof (elem_of_dom_2 _ _ _ Hx) as Hd;
  rewrite ?lookup_insert_ne by (intros ->; contradiction); exact Hx.

Ltac live_eq :=
  apply set_eq; intros ?; set_unfold;
  intuition (subst; try done; try congruence).

Lemma nth_tail {A} (n : nat) (o : list A) (d : A) :
  nth n (tail o) d = nth (S n) o d.
Proof. destruct o; destruct n; done. Qed.

(** What [MXUser_CreateBarrier] does for a non-zero count, by the answers
    of the oracle. *)
Lemma create_run userName rk cnt anonName w :
  cnt ≠ 0 →
  ∃ res w',
    MXUser_CreateBarrier userName rk cnt anonName w = Done res w' ∧
    rivals w' = rivals w ∧ atomics w' = atomics w ∧
    (∀ x o, mem w !! x = Some o → mem w' !! x = Some o) ∧
    if create_fails (alloc_ok w)
    then res = NULL ∧ live w' = live w
    else ∃ l nm lk cv0 cv1,
           res = Some l ∧
           NoDup [l; nm; lk; cv0; cv1] ∧
           (∀ x, x ∈ [l; nm; lk; cv0; cv1] →
                 (x ∉ dom (mem w)) ∧ (x ∉ live w)) ∧
           live w' = {[cv1]} ∪ ({[cv0]} ∪ ({[lk]} ∪ ({[nm]} ∪ ({[l]} ∪ live w)))) ∧
           mem w' !! l
             = Some (ObjBarrier (fresh_barrier (Some nm) (Some lk) (Some cv0)
                                   (Some cv1) rk cnt)) ∧
           mem w' !! nm = Some (ObjString (default anonName userName)) ∧
           mem w' !! lk = Some (ObjExclLock (Some nm) rk) ∧
           mem w' !! cv0 = Some (ObjCondVar (Some lk)) ∧
           mem w' !! cv1 = Some (ObjCondVar (Some lk)).
Proof.
  intros Hcnt. unfold MXUser_CreateBarrier.
  rewrite bool_decide_eq_true_2 by done.
  rewrite (bind_done _ _ _ _ _ (ASSERT_true _)).
  unfold Util_SafeCalloc_barrier.
  destruct (alloc_done (ObjBarrier zero_barrier) w) as (l & Hl & Hl1 & Hl2).
  rewrite (bind_done _ _ _ _ _ Hl). clear Hl.
  set (w1 := set_live _ _).
  assert (∃ nm,
            match userName with
            | Some s => Util_SafeStrdup s
            | None => Str_SafeAsprintf anonName
            end w1
            = Done nm (set_live ({[nm]} ∪ live w1)
                         (set_mem (<[nm := ObjString (default anonName userName)]>
                                     (mem w1)) w1)) ∧
            (nm ∉ dom (mem w1)) ∧ (nm ∉ live w1)) as (nm & Hnm & Hnm1 & Hnm2).
  { destruct userName as [s|]; simpl; apply alloc_done. }
  rewrite (bind_done _ _ _ _ _ Hnm). clear Hnm.
  set (w2 := set_live _ _).
  unfold MXUser_CreateExclLock.
  destruct (fallible_alloc_run (ObjExclLock (Some nm) rk) w2)
    as (lk & Hlk1 & Hlk2 & Hlk).
  subst w1 w2. destruct w as [m lv ao rv atm]. simpl in *.
  fresh_facts Hnm1. fresh_facts Hnm2.
  fresh_facts Hlk1. fresh_facts Hlk2.
  unfold create_fails. rewrite <- !nth_tail.
  destruct (nth 0 ao true) eqn:Ho1; rewrite (bind_done _ _ _ _ _ Hlk);
    clear Hlk.
  - (* the lock is there *)
    step_poke. step_load. simpl.
    unfold MXUser_CreateCondVarExclLock.
    match goal with |- context [(_ ≫= _) ?w0] =>
      destruct (fallible_alloc_run (ObjCondVar (Some lk)) w0)
        as (cv0 & Hc01 & Hc02 & Hcv0)
    end.
    simpl in *. fresh_facts Hc01. fresh_facts Hc02.
    destruct (nth 0 (tail ao) true) eqn:Ho2; rewrite (bind_done _ _ _ _ _ Hcv0);
      clear Hcv0.
    + step_poke. simpl.
      match goal with |- context [(_ ≫= _) ?w0] =>
        destruct (fallible_alloc_run (ObjCondVar (Some lk)) w0)
          as (cv1 & Hc11 & Hc12 & Hcv1)
      end.
      simpl in *. fresh_facts Hc11. fresh_facts Hc12.
      destruct (nth 0 (tail (tail ao)) true) eqn:Ho3;
        rewrite (bind_done _ _ _ _ _ Hcv1); clear Hcv1.
      * (* everything is there *)
        step_poke. step_load. simpl.
        do 2 (erewrite bind_done by reflexivity). simpl.
        do 7 step_poke. simpl.
        eexists _, _. split; [reflexivity|]. simpl.
        split; [done|]. split; [done|]. split; [frame_tac|].
        exists l, nm, lk, cv0, cv1. split; [done|]. split.
        { repeat (constructor;
                  [rewrite ?not_elem_of_cons; repeat split; auto;
                   apply not_elem_of_nil|]).
          constructor. }
        split.
        { intros x Hx. rewrite !elem_of_cons in Hx.
          destruct Hx as [-> | [-> | [-> | [-> | [-> | Hx]]]]]; try done.
          by apply elem_of_nil in Hx. }
        split; [done|]. repeat split; by simplify_map_eq.
      * (* the second condition variable is missing *)
        step_poke. step_load. simpl.
        do 2 (erewrite bind_done by reflexivity). simpl.
        unfold MXUser_DestroyCondVar, MXUser_DestroyExclLock.
        do 5 step_free. simpl.
        eexists _, _. split; [reflexivity|]. simpl.
        split; [done|]. split; [done|]. split; [frame_tac|].
        split; [done|]. live_eq.
    + (* the first condition variable is missing *)
      step_poke. simpl.
      match goal with |- context [(_ ≫= _) ?w0] =>
        destruct (fallible_alloc_run (ObjCondVar (Some lk)) w0)
          as (cv1 & Hc11 & Hc12 & Hcv1)
      end.
      simpl in *. fresh_facts Hc11. fresh_facts Hc12.
      destruct (nth 0 (tail (tail ao)) true) eqn:Ho3;
        rewrite (bind_done _ _ _ _ _ Hcv1); clear Hcv1.
      * step_poke. step_load. simpl.
        do 2 (erewrite bind_done by reflexivity). simpl.
        unfold MXUser_DestroyCondVar, MXUser_DestroyExclLock.
        do 5 step_free. simpl.
        eexists _, _. split; [reflexivity|]. simpl.
        split; [done|]. split; [done|]. split; [frame_tac|].
        split; [done|]. live_eq.
      * step_poke. step_load. simpl.
        do 2 (erewrite bind_done by reflexivity). simpl.
        unfold MXUser_DestroyCondVar, MXUser_DestroyExclLock.
        do 5 step_free. simpl.
        eexists _, _. split; [reflexivity|]. simpl.
        split; [done|]. split; [done|]. split; [frame_tac|].
        split; [done|]. live_eq.
  - (* the lock is missing *)
    step_poke. step_load. simpl.
    do 2 step_free. simpl.
    eexists _, _. split; [reflexivity|]. simpl.
    split; [done|]. split; [done|]. split; [frame_tac|].
    split; [done|]. live_eq.
Qed.

(** C7.  [MXUser_CreateBarrier] with a count of at least 1 returns, and
    - if the lock and both condition variables could be allocated, the
      result is a new live barrier with the barrier signature, the
      configured count, [emptying] false, [curContext] 0 and both context
      counts 0, whose name, lock and condition variables are new live
      blocks;
    - if one of them could not, the result is [NULL] and the set of live
      blocks is what it was before the call: the barrier, the name, the
      lock and any condition variable have been released.
    With a count of 0 the call ends in the [ASSERT], with nothing
    allocated. *)
Theorem create_barrier (w : World) (userName : option string) (rk cnt : Z)
    (anonName : string) :
  1 ≤ cnt →
  (∃ res w',
     MXUser_CreateBarrier userName rk cnt anonName w = Done res w' ∧
     if create_fails (alloc_ok w)
     then res = NULL ∧ live w' = live w
     else ∃ l b,
            res = Some l ∧ l ∈ live w' ∧ (l ∉ live w) ∧
            mem w' !! l = Some (ObjBarrier b) ∧
            signature (header b) = MXUSER_BARRIER_SIGNATURE ∧
            configCount b = cnt ∧ emptying b = false ∧ curContext b = 0 ∧
            count <$> contexts b = [0; 0] ∧
            quiescent b ∧
            (∀ p, p ∈ owned b → ∃ x, p = Some x ∧ x ∈ live w' ∧ x ∉ live w)) ∧
  MXUser_CreateBarrier userName rk 0 anonName w = Panic "ASSERT" w.
Proof.
  intros Hcnt. split; [|reflexivity].
  destruct (create_run userName rk cnt anonName w ltac:(lia))
    as (res & w' & Hrun & _ & _ & _ & Hres).
  exists res, w'. split; [exact Hrun|].
  destruct (create_fails (alloc_ok w)); [exact Hres|].
  destruct Hres as (l & nm & lk & cv0 & cv1 & -> & Hnd & Hfresh & Hlive
                    & Hl & _).
  exists l, (fresh_barrier (Some nm) (Some lk) (Some cv0) (Some cv1) rk cnt).
  assert (Hnew : ∀ x, x ∈ [l; nm; lk; cv0; cv1] → x ∈ live w' ∧ x ∉ live w).
  { intros x Hx. split; [|by apply Hfresh].
    rewrite Hlive. rewrite !elem_of_cons in Hx. set_unfold. tauto. }
  split; [done|]. split; [apply Hnew; by left|].
  split; [apply Hnew; by left|]. split; [exact Hl|].
  repeat (split; [done|]). split.
  - split; [done|]. split; [by left|]. by eexists _, _.
  - intros p Hp. unfold owned in Hp. simpl in Hp.
    rewrite !elem_of_cons in Hp.
    destruct Hp as [-> | [-> | [-> | [-> | Hp]]]];
      [| | | | by apply elem_of_nil in Hp];
      eexists; (split; [reflexivity|]); apply Hnew;
      rewrite !elem_of_cons; tauto.
Qed.

Lemma create_barrier_witness :
  1 ≤ 3 ∧
  MXUser_CreateBarrier (Some "gate") 0 0 "Barrier-0x400" world3
    = Panic "ASSERT" world3 ∧
  ∃ res w', MXUser_CreateBarrier (Some "gate") 0 3 "Barrier-0x400" world3
            = Done res w'.
Proof.
  split; [lia|].
  destruct (create_barrier world3 (Some "gate") 0 3 "Barrier-0x400"
              ltac:(lia)) as [(res & w' & Hrun & _) Hz].
  split; [exact Hz|]. exists res, w'. exact Hrun.
Defined.

(** ** The singleton *)

Lemma set_rivals_id w : set_rivals (rivals w) w = w.
Proof. by destruct w. Qed.

Lemma rival_step_eq cell v w :
  mem w !! cell = Some (ObjAtomicPtr v) →
  rival_step cell w
  = set_rivals (tail (rivals w))
      (set_mem (<[cell := ObjAtomicPtr (seen v (nth 0 (rivals w) NULL))]>
                  (mem w)) w).
Proof.
  intros Hm. unfold rival_step. destruct w as [m lv ao rv atm]. simpl in *.
  destruct rv as [|r rest]; simpl.
  - unfold set_rivals, set_mem. simpl. f_equal.
    symmetry. apply insert_id. by destruct v.
  - rewrite Hm. destruct v as [p|]; simpl; [|done].
    unfold set_rivals, set_mem. simpl. f_equal.
    symmetry. by apply insert_id.
Qed.

Lemma read_run cell v w :
  mem w !! cell = Some (ObjAtomicPtr v) →
  Atomic_ReadPtr cell w
  = Done (seen v (nth 0 (rivals w) NULL))
      (log_atomic (EvReadPtr cell (seen v (nth 0 (rivals w) NULL)))
         (set_rivals (tail (rivals w))
            (set_mem (<[cell := ObjAtomicPtr (seen v (nth 0 (rivals w) NULL))]>
                        (mem w)) w))).
Proof.
  intros Hm. unfold Atomic_ReadPtr. rewrite (rival_step_eq _ _ _ Hm).
  simpl. by rewrite lookup_insert_eq.
Qed.

Lemma cas_run cell v newv w :
  mem w !! cell = Some (ObjAtomicPtr v) →
  Atomic_ReadIfEqualWritePtr cell NULL newv w
  = Done (seen v (nth 0 (rivals w) NULL))
      (log_atomic (EvReadIfEqualWritePtr cell NULL newv
                     (seen v (nth 0 (rivals w) NULL)))
         (set_rivals (tail (rivals w))
            (set_mem (<[cell := ObjAtomicPtr
                                  (seen (seen v (nth 0 (rivals w) NULL)) newv)]>
                        (mem w)) w))).
Proof.
  intros Hm. unfold Atomic_ReadIfEqualWritePtr.
  rewrite (rival_step_eq _ _ _ Hm). simpl. rewrite lookup_insert_eq.
  destruct (seen v (nth 0 (rivals w) NULL)) as [p|] eqn:Hs; simpl.
  - done.
  - unfold log_atomic, set_atomics, set_mem, set_rivals. simpl.
    by rewrite insert_insert_eq.
Qed.

(** Every way [MXUser_CreateSingletonBarrier] goes on a cell, by what the
    cell holds, what the other threads do and what the allocators answer. *)
Lemma singleton_run cell v nm rk cnt anonName w :
  mem w !! cell = Some (ObjAtomicPtr v) →
  cnt ≠ 0 →
  ∃ res w',
    MXUser_CreateSingletonBarrier (Some cell) nm rk cnt anonName w
      = Done res w' ∧
    match seen v (nth 0 (rivals w) NULL) with
    | Some p =>
        res = Some p ∧ live w' = live w ∧ alloc_ok w' = alloc_ok w ∧
        mem w' = <[cell := ObjAtomicPtr (Some p)]> (mem w) ∧
        atomics w' = atomics w ++ [EvReadPtr cell (Some p)]
    | None =>
        ∃ cand,
          (if create_fails (alloc_ok w) then cand = NULL
           else ∃ l, cand = Some l ∧ (l ∉ dom (mem w)) ∧ (l ∉ live w)) ∧
          match nth 1 (rivals w) NULL with
          | Some q =>
              res = Some q ∧ live w' = live w ∧
              mem w' !! cell = Some (ObjAtomicPtr (Some q)) ∧
              atomics w' = atomics w ++
                [EvReadPtr cell NULL;
                 EvReadIfEqualWritePtr cell NULL cand (Some q)]
          | None =>
              res = seen cand (nth 2 (rivals w) NULL) ∧
              mem w' !! cell = Some (ObjAtomicPtr res) ∧
              atomics w' = atomics w ++
                [EvReadPtr cell NULL;
                 EvReadIfEqualWritePtr cell NULL cand NULL;
                 EvReadPtr cell res] ∧
              match cand with
              | Some l =>
                  l ∈ live w' ∧
                  ∃ nm lk cv0 cv1,
                    mem w' !! l
                    = Some (ObjBarrier
                              (fresh_barrier (Some nm) (Some lk) (Some cv0)
                                 (Some cv1) rk cnt))
              | None => live w' = live w
              end
          end
    end.
Proof.
  intros Hm Hcnt. unfold MXUser_CreateSingletonBarrier.
  rewrite bool_decide_eq_true_2 by done.
  rewrite (bind_done _ _ _ _ _ (ASSERT_true _)).
  erewrite bind_done by reflexivity.
  rewrite (bind_done _ _ _ _ _ (read_run _ _ _ Hm)).
  destruct (seen v (nth 0 (rivals w) NULL)) as [p|] eqn:Hs1.
  { (* the cell holds a barrier already *)
    rewrite bool_decide_eq_false_2 by done.
    eexists _, _. split; [reflexivity|]. by simpl. }
  rewrite bool_decide_eq_true_2 by done.
  match goal with |- context [(_ ≫= _) ?w0] => set (w1 := w0) end.
  destruct (create_run nm rk cnt anonName w1 Hcnt)
    as (cand & w2 & Hcr & Hrv & Hat & Hframe & Hres).
  rewrite (bind_done _ _ _ _ _ Hcr). clear Hcr.
  assert (Hcell1 : mem w1 !! cell = Some (ObjAtomicPtr NULL))
    by (subst w1; simpl; apply lookup_insert_eq).
  pose proof (Hframe _ _ Hcell1) as Hcell2.
  rewrite (bind_done _ _ _ _ _ (cas_run _ _ _ _ Hcell2)).
  assert (Hr1 : nth 0 (rivals w2) NULL = nth 1 (rivals w) NULL).
  { rewrite Hrv. subst w1. simpl. apply nth_tail. }
  assert (Hr2 : nth 0 (tail (rivals w2)) NULL = nth 2 (rivals w) NULL).
  { rewrite Hrv. subst w1. simpl. by rewrite !nth_tail. }
  rewrite Hr1.
  assert (Hao : alloc_ok w1 = alloc_ok w) by done.
  assert (Hlv : live w1 = live w) by done.
  assert (Hatm : atomics w1 = atomics w ++ [EvReadPtr cell NULL]) by done.
  assert (Hdom : ∀ x, x ∉ dom (mem w1) → x ∉ dom (mem w)).
  { intros x Hx Hin. apply Hx. subst w1. simpl. rewrite dom_insert_L.
    by apply elem_of_union_r. }
  rewrite Hao, Hlv in Hres. rewrite Hatm in Hat. clear Hao Hlv Hatm Hrv.
  clearbody w1.
  match goal with |- context [_ (log_atomic ?e ?w0)] =>
    set (w3 := log_atomic e w0) end.
  assert (Hcell3 : mem w3 !! cell
                   = Some (ObjAtomicPtr
                             (seen (seen NULL (nth 1 (rivals w) NULL)) cand)))
    by (subst w3; simpl; apply lookup_insert_eq).
  assert (Hlv3 : live w3 = live w2) by done.
  assert (Hrv3 : nth 0 (rivals w3) NULL = nth 2 (rivals w) NULL) by done.
  assert (Hat3 : atomics w3
                 = atomics w ++
                   [EvReadPtr cell NULL;
                    EvReadIfEqualWritePtr cell NULL cand
                      (seen NULL (nth 1 (rivals w) NULL))]).
  { subst w3. simpl. rewrite Hat. by rewrite <- app_assoc. }
  assert (Hmem3 : ∀ x, x ≠ cell → mem w3 !! x = mem w2 !! x).
  { intros x Hx. subst w3. simpl. by apply lookup_insert_ne. }
  clearbody w3. simpl seen in *.
  destruct (nth 1 (rivals w) NULL) as [q|] eqn:Hq.
  - (* another thread was first: the candidate goes *)
    rewrite bool_decide_eq_true_2 by done.
    destruct (create_fails (alloc_ok w)).
    + destruct Hres as [-> Hlv2].
      eexists _, _. split; [reflexivity|]. exists NULL. split; [done|].
      split; [done|]. split; [congruence|]. by split.
    + destruct Hres as (l & nm0 & lk & cv0 & cv1 & -> & Hnd & Hfresh & Hlv2
                        & Hl & _).
      assert (Hne : l ≠ cell).
      { intros ->. destruct (Hfresh cell) as [Hd _]; [by left|].
        apply Hd. by eapply elem_of_dom_2. }
      destruct (destroy_run w3 l
                  (fresh_barrier (Some nm0) (Some lk) (Some cv0) (Some cv1)
                     rk cnt)
                  {| count := 0; condVar := Some cv0 |}
                  {| count := 0; condVar := Some cv1 |}) as [_ Hd].
      { by rewrite Hmem3. }
      { rewrite Hlv3, Hlv2. set_unfold. tauto. }
      { done. }
      { done. }
      { unfold owned. simpl. apply NoDup_cons_1_1 in Hnd.
        rewrite !not_elem_of_cons in Hnd. rewrite !not_elem_of_cons.
        destruct Hnd as (? & ? & ? & ? & _).
        repeat split; try congruence. apply not_elem_of_nil. }
      assert (Hapart : NoDup (owned_blocks
                                (fresh_barrier (Some nm0) (Some lk) (Some cv0)
                                   (Some cv1) rk cnt)))
        by (by apply NoDup_cons_1_2 in Hnd).
      assert (Hthere : ∀ x, x ∈ owned_blocks
                                  (fresh_barrier (Some nm0) (Some lk)
                                     (Some cv0) (Some cv1) rk cnt) →
                            x ∈ live w3).
      { intros x Hx. rewrite Hlv3, Hlv2. unfold owned_blocks, owned in Hx.
        simpl in Hx. rewrite !elem_of_cons, elem_of_nil in Hx. in_blocks. }
      destruct (Hd (conj eq_refl eq_refl) Hapart Hthere)
        as (w' & Hrun & Hlive & Hmem & _ & _ & Hat').
      rewrite (bind_done _ _ _ _ _ Hrun).
      eexists _, _. split; [reflexivity|]. exists (Some l). split.
      { exists l. split; [done|]. destruct (Hfresh l) as [? ?]; [by left|].
        split; [by apply Hdom | done]. }
      split; [done|]. split; [|split].
      * rewrite Hlive, Hlv3, Hlv2. simpl.
        assert (Hf : ∀ x, x ∈ [l; nm0; lk; cv0; cv1] → x ∉ live w)
          by (intros x Hx; by apply Hfresh).
        pose proof (Hf l ltac:(set_unfold; tauto)).
        pose proof (Hf nm0 ltac:(set_unfold; tauto)).
        pose proof (Hf lk ltac:(set_unfold; tauto)).
        pose proof (Hf cv0 ltac:(set_unfold; tauto)).
        pose proof (Hf cv1 ltac:(set_unfold; tauto)).
        clear Hf Hfresh. live_eq.
      * rewrite Hmem. by rewrite lookup_insert_ne.
      * congruence.
  - (* this thread was first: read the cell again *)
    rewrite bool_decide_eq_false_2 by (intros H; by apply H).
    rewrite (read_run _ _ _ Hcell3). rewrite Hrv3.
    eexists _, _. split; [reflexivity|]. exists cand. simpl.
    split.
    { destruct (create_fails (alloc_ok w)); [by destruct Hres|].
      destruct Hres as (l & nm0 & lk & cv0 & cv1 & -> & _ & Hfresh & _).
      exists l. split; [done|]. destruct (Hfresh l) as [? ?]; [by left|].
      split; [by apply Hdom | done]. }
    split; [done|]. split; [apply lookup_insert_eq|]. split.
    { rewrite Hat3. by rewrite <- app_assoc. }
    destruct (create_fails (alloc_ok w)).
    + destruct Hres as [-> Hlv2]. congruence.
    + destruct Hres as (l & nm0 & lk & cv0 & cv1 & -> & _ & Hfresh & Hlv2
                        & Hl & _).
      assert (Hne : l ≠ cell).
      { intros ->. destruct (Hfresh cell) as [Hd _]; [by left|].
        apply Hd. by eapply elem_of_dom_2. }
      split.
      * rewrite Hlv3, Hlv2. set_unfold. tauto.
      * exists nm0, lk, cv0, cv1.
        rewrite lookup_insert_ne by done. by rewrite Hmem3.
Qed.

(** C8.  Let the cell hold [v] and let the call see [s] at its first read
    ([v], or what another thread installed in an empty cell just before).
    - If [s] is a barrier the call returns it and has constructed nothing:
      same live blocks, no allocator consulted, one read of the cell.
    - If [s] is null the call constructs a candidate and attempts the
      compare-and-swap from null to the candidate.
      - If the compare-and-swap loses, finding a barrier [q] that another
        thread installed, the candidate is destroyed (the live blocks are
        those from before the call) and the call returns [q]: the winning
        instance, as the compare-and-swap read it from the cell, which
        holds it.
      - If the compare-and-swap finds null it has written the candidate,
        and the call returns what it then reads from the cell: the
        candidate when there is one, live and configured.
    - A barrier the cell holds is never replaced, so at most one is ever
      installed. *)
Theorem singleton_barrier (cell : loc) (v : ptr) (nm : option string)
    (rk cnt : Z) (anonName : string) (w : World) :
  mem w !! cell = Some (ObjAtomicPtr v) →
  cnt ≠ 0 →
  ∃ res w',
    MXUser_CreateSingletonBarrier (Some cell) nm rk cnt anonName w
      = Done res w' ∧
    (∀ p, seen v (nth 0 (rivals w) NULL) = Some p →
       res = Some p ∧ live w' = live w ∧ alloc_ok w' = alloc_ok w ∧
       mem w' !! cell = Some (ObjAtomicPtr (Some p)) ∧
       atomics w' = atomics w ++ [EvReadPtr cell (Some p)]) ∧
    (seen v (nth 0 (rivals w) NULL) = NULL →
       ∃ cand,
         (if create_fails (alloc_ok w) then cand = NULL
          else ∃ l, cand = Some l ∧ (l ∉ dom (mem w)) ∧ (l ∉ live w)) ∧
         (∀ q, nth 1 (rivals w) NULL = Some q →
            res = Some q ∧ live w' = live w ∧
            mem w' !! cell = Some (ObjAtomicPtr (Some q)) ∧
            atomics w' = atomics w ++
              [EvReadPtr cell NULL;
               EvReadIfEqualWritePtr cell NULL cand (Some q)]) ∧
         (nth 1 (rivals w) NULL = NULL →
            res = seen cand (nth 2 (rivals w) NULL) ∧
            mem w' !! cell = Some (ObjAtomicPtr res) ∧
            atomics w' = atomics w ++
              [EvReadPtr cell NULL;
               EvReadIfEqualWritePtr cell NULL cand NULL;
               EvReadPtr cell res] ∧
            ∀ l, cand = Some l →
                 res = Some l ∧ l ∈ live w' ∧
                 ∃ nm lk cv0 cv1,
                   mem w' !! l
                   = Some (ObjBarrier
                             (fresh_barrier (Some nm) (Some lk) (Some cv0)
                                (Some cv1) rk cnt)))) ∧
    (∀ p, v = Some p → mem w' !! cell = Some (ObjAtomicPtr (Some p))).
Proof.
  intros Hm Hcnt.
  destruct (singleton_run cell v nm rk cnt anonName w Hm Hcnt)
    as (res & w' & Hrun & Hcases).
  exists res, w'. split; [exact Hrun|].
  destruct (seen v (nth 0 (rivals w) NULL)) as [p|] eqn:Hs.
  - destruct Hcases as (-> & Hlv & Hao & Hmem & Hat).
    split; [|split].
    + intros p' [= <-]. repeat split; try done.
      rewrite Hmem. apply lookup_insert_eq.
    + done.
    + intros p' ->. simpl in Hs. injection Hs as ->.
      rewrite Hmem. apply lookup_insert_eq.
  - destruct Hcases as (cand & Hcand & Hrace).
    split; [done|]. split.
    + intros _. exists cand. split; [exact Hcand|].
      destruct (nth 1 (rivals w) NULL) as [q|].
      * split; [|done]. by intros q' [= <-].
      * split; [done|]. intros _.
        destruct Hrace as (Hres & Hcell & Hat & Hc).
        repeat (split; [done|]).
        intros l ->. by destruct Hc as [? ?].
    + intros p ->. done.
Qed.

Lemma singleton_barrier_witness :
  mem racing_world !! 9%positive = Some (ObjAtomicPtr NULL) ∧
  3 ≠ 0 ∧
  ∃ res w',
    MXUser_CreateSingletonBarrier (Some 9%positive) (Some "gate") 0 3
      "Barrier-0x400" racing_world = Done res w' ∧
    res = Some 7%positive ∧ live w' = live racing_world.
Proof.
  assert (H1 : mem racing_world !! 9%positive = Some (ObjAtomicPtr NULL))
    by (vm_compute; reflexivity).
  assert (H2 : 3 ≠ 0) by lia.
  split; [exact H1|]. split; [exact H2|].
  destruct (singleton_barrier 9%positive NULL (Some "gate") 0 3
              "Barrier-0x400" racing_world H1 H2)
    as (res & w' & Hrun & _ & Hnull & _).
  destruct (Hnull eq_refl) as (cand & _ & Hlost & _).
  destruct (Hlost 7%positive eq_refl) as (Hres & Hlive & _).
  exists res, w'. split; [exact Hrun|]. split; [exact Hres | exact Hlive].
Defined.

(** C10.  The cell is empty, no other thread touches it, and one of the
    allocations of [MXUser_CreateBarrier] fails, so that the candidate is
    null.  The compare-and-swap is then from null to null, the cell still
    holds null after the call, the call returns null, and the live blocks
    are those from before the call. *)
Theorem singleton_create_fails (cell : loc) (nm : option string) (rk cnt : Z)
    (anonName : string) (w : World) :
  mem w !! cell = Some (ObjAtomicPtr NULL) →
  cnt ≠ 0 →
  create_fails (alloc_ok w) = true →
  (∀ i, (i < 3)%nat → nth i (rivals w) NULL = NULL) →
  ∃ w',
    MXUser_CreateSingletonBarrier (Some cell) nm rk cnt anonName w
      = Done NULL w' ∧
    mem w' !! cell = Some (ObjAtomicPtr NULL) ∧
    live w' = live w ∧
    atomics w' = atomics w ++
      [EvReadPtr cell NULL;
       EvReadIfEqualWritePtr cell NULL NULL NULL;
       EvReadPtr cell NULL].
Proof.
  intros Hm Hcnt Hfail Hquiet.
  destruct (singleton_run cell NULL nm rk cnt anonName w Hm Hcnt)
    as (res & w' & Hrun & Hcases).
  simpl in Hcases.
  rewrite (Hquiet 0%nat), (Hquiet 1%nat), Hfail in Hcases by lia.
  destruct Hcases as (cand & -> & Hres & Hcell & Hat & Hlive).
  simpl in Hres. rewrite (Hquiet 2%nat) in Hres by lia. subst res.
  exists w'. by repeat split.
Qed.

Lemma singleton_create_fails_witness :
  mem exhausted_world !! 9%positive = Some (ObjAtomicPtr NULL) ∧
  3 ≠ 0 ∧
  create_fails (alloc_ok exhausted_world) = true ∧
  (∀ i, (i < 3)%nat → nth i (rivals exhausted_world) NULL = NULL) ∧
  ∃ w',
    MXUser_CreateSingletonBarrier (Some 9%positive) None 0 3 "Barrier-0x400"
      exhausted_world = Done NULL w' ∧
    mem w' !! 9%positive = Some (ObjAtomicPtr NULL).
Proof.
  assert (H1 : mem exhausted_world !! 9%positive = Some (ObjAtomicPtr NULL))
    by (vm_compute; reflexivity).
  assert (H2 : 3 ≠ 0) by lia.
  assert (H3 : ∀ i, (i < 3)%nat → nth i (rivals exhausted_world) NULL = NULL)
    by (intros [|[|[|i]]] _; reflexivity).
  split; [exact H1|]. split; [exact H2|]. split; [reflexivity|].
  split; [exact H3|].
  destruct (singleton_create_fails 9%positive None 0 3 "Barrier-0x400"
              exhausted_world H1 H2 eq_refl H3) as (w' & Hrun & Hcell & _).
  exists w'. split; [exact Hrun | exact Hcell].
Defined.

(** ** Entering through a handle *)


Lemma enter_leave_handle l b k b' w :
  mem w !! l = Some (ObjBarrier b) → l ∈ live w →
  enter_leave k b = Some b' →
  MXUser_EnterBarrier_leave l k w
  = Done () (set_mem (<[l := ObjBarrier b']> (mem w)) w).
Proof.
  intros Hm Hl Hk. unfold MXUser_EnterBarrier_leave.
  rewrite (bind_done _ _ _ _ _ (load_done _ _ _ Hm Hl)).
  rewrite Hk. by erewrite bind_done by reflexivity.
Qed.

(** A null handle, or a handle on a block without the barrier signature
    (a destroyed barrier that has not been freed yet, say), stops at the
    [ASSERT]. *)
Lemma enter_null_handle w :
  MXUser_EnterBarrier_arrive NULL w = Panic "ASSERT" w.
Proof. reflexivity. Qed.


(** * Further properties of the file *)

(** ** Bounds and what a call leaves alone *)

Lemma well_formed_lookup (b : MXUserBarrier) (k : nat) :
  well_formed b → (k < 2)%nat → ∃ c, contexts b !! k = Some c.
Proof.
  intros [_ Hlen] Hk. apply lookup_lt_is_Some. lia.
Qed.

Lemma flip_lt_2 cur : (Z.to_nat (flip cur) < 2)%nat.
Proof. destruct (flip_range cur) as [-> | ->]; simpl; lia. Qed.

Lemma condVar_insert_count (l : list BarrierContext) k c n :
  l !! k = Some c →
  condVar <$> <[k := set_count n c]> l = condVar <$> l.
Proof.
  intros Hk. rewrite list_fmap_insert. simpl. apply list_insert_id.
  by rewrite list_lookup_fmap, Hk.
Qed.

(** What the two critical sections keep, and that they stay in bounds. *)
Lemma enter_bounds (b : MXUserBarrier) :
  well_formed b →
  (∃ a, enter_arrive b = Some a ∧
        (arr_ptr a < 2)%nat ∧
        well_formed (arr_barrier a) ∧
        header (arr_barrier a) = header b ∧
        lock (arr_barrier a) = lock b ∧
        configCount (arr_barrier a) = configCount b ∧
        condVar <$> contexts (arr_barrier a) = condVar <$> contexts b) ∧
  (∀ k, (k < 2)%nat →
     ∃ b', enter_leave k b = Some b' ∧
           well_formed b' ∧
           header b' = header b ∧ lock b' = lock b ∧
           configCount b' = configCount b ∧
           condVar <$> contexts b' = condVar <$> contexts b).
Proof.
  intros Hwf. pose proof Hwf as [Hcur Hlen]. split.
  - destruct (emptying b) eqn:He.
    + destruct (well_formed_lookup b (Z.to_nat (flip (curContext b))) Hwf
                  (flip_lt_2 _)) as [c Hc].
      eexists. split; [by apply enter_arrive_abnormal|]. simpl.
      split; [apply flip_lt_2|]. split.
      { split; [done|]. simpl. by rewrite length_insert. }
      repeat split; try done. by apply condVar_insert_count.
    + assert (Hk : (Z.to_nat (curContext b) < 2)%nat)
        by (destruct Hcur as [-> | ->]; simpl; lia).
      destruct (well_formed_lookup b _ Hwf Hk) as [c Hc].
      eexists. split; [by apply enter_arrive_normal|]. simpl.
      split; [done|]. split.
      { split; [done|]. simpl. by rewrite length_insert. }
      repeat split; try done. by apply condVar_insert_count.
  - intros k Hk. destruct (well_formed_lookup b k Hwf Hk) as [c Hc].
    eexists. split; [by apply enter_leave_eq|].
    case_bool_decide; simpl.
    + split.
      { split; [apply flip_range|]. simpl. by rewrite length_insert. }
      repeat split; try done. by apply condVar_insert_count.
    + split.
      { split; [done|]. simpl. by rewrite length_insert. }
      repeat split; try done. by apply condVar_insert_count.
Qed.

(** X1.  On a well-formed barrier neither critical section of
    [MXUser_EnterBarrier] indexes outside [contexts]: the arrival is
    defined and registers the thread in context 0 or 1, and the departure
    from context 0 or 1 is defined.  Both leave the barrier well-formed and
    leave alone its header, its lock, its configured count, the number of
    contexts and the condition variable of each context.  So a thread that
    is outside, or woken with its [ptr] in context 0 or 1, can always take
    its step. *)
Theorem enter_stays_in_bounds (b : MXUserBarrier) :
  well_formed b →
  (∃ a, enter_arrive b = Some a ∧
        (arr_ptr a < 2)%nat ∧
        well_formed (arr_barrier a) ∧
        header (arr_barrier a) = header b ∧
        lock (arr_barrier a) = lock b ∧
        configCount (arr_barrier a) = configCount b ∧
        condVar <$> contexts (arr_barrier a) = condVar <$> contexts b) ∧
  (∀ k, (k < 2)%nat →
     ∃ b', enter_leave k b = Some b' ∧
           well_formed b' ∧
           header b' = header b ∧ lock b' = lock b ∧
           configCount b' = configCount b ∧
           condVar <$> contexts b' = condVar <$> contexts b) ∧
  (∀ i ts,
     ts !! i = Some Outside ∨
     (∃ k, ts !! i = Some (Woken k) ∧ (k < 2)%nat) →
     is_Some (sched i {| sys_barrier := b; sys_threads := ts |})).
Proof.
  intros Hwf. destruct (enter_bounds b Hwf) as [Harr Hlv].
  split; [exact Harr|]. split; [exact Hlv|].
  intros i ts [Ht | (k & Ht & Hk)]; unfold sched; simpl; rewrite Ht; simpl.
  - destruct Harr as (a & Ha & Hp & Hwfa & _). rewrite Ha. simpl.
    destruct (arr_call a); [|by eexists].
    destruct (proj2 (enter_bounds (arr_barrier a) Hwfa) _ Hp) as (b' & Hb' & _).
    rewrite Hb'. by eexists.
  - destruct (Hlv k Hk) as (b' & Hb' & _). rewrite Hb'. by eexists.
Qed.

Lemma enter_stays_in_bounds_witness :
  well_formed barrier3_emptying ∧
  ∃ a, enter_arrive barrier3_emptying = Some a ∧ (arr_ptr a < 2)%nat.
Proof.
  assert (Hwf : well_formed barrier3_emptying)
    by (split; [left; reflexivity | reflexivity]).
  split; [exact Hwf|].
  destruct (proj1 (enter_stays_in_bounds barrier3_emptying Hwf))
    as (a & Ha & Hp & _).
  exists a. split; [exact Ha | exact Hp].
Defined.

(** ** Accounting *)

Lemma enter_arrive_effect (b : MXUserBarrier) :
  well_formed b →
  ∃ a c,
    enter_arrive b = Some a ∧ (arr_ptr a < 2)%nat ∧
    contexts b !! arr_ptr a = Some c ∧
    contexts (arr_barrier a) = <[arr_ptr a := incr_count c]> (contexts b) ∧
    curContext (arr_barrier a) = curContext b.
Proof.
  intros Hwf. pose proof Hwf as [Hcur Hlen].
  destruct (emptying b) eqn:He.
  - destruct (well_formed_lookup b (Z.to_nat (flip (curContext b))) Hwf
                (flip_lt_2 _)) as [c Hc].
    eexists _, c. split; [by apply enter_arrive_abnormal|]. simpl.
    split; [apply flip_lt_2|]. by repeat split.
  - assert (Hk : (Z.to_nat (curContext b) < 2)%nat)
      by (destruct Hcur as [-> | ->]; simpl; lia).
    destruct (well_formed_lookup b _ Hwf Hk) as [c Hc].
    eexists _, c. split; [by apply enter_arrive_normal|]. simpl.
    by repeat split.
Qed.

Lemma enter_leave_effect (b : MXUserBarrier) k c :
  contexts b !! k = Some c →
  ∃ b', enter_leave k b = Some b' ∧
        contexts b' = <[k := decr_count c]> (contexts b) ∧
        (curContext b' = curContext b ∨ curContext b' = flip (curContext b)).
Proof.
  intros Hc. eexists. split; [by apply enter_leave_eq|].
  case_bool_decide; simpl; split; auto.
Qed.

Section Inside.
Implicit Types (t y z : ThreadState) (ts : list ThreadState).

Lemma inside_cons k t ts :
  inside k (t :: ts)
  = ((if decide (registered t = Some k) then 1 else 0) + inside k ts)%nat.
Proof.
  unfold inside. rewrite filter_cons.
  by destruct (decide (registered t = Some k)).
Qed.

Lemma inside_insert k i y z ts :
  ts !! i = Some z →
  (inside k (<[i := y]> ts)
   + (if decide (registered z = Some k) then 1 else 0)
   = inside k ts + (if decide (registered y = Some k) then 1 else 0))%nat.
Proof.
  revert i. induction ts as [|t ts IH]; intros [|i] Hi; simpl in *;
    try done.
  - injection Hi as ->. rewrite !inside_cons. lia.
  - rewrite !inside_cons. specialize (IH i Hi). lia.
Qed.

Lemma registered_wake cv t : registered (wake cv t) = registered t.
Proof. destruct t; simpl; try done. by case_bool_decide. Qed.

Lemma inside_wake k cv ts : inside k (wake cv <$> ts) = inside k ts.
Proof.
  induction ts as [|t ts IH]; [done|].
  rewrite fmap_cons, !inside_cons, registered_wake, IH. done.
Qed.

Lemma inside_le k ts : (inside k ts ≤ length ts)%nat.
Proof. apply length_filter. Qed.

Lemma inside_start k n : inside k (replicate n Outside) = 0%nat.
Proof.
  induction n as [|n IH]; [done|].
  simpl replicate. rewrite inside_cons, IH. by rewrite decide_False.
Qed.

End Inside.

Ltac decide_in H :=
  simpl in H;
  repeat match type of H with
         | context [decide ?P] =>
             first [ rewrite (decide_True (P := P)) in H by done
                   | rewrite (decide_False (P := P)) in H by congruence ]
         end.

Lemma accounted_sched i s s' :
  Z.of_nat (length (sys_threads s)) < 2 ^ 32 →
  accounted s → sched i s = Some s' →
  accounted s' ∧ length (sys_threads s') = length (sys_threads s).
Proof.
  intros Hm (Hwf & Hreg & Hcnt) Hs. destruct s as [b ts]. simpl in *.
  unfold sched in Hs. simpl in Hs.
  destruct (ts !! i) as [t|] eqn:Ht; simpl in Hs; [|done].
  destruct t as [| cv0 k0 | k |]; try done.
  - (* an arrival *)
    destruct (enter_arrive_effect b Hwf) as (a & c & Ha & Hp & Hc & Hctx & Hcur).
    rewrite Ha in Hs. simpl in Hs.
    pose proof (Hcnt _ _ Hc) as Hcount.
    assert (Hroom : (inside (arr_ptr a) ts + 1 ≤ length ts)%nat).
    { pose proof (inside_insert (arr_ptr a) i (Woken (arr_ptr a)) _ _ Ht) as H.
      decide_in H.
      pose proof (inside_le (arr_ptr a) (<[i := Woken (arr_ptr a)]> ts)) as H'.
      rewrite length_insert in H'. lia. }
    assert (Hu : u32 (count c + 1) = count c + 1) by (apply u32_small; lia).
    assert (Hwfa : well_formed (arr_barrier a)).
    { destruct Hwf as [H1 H2]. split; [by rewrite Hcur|].
      by rewrite Hctx, length_insert. }
    destruct (arr_call a) as [cv | lk cv].
    + (* the last of its round: it leaves in the same step *)
      destruct (enter_leave_effect (arr_barrier a) (arr_ptr a) (incr_count c))
        as (b' & Hl & Hctx' & Hcur').
      { rewrite Hctx. apply list_lookup_insert_eq. by eapply lookup_lt_Some. }
      rewrite Hl in Hs. simpl in Hs. injection Hs as <-. unfold accounted. simpl.
      split; [|by rewrite length_insert, length_fmap].
      split; [|split].
      * destruct Hwfa as [H1 H2]. split.
        { destruct Hcur' as [-> | ->]; [done | apply flip_range]. }
        by rewrite Hctx', length_insert.
      * apply Forall_insert; [|done].
        apply Forall_fmap. eapply Forall_impl; [exact Hreg|].
        intros t Hk k. simpl. rewrite registered_wake. apply Hk.
      * intros k c' Hk.
        assert (Hin : inside k (<[i := Returned]> (wake cv <$> ts))
                      = inside k ts).
        { pose proof (inside_insert k i Returned (wake cv Outside)
                        (wake cv <$> ts)) as H.
          rewrite list_lookup_fmap, Ht in H. specialize (H eq_refl).
          decide_in H. rewrite inside_wake in H. lia. }
        rewrite Hin. rewrite Hctx', Hctx in Hk.
        rewrite list_insert_insert_eq in Hk.
        destruct (decide (k = arr_ptr a)) as [-> | Hne].
        -- rewrite list_lookup_insert_eq in Hk by (by eapply lookup_lt_Some).
           injection Hk as <-. simpl. rewrite Hu.
           replace (count c + 1 - 1) with (count c) by lia.
           rewrite u32_small by lia. done.
        -- rewrite list_lookup_insert_ne in Hk by done. by apply Hcnt.
    + (* it parks *)
      injection Hs as <-. unfold accounted. simpl.
      split; [|by rewrite length_insert].
      split; [exact Hwfa|]. split.
      * apply Forall_insert; [done|]. intros k [= <-]. done.
      * intros k c' Hk. rewrite Hctx in Hk.
        pose proof (inside_insert k i (Parked cv (arr_ptr a)) _ _ Ht) as H.
        destruct (decide (k = arr_ptr a)) as [-> | Hne].
        -- rewrite list_lookup_insert_eq in Hk by (by eapply lookup_lt_Some).
           injection Hk as <-. simpl. rewrite Hu.
           decide_in H. lia.
        -- rewrite list_lookup_insert_ne in Hk by done.
           decide_in H.
           rewrite (Hcnt _ _ Hk). f_equal. lia.
  - (* a departure *)
    assert (Hk2 : (k < 2)%nat).
    { rewrite Forall_lookup in Hreg. by apply (Hreg i _ Ht). }
    destruct (well_formed_lookup b k Hwf Hk2) as [c Hc].
    destruct (enter_leave_effect b k c Hc) as (b' & Hl & Hctx' & Hcur').
    rewrite Hl in Hs. simpl in Hs. injection Hs as <-. unfold accounted. simpl.
    split; [|by rewrite length_insert].
    split; [|split].
    + destruct Hwf as [H1 H2]. split.
      { destruct Hcur' as [-> | ->]; [done | apply flip_range]. }
      by rewrite Hctx', length_insert.
    + apply Forall_insert; [done|]. intros k' [=].
    + intros k' c' Hk'. rewrite Hctx' in Hk'.
      pose proof (inside_insert k' i Returned _ _ Ht) as H.
      destruct (decide (k' = k)) as [-> | Hne].
      * rewrite list_lookup_insert_eq in Hk' by (by eapply lookup_lt_Some).
        injection Hk' as <-. simpl.
        decide_in H.
        pose proof (Hcnt _ _ Hc) as Hcount.
        pose proof (inside_le k ts).
        rewrite u32_small by lia. lia.
      * rewrite list_lookup_insert_ne in Hk' by done.
        decide_in H.
        rewrite (Hcnt _ _ Hk'). f_equal. lia.
Qed.

Lemma accounted_run sch s s' :
  Z.of_nat (length (sys_threads s)) < 2 ^ 32 →
  accounted s → run sch s = Some s' →
  accounted s' ∧ length (sys_threads s') = length (sys_threads s).
Proof.
  revert s. induction sch as [|i sch IH]; intros s Hm Hacc Hr; simpl in Hr.
  - by injection Hr as <-.
  - destruct (sched i s) as [s1|] eqn:Hs; simpl in Hr; [|done].
    destruct (accounted_sched i s s1 Hm Hacc Hs) as [Hacc1 Hlen1].
    destruct (IH s1) as [Hacc' Hlen']; [by rewrite Hlen1 | done | done |].
    split; [done | congruence].
Qed.

Lemma accounted_start b m : quiescent b → accounted (start b m).
Proof.
  intros (He & Hcur & cv0 & cv1 & Hctx). unfold accounted, start. simpl.
  split; [|split].
  - split; [done|]. by rewrite Hctx.
  - apply Forall_replicate. by intros k [=].
  - intros k c Hk. rewrite inside_start. rewrite Hctx in Hk.
    destruct k as [|[|k]]; simpl in Hk; try done; by injection Hk as <-.
Qed.

Lemma entered_cons t ts :
  entered (t :: ts)
  = ((if decide (is_Some (registered t)) then 1 else 0) + entered ts)%nat.
Proof.
  unfold entered. rewrite filter_cons.
  by destruct (decide (is_Some (registered t))).
Qed.

Lemma entered_split ts :
  Forall (λ t, ∀ k, registered t = Some k → (k < 2)%nat) ts →
  (inside 0 ts + inside 1 ts = entered ts)%nat.
Proof.
  induction 1 as [|t ts Ht _ IH]; [done|].
  rewrite !inside_cons, entered_cons, <- IH.
  destruct (registered t) as [k|] eqn:Hr.
  - specialize (Ht k eq_refl).
    rewrite (decide_True (P := is_Some (Some k))) by done.
    destruct k as [|[|k]]; [| |lia].
    + rewrite decide_True by done. rewrite decide_False by done. lia.
    + rewrite decide_False by done. rewrite decide_True by done. lia.
  - rewrite (decide_False (P := is_Some None)) by (by intros [? ?]).
    rewrite !decide_False by done. lia.
Qed.


(** X2.  Threads (fewer than 2^32 of them) call [MXUser_EnterBarrier] on a
    barrier that nobody is inside of, each once, in any order, whatever the
    configured count.  In every state they reach the barrier is
    well-formed, the count of each context is the number of threads parked
    or woken that registered in that context, and the two counts add up to
    the number of threads inside the call. *)
Theorem barrier_accounting (b : MXUserBarrier) (m : nat) (sch : list nat)
    (s : System) :
  quiescent b →
  Z.of_nat m < 2 ^ 32 →
  run sch (start b m) = Some s →
  well_formed (sys_barrier s) ∧
  (∀ k c, contexts (sys_barrier s) !! k = Some c →
          count c = Z.of_nat (inside k (sys_threads s))) ∧
  ∃ c0 c1, contexts (sys_barrier s) = [c0; c1] ∧
           count c0 + count c1 = Z.of_nat (entered (sys_threads s)).
Proof.
  intros Hq Hm Hrun.
  destruct (accounted_run sch (start b m) s) as [(Hwf & Hreg & Hcnt) _].
  { simpl. by rewrite length_replicate. }
  { by apply accounted_start. }
  { exact Hrun. }
  split; [exact Hwf|]. split; [exact Hcnt|].
  destruct Hwf as [_ Hlen].
  destruct (contexts (sys_barrier s)) as [|c0 [|c1 [|c2 l]]] eqn:Hctx;
    try done.
  exists c0, c1. split; [done|].
  rewrite (Hcnt 0%nat c0), (Hcnt 1%nat c1) by done.
  rewrite <- (entered_split _ Hreg). lia.
Qed.

Lemma barrier_accounting_witness :
  quiescent barrier3 ∧ Z.of_nat 4 < 2 ^ 32 ∧
  run [3; 1]%nat (start barrier3 4)
    = Some {| sys_barrier :=
                set_context 0 {| count := 2; condVar := Some 4%positive |}
                  barrier3;
              sys_threads := [Outside; Parked (Some 4%positive) 0; Outside;
                              Parked (Some 4%positive) 0] |} ∧
  well_formed (set_context 0 {| count := 2; condVar := Some 4%positive |}
                 barrier3).
Proof.
  assert (Hq : quiescent barrier3).
  { split; [reflexivity|]. split; [left; reflexivity|].
    exists (Some 4%positive), (Some 5%positive). reflexivity. }
  assert (Hm : Z.of_nat 4 < 2 ^ 32) by (vm_compute; reflexivity).
  assert (Hrun : run [3; 1]%nat (start barrier3 4)
    = Some {| sys_barrier :=
                set_context 0 {| count := 2; condVar := Some 4%positive |}
                  barrier3;
              sys_threads := [Outside; Parked (Some 4%positive) 0; Outside;
                              Parked (Some 4%positive) 0] |})
    by (vm_compute; reflexivity).
  split; [exact Hq|]. split; [exact Hm|]. split; [exact Hrun|].
  exact (proj1 (barrier_accounting barrier3 4 [3; 1]%nat _ Hq Hm Hrun)).
Defined.

(** ** What entering never touches, and destruction in between *)

Lemma sched_frame i s s' :
  accounted s → sched i s = Some s' →
  header (sys_barrier s') = header (sys_barrier s) ∧
  lock (sys_barrier s') = lock (sys_barrier s) ∧
  configCount (sys_barrier s') = configCount (sys_barrier s) ∧
  condVar <$> contexts (sys_barrier s') = condVar <$> contexts (sys_barrier s).
Proof.
  intros (Hwf & Hreg & _) Hs. destruct s as [b ts]. simpl in *.
  unfold sched in Hs. simpl in Hs.
  destruct (ts !! i) as [t|] eqn:Ht; simpl in Hs; [|done].
  destruct t as [| cv0 k0 | k |]; try done.
  - destruct (proj1 (enter_bounds b Hwf))
      as (a & Ha & Hp & Hwfa & Hh & Hl & Hc & Hcv).
    rewrite Ha in Hs. simpl in Hs.
    destruct (arr_call a) as [cv | lk cv].
    + destruct (proj2 (enter_bounds (arr_barrier a) Hwfa) _ Hp)
        as (b' & Hlv & _ & Hh' & Hl' & Hc' & Hcv').
      rewrite Hlv in Hs. simpl in Hs. injection Hs as <-. simpl.
      repeat split; congruence.
    + injection Hs as <-. simpl. by repeat split.
  - assert (Hk2 : (k < 2)%nat).
    { rewrite Forall_lookup in Hreg. by apply (Hreg i _ Ht). }
    destruct (proj2 (enter_bounds b Hwf) _ Hk2)
      as (b' & Hlv & _ & Hh' & Hl' & Hc' & Hcv').
    rewrite Hlv in Hs. simpl in Hs. injection Hs as <-. simpl.
    by repeat split.
Qed.


Lemma inside_pos k t ts :
  t ∈ ts → registered t = Some k → (0 < inside k ts)%nat.
Proof.
  intros Hin Hr. induction ts as [|t' ts IH]; [by apply elem_of_nil in Hin|].
  rewrite inside_cons. apply elem_of_cons in Hin as [<- | Hin].
  - rewrite decide_True by done. lia.
  - specialize (IH Hin). lia.
Qed.

(** A thread that is not registered in a context leaves room in it. *)
Lemma inside_room k i (t : ThreadState) (ts : list ThreadState) :
  ts !! i = Some t → registered t ≠ Some k → (inside k ts < length ts)%nat.
Proof.
  intros Ht Hr.
  pose proof (inside_insert k i (Woken k) _ _ Ht) as H.
  simpl in H. rewrite decide_False in H by done.
  rewrite decide_True in H by done.
  pose proof (inside_le k (<[i := Woken k]> ts)) as H'.
  rewrite length_insert in H'. lia.
Qed.




(** ** Construction followed by destruction, and by the first entry *)

(** X4.  A barrier made by [MXUser_CreateBarrier] and handed straight to
    [MXUser_DestroyBarrier] is destroyed without complaint, and the live
    blocks are then exactly those from before the construction: the pair
    leaks nothing.  The handle itself is no longer live. *)
Theorem create_then_destroy (w : World) (userName : option string)
    (rk cnt : Z) (anonName : string) :
  cnt ≠ 0 →
  create_fails (alloc_ok w) = false →
  ∃ l w1 w2,
    MXUser_CreateBarrier userName rk cnt anonName w = Done (Some l) w1 ∧
    l ∈ live w1 ∧
    MXUser_DestroyBarrier (Some l) w1 = Done () w2 ∧
    live w2 = live w ∧
    (∀ x o, mem w !! x = Some o → mem w2 !! x = Some o).
Proof.
  intros Hcnt Hok.
  destruct (create_run userName rk cnt anonName w Hcnt)
    as (res & w1 & Hrun & _ & _ & Hframe & Hres).
  rewrite Hok in Hres.
  destruct Hres as (l & nm & lk & cv0 & cv1 & -> & Hnd & Hfresh & Hlive
                    & Hl & _).
  assert (Hin : l ∈ live w1) by (rewrite Hlive; set_unfold; tauto).
  destruct (destroy_run w1 l
              (fresh_barrier (Some nm) (Some lk) (Some cv0) (Some cv1) rk cnt)
              {| count := 0; condVar := Some cv0 |}
              {| count := 0; condVar := Some cv1 |} Hl Hin eq_refl eq_refl)
    as [_ Hd].
  { unfold owned. simpl. apply NoDup_cons_1_1 in Hnd.
    rewrite !not_elem_of_cons in Hnd. rewrite !not_elem_of_cons.
    destruct Hnd as (? & ? & ? & ? & _).
    repeat split; try congruence. apply not_elem_of_nil. }
  destruct (Hd (conj eq_refl eq_refl)) as (w2 & Hdes & Hlive2 & Hmem2 & _).
  { by apply NoDup_cons_1_2 in Hnd. }
  { intros x Hx. rewrite Hlive. unfold owned_blocks, owned in Hx.
    simpl in Hx. rewrite !elem_of_cons, elem_of_nil in Hx. in_blocks. }
  exists l, w1, w2. split; [exact Hrun|]. split; [exact Hin|].
  split; [exact Hdes|]. split.
  - rewrite Hlive2, Hlive. simpl.
    assert (Hf : ∀ x, x ∈ [l; nm; lk; cv0; cv1] → x ∉ live w)
      by (intros x Hx; by apply Hfresh).
    pose proof (Hf l ltac:(set_unfold; tauto)).
    pose proof (Hf nm ltac:(set_unfold; tauto)).
    pose proof (Hf lk ltac:(set_unfold; tauto)).
    pose proof (Hf cv0 ltac:(set_unfold; tauto)).
    pose proof (Hf cv1 ltac:(set_unfold; tauto)).
    clear Hf Hfresh. live_eq.
  - intros x o Hx. rewrite Hmem2.
    rewrite lookup_insert_ne; [by apply Hframe|].
    intros <-. destruct (Hfresh l) as [Hd' _]; [by left|].
    apply Hd'. by eapply elem_of_dom_2.
Qed.

Lemma create_then_destroy_witness :
  3 ≠ 0 ∧ create_fails (alloc_ok world3) = false ∧
  ∃ l w1 w2,
    MXUser_CreateBarrier (Some "gate") 0 3 "Barrier-0x400" world3
      = Done (Some l) w1 ∧
    MXUser_DestroyBarrier (Some l) w1 = Done () w2 ∧
    live w2 = live world3.
Proof.
  assert (H1 : 3 ≠ 0) by lia.
  split; [exact H1|]. split; [reflexivity|].
  destruct (create_then_destroy world3 (Some "gate") 0 3 "Barrier-0x400"
              H1 eq_refl) as (l & w1 & w2 & Hc & _ & Hd & Hl & _).
  exists l, w1, w2. split; [exact Hc|]. split; [exact Hd | exact Hl].
Defined.



(** ** The singleton, called again and called oddly *)

(** The fast path, for any arguments. *)
Lemma singleton_fast cell v p nm rk cnt anonName w :
  mem w !! cell = Some (ObjAtomicPtr v) →
  seen v (nth 0 (rivals w) NULL) = Some p →
  MXUser_CreateSingletonBarrier (Some cell) nm rk cnt anonName w
  = Done (Some p)
      (log_atomic (EvReadPtr cell (Some p))
         (set_rivals (tail (rivals w))
            (set_mem (<[cell := ObjAtomicPtr (Some p)]> (mem w)) w))).
Proof.
  intros Hm Hs. unfold MXUser_CreateSingletonBarrier.
  rewrite bool_decide_eq_true_2 by done.
  rewrite (bind_done _ _ _ _ _ (ASSERT_true _)).
  erewrite bind_done by reflexivity.
  rewrite (bind_done _ _ _ _ _ (read_run _ _ _ Hm)). rewrite Hs.
  by rewrite bool_decide_eq_false_2.
Qed.

(** X6.  On a cell that holds a barrier, or in which another thread
    installs one before the call's first read, the name, rank and count
    passed to [MXUser_CreateSingletonBarrier] play no part: whatever they
    are, a count of 0 included, the call returns that barrier after one
    read of the cell, with no allocation and no [ASSERT] on the count.  On
    an empty cell that nobody fills, a count of 0 stops the call at the
    [ASSERT] of [MXUser_CreateBarrier]; and a null storage pointer stops
    it at once. *)
Theorem singleton_arguments (cell : loc) (v : ptr) (w : World) :
  mem w !! cell = Some (ObjAtomicPtr v) →
  (∀ p nm rk cnt anonName,
     seen v (nth 0 (rivals w) NULL) = Some p →
     ∃ w', MXUser_CreateSingletonBarrier (Some cell) nm rk cnt anonName w
           = Done (Some p) w' ∧
           live w' = live w ∧ alloc_ok w' = alloc_ok w ∧
           mem w' !! cell = Some (ObjAtomicPtr (Some p)) ∧
           (∀ x, x ≠ cell → mem w' !! x = mem w !! x) ∧
           atomics w' = atomics w ++ [EvReadPtr cell (Some p)]) ∧
  (∀ nm rk anonName,
     seen v (nth 0 (rivals w) NULL) = NULL →
     ∃ w', MXUser_CreateSingletonBarrier (Some cell) nm rk 0 anonName w
           = Panic "ASSERT" w' ∧
           live w' = live w ∧
           mem w' !! cell = Some (ObjAtomicPtr NULL) ∧
           atomics w' = atomics w ++ [EvReadPtr cell NULL]) ∧
  (∀ nm rk cnt anonName,
     MXUser_CreateSingletonBarrier NULL nm rk cnt anonName w
     = Panic "ASSERT" w).
Proof.
  intros Hm. split; [|split].
  - intros p nm rk cnt anonName Hs.
    eexists. split; [by apply (singleton_fast cell v p)|]. simpl.
    repeat split; try done.
    + apply lookup_insert_eq.
    + intros x Hx. by apply lookup_insert_ne.
  - intros nm rk anonName Hs. unfold MXUser_CreateSingletonBarrier.
    rewrite bool_decide_eq_true_2 by done.
    rewrite (bind_done _ _ _ _ _ (ASSERT_true _)).
    erewrite bind_done by reflexivity.
    rewrite (bind_done _ _ _ _ _ (read_run _ _ _ Hm)). rewrite Hs.
    rewrite bool_decide_eq_true_2 by done.
    erewrite bind_panic by reflexivity.
    eexists. split; [reflexivity|]. simpl.
    repeat split; try done. apply lookup_insert_eq.
  - intros nm rk cnt anonName. reflexivity.
Qed.

Lemma singleton_arguments_witness :
  mem racing_world !! 9%positive = Some (ObjAtomicPtr NULL) ∧
  ∃ w', MXUser_CreateSingletonBarrier (Some 9%positive) None 0 0 "none"
          racing_world = Panic "ASSERT" w'.
Proof.
  assert (H1 : mem racing_world !! 9%positive = Some (ObjAtomicPtr NULL))
    by (vm_compute; reflexivity).
  split; [exact H1|].
  destruct (proj1 (proj2 (singleton_arguments 9%positive NULL racing_world
                            H1)) None 0 "none" eq_refl) as (w' & Hp & _).
  exists w'. exact Hp.
Defined.

(** X7.  Two calls of [MXUser_CreateSingletonBarrier] on the same cell, one
    after the other, with nobody else around.  When the first finds the
    cell empty and its construction succeeds, it returns a new live
    barrier, and the second call, whatever its arguments, returns the same
    barrier and changes neither the memory nor the set of live blocks nor
    the allocators' state. *)
Theorem singleton_twice (cell : loc) (w : World)
    (nm nm' : option string) (rk rk' cnt cnt' : Z)
    (anonName anonName' : string) :
  mem w !! cell = Some (ObjAtomicPtr NULL) →
  cnt ≠ 0 →
  create_fails (alloc_ok w) = false →
  (∀ i, (i < 3)%nat → nth i (rivals w) NULL = NULL) →
  ∃ l w1 w2,
    MXUser_CreateSingletonBarrier (Some cell) nm rk cnt anonName w
      = Done (Some l) w1 ∧
    l ∈ live w1 ∧ (l ∉ live w) ∧
    MXUser_CreateSingletonBarrier (Some cell) nm' rk' cnt' anonName' w1
      = Done (Some l) w2 ∧
    mem w2 = mem w1 ∧ live w2 = live w1 ∧ alloc_ok w2 = alloc_ok w1.
Proof.
  intros Hm Hcnt Hok Hquiet.
  destruct (singleton_run cell NULL nm rk cnt anonName w Hm Hcnt)
    as (res & w1 & Hrun & Hcases).
  simpl in Hcases.
  rewrite (Hquiet 0%nat), (Hquiet 1%nat), (Hquiet 2%nat), Hok in Hcases by lia.
  destruct Hcases as (cand & (l & -> & _ & Hnew) & Hres & Hcell & _ & Hl & _).
  simpl in Hres. subst res.
  exists l, w1. eexists. split; [exact Hrun|]. split; [exact Hl|].
  split; [exact Hnew|].
  split; [by apply (singleton_fast cell (Some l) l)|]. simpl.
  split; [|done]. by apply insert_id.
Qed.

Lemma singleton_twice_witness :
  mem exhausted_world !! 9%positive = Some (ObjAtomicPtr NULL) ∧
  3 ≠ 0 ∧
  create_fails (alloc_ok (set_alloc_ok [] exhausted_world)) = false ∧
  (∀ i, (i < 3)%nat →
        nth i (rivals (set_alloc_ok [] exhausted_world)) NULL = NULL) ∧
  ∃ l w1 w2,
    MXUser_CreateSingletonBarrier (Some 9%positive) (Some "gate") 0 3
      "Barrier-0x400" (set_alloc_ok [] exhausted_world) = Done (Some l) w1 ∧
    MXUser_CreateSingletonBarrier (Some 9%positive) None 7 0 "other" w1
      = Done (Some l) w2.
Proof.
  assert (H1 : mem (set_alloc_ok [] exhausted_world) !! 9%positive
               = Some (ObjAtomicPtr NULL)) by (vm_compute; reflexivity).
  assert (H2 : 3 ≠ 0) by lia.
  assert (H3 : ∀ i, (i < 3)%nat →
             nth i (rivals (set_alloc_ok [] exhausted_world)) NULL = NULL)
    by (intros [|[|[|i]]] _; reflexivity).
  split; [exact H1|]. split; [exact H2|]. split; [reflexivity|].
  split; [exact H3|].
  destruct (singleton_twice 9%positive (set_alloc_ok [] exhausted_world)
              (Some "gate") None 0 7 3 0 "Barrier-0x400" "other"
              H1 H2 eq_refl H3) as (l & w1 & w2 & Ha & _ & _ & Hb & _).
  exists l, w1, w2. split; [exact Ha | exact Hb].
Defined.

(** ** Who wakes whom *)

(** A broadcast comes only from a normal arrival that fills the round. *)
Lemma enter_arrive_broadcast (b : MXUserBarrier) a cv :
  enter_arrive b = Some a → arr_call a = BroadcastCondVar cv →
  emptying b = false ∧
  ∃ c, contexts b !! Z.to_nat (curContext b) = Some c ∧
       cv = condVar c ∧ u32 (count c + 1) = configCount b.
Proof.
  unfold enter_arrive. intros Ha Hcall. destruct (emptying b).
  - destruct (contexts b !! Z.to_nat (flip (curContext b))) as [c|];
      simpl in Ha; [|done].
    injection Ha as <-. done.
  - split; [done|].
    destruct (contexts b !! Z.to_nat (curContext b)) as [c|];
      simpl in Ha; [|done].
    injection Ha as <-. simpl in Hcall. exists c. split; [done|].
    case_bool_decide as Hq; [|done]. by injection Hcall as <-.
Qed.

(** X8.  A step of one thread changes the state of another thread in one
    case only: the stepping thread arrives while the barrier is not
    emptying and brings the count of the current context to the configured
    count, and the other thread is parked on that context's condition
    variable; it is then woken, with its [ptr] unchanged.  So a departure
    never wakes anybody, nor does an arrival during a release, and a
    thread that arrives during a release is not woken by that release. *)
Theorem wake_only_by_full_round (i j : nat) (s s' : System) :
  sched i s = Some s' →
  j ≠ i →
  sys_threads s' !! j ≠ sys_threads s !! j →
  sys_threads s !! i = Some Outside ∧
  emptying (sys_barrier s) = false ∧
  ∃ c k,
    contexts (sys_barrier s) !! Z.to_nat (curContext (sys_barrier s)) = Some c ∧
    u32 (count c + 1) = configCount (sys_barrier s) ∧
    sys_threads s !! j = Some (Parked (condVar c) k) ∧
    sys_threads s' !! j = Some (Woken k).
Proof.
  intros Hs Hji Hdiff. destruct s as [b ts]. simpl in *.
  unfold sched in Hs. simpl in Hs.
  destruct (ts !! i) as [t|] eqn:Ht; simpl in Hs; [|done].
  destruct t as [| cv0 k0 | k |]; try done.
  - destruct (enter_arrive b) as [a|] eqn:Ha; simpl in Hs; [|done].
    destruct (arr_call a) as [cv | lk cv] eqn:Hcall.
    + destruct (enter_leave (arr_ptr a) (arr_barrier a)) as [b'|];
        simpl in Hs; [|done].
      injection Hs as <-. simpl in *.
      rewrite list_lookup_insert_ne in Hdiff by done.
      rewrite list_lookup_fmap in Hdiff.
      destruct (enter_arrive_broadcast b a cv Ha Hcall)
        as (He & c & Hc & -> & Hfull).
      split; [done|]. split; [done|].
      destruct (ts !! j) as [tj|] eqn:Htj; simpl in Hdiff; [|done].
      destruct tj as [| cv' k' | k' |]; simpl in Hdiff; try done.
      case_bool_decide as Hcv; [|done]. subst cv'.
      exists c, k'. split; [done|]. split; [done|]. split; [done|].
      rewrite list_lookup_insert_ne by done.
      rewrite list_lookup_fmap, Htj. simpl.
      by rewrite bool_decide_eq_true_2.
    + injection Hs as <-. simpl in Hdiff.
      by rewrite list_lookup_insert_ne in Hdiff.
  - destruct (enter_leave k b) as [b'|]; simpl in Hs; [|done].
    injection Hs as <-. simpl in Hdiff.
    by rewrite list_lookup_insert_ne in Hdiff.
Qed.

Lemma wake_only_by_full_round_witness :
  sched 1 {| sys_barrier := barrier3_two_parked;
             sys_threads := [Parked (Some 4%positive) 0; Outside;
                             Parked (Some 4%positive) 0] |}
    = Some {| sys_barrier := barrier3_emptying;
              sys_threads := [Woken 0; Returned; Woken 0] |} ∧
  0%nat ≠ 1%nat ∧
  [Woken 0; Returned; Woken 0] !! 0%nat
    ≠ [Parked (Some 4%positive) 0; Outside; Parked (Some 4%positive) 0] !! 0%nat ∧
  emptying barrier3_two_parked = false.
Proof.
  assert (H1 : sched 1 {| sys_barrier := barrier3_two_parked;
                          sys_threads := [Parked (Some 4%positive) 0; Outside;
                                          Parked (Some 4%positive) 0] |}
               = Some {| sys_barrier := barrier3_emptying;
                         sys_threads := [Woken 0; Returned; Woken 0] |})
    by (vm_compute; reflexivity).
  assert (H2 : 0%nat ≠ 1%nat) by discriminate.
  assert (H3 : [Woken 0; Returned; Woken 0] !! 0%nat
               ≠ [Parked (Some 4%positive) 0; Outside;
                  Parked (Some 4%positive) 0] !! 0%nat) by discriminate.
  split; [exact H1|]. split; [exact H2|]. split; [exact H3|].
  exact (proj1 (proj2 (wake_only_by_full_round 1 0 _ _ H1 H2 H3))).
Defined.

(** ** Regeneration *)

Lemma set_context_twice k c1 c2 (b : MXUserBarrier) :
  set_context k c2 (set_context k c1 b) = set_context k c2 b.
Proof. unfold set_context. simpl. by rewrite list_insert_insert_eq. Qed.

Lemma set_context_same k c (b : MXUserBarrier) :
  contexts b !! k = Some c → set_context k c b = b.
Proof.
  intros H. destruct b. unfold set_context. simpl in *.
  by rewrite list_insert_id.
Qed.

Lemma set_emptying_same (b : MXUserBarrier) :
  set_emptying (emptying b) b = b.
Proof. by destruct b. Qed.

Lemma set_count_same (c : BarrierContext) : set_count (count c) c = c.
Proof. by destruct c. Qed.

(** The threads after the arrival of the last of the round. *)
Lemma last_arrival_threads cv cur i ts :
  Forall (λ t, t = Outside ∨ t = Parked cv cur) ts →
  ts !! i = Some Outside →
  (occ (Parked cv cur) ts + 1 = length ts)%nat →
  Forall (λ t, t = Woken cur ∨ t = Returned)
    (<[i := Returned]> (wake cv <$> ts)) ∧
  occ (Woken cur) (<[i := Returned]> (wake cv <$> ts))
  = occ (Parked cv cur) ts.
Proof.
  intros Hall Ht Hfull.
  assert (Heq : <[i := Returned]> (wake cv <$> ts)
                = wake cv <$> <[i := Returned]> ts)
    by (by rewrite list_fmap_insert).
  rewrite Heq. clear Heq.
  assert (Hpk : occ (Parked cv cur) (<[i := Returned]> ts)
                = occ (Parked cv cur) ts).
  { pose proof (occ_insert (Parked cv cur) i Returned _ _ Ht) as H.
    rewrite !decide_False in H by done. lia. }
  assert (Hout : Outside ∉ <[i := Returned]> ts).
  { apply occ_zero.
    pose proof (occ_insert Outside i Returned _ _ Ht) as H1.
    rewrite decide_True in H1 by done.
    rewrite decide_False in H1 by done.
    assert (H2 : (occ Outside ts + occ (Parked cv cur) ts = length ts)%nat)
      by (by apply occ_split).
    lia. }
  assert (Hall' : Forall (λ t, t = Parked cv cur ∨ t = Returned)
                    (<[i := Returned]> ts)).
  { apply Forall_forall. intros t Hin.
    assert (Hw : Forall (λ t, t = Outside ∨ t = Parked cv cur ∨ t = Returned)
                   (<[i := Returned]> ts)).
    { apply Forall_insert; [|by auto].
      eapply Forall_impl; [exact Hall|]. simpl. intros ? [?|?]; auto. }
    rewrite Forall_forall in Hw. destruct (Hw t Hin) as [-> | H]; done. }
  destruct (occ_wake _ _ _ Hall') as [Ho Hf].
  split; [exact Hf|]. by rewrite Ho.
Qed.

Lemma none_woken k ts :
  Forall (λ t, t = Woken k ∨ t = Returned) ts → occ (Woken k) ts = 0%nat →
  Forall (λ t, t = Returned) ts.
Proof.
  induction 1 as [|t ts Ht _ IH]; [done|].
  rewrite occ_cons. destruct Ht as [-> | ->].
  - rewrite decide_True by done. lia.
  - rewrite decide_False by done. intros H. constructor; [done|].
    apply IH. lia.
Qed.

Ltac barrier_eq :=
  unfold set_curContext, set_emptying, set_context, set_count; simpl;
  rewrite ?list_insert_insert_eq; try reflexivity.

Lemma insert_zero_count (l : list BarrierContext) k c :
  l !! k = Some c → count c = 0 →
  <[k := {| count := 0; condVar := condVar c |}]> l = l.
Proof.
  intros Hk Hz. apply list_insert_id. rewrite Hk. f_equal.
  destruct c. simpl in *. by subst.
Qed.

Lemma round_shape_sched b n i s s' :
  emptying b = false →
  (∀ c, contexts b !! Z.to_nat (curContext b) = Some c → count c = 0) →
  configCount b = Z.of_nat n →
  Z.of_nat n < 2 ^ 32 →
  length (sys_threads s) = n →
  round_shape b n s → sched i s = Some s' →
  round_shape b n s' ∧ length (sys_threads s') = n.
Proof.
  intros He Hzero Hcfg Hn Hlen (c & Hc & Hphase) Hs.
  pose proof (Hzero c Hc) as Hz.
  destruct s as [bs ts]. simpl in *.
  unfold sched in Hs. simpl in Hs.
  destruct (ts !! i) as [t|] eqn:Ht; simpl in Hs; [|done].
  set (cur := Z.to_nat (curContext b)) in *.
  assert (Hcur : (cur < length (contexts b))%nat) by (by eapply lookup_lt_Some).
  destruct Hphase as [(p & Hp & -> & Hall & Hocc)
                     | [(q & Hq & -> & Hall & Hocc) | [-> Hall]]].
  - (* filling *)
    assert (Hti : t = Outside ∨ t = Parked (condVar c) cur).
    { rewrite Forall_lookup in Hall. by eapply Hall. }
    destruct Hti as [-> | ->]; [|done].
    rewrite (enter_arrive_normal _ (set_count (Z.of_nat p) c)) in Hs;
      [| exact He | by apply list_lookup_insert_eq].
    unfold incr_count in Hs. simpl in Hs. fold cur in Hs.
    rewrite set_context_twice in Hs.
    rewrite !(u32_small (Z.of_nat p + 1)) in Hs by lia.
    rewrite Hcfg in Hs.
    case_bool_decide as Hlast; simpl in Hs.
    + (* the last arrival *)
      rewrite (enter_leave_eq _ cur (set_count (Z.of_nat p + 1) c)) in Hs
        by (by apply list_lookup_insert_eq).
      unfold decr_count in Hs. simpl in Hs. fold cur in Hs.
      replace (Z.of_nat p + 1 - 1) with (Z.of_nat p) in Hs by lia.
      rewrite !(u32_small (Z.of_nat p)) in Hs by lia.
      destruct (last_arrival_threads (condVar c) cur i ts Hall Ht)
        as [Hall' Hocc']; [lia|].
      split; [|injection Hs as <-; simpl;
               by rewrite length_insert, length_fmap].
      exists c. split; [exact Hc|].
      case_bool_decide as Hp0; simpl in Hs; injection Hs as <-; simpl.
      * right. right. split.
        -- rewrite Hp0. barrier_eq.
           rewrite (insert_zero_count _ _ _ Hc Hz), <- He. by destruct b.
        -- apply (none_woken cur); [done|]. unfold cur in *. lia.
      * right. left. exists p. split; [lia|]. split.
        -- barrier_eq.
        -- split; [done | unfold cur in *; simpl; lia].
    + (* not the last: it parks *)
      injection Hs as <-. simpl.
      split; [|by rewrite length_insert].
      exists c. split; [exact Hc|]. left. exists (S p).
      pose proof (occ_insert (Parked (condVar c) cur) i
                    (Parked (condVar c) cur) _ _ Ht) as H.
      rewrite decide_False in H by done. rewrite decide_True in H by done.
      assert (Hle : (occ (Parked (condVar c) cur) ts ≤ length ts)%nat)
        by apply length_filter.
      assert (Hsum : (occ Outside ts + occ (Parked (condVar c) cur) ts
                      = length ts)%nat) by (by apply occ_split).
      assert (Hpos : (0 < occ Outside ts)%nat).
      { destruct (occ Outside ts) eqn:Ho; [|lia].
        apply occ_zero in Ho. exfalso. apply Ho.
        apply list_elem_of_lookup. by exists i. }
      split; [lia|]. split.
      * replace (Z.of_nat (S p)) with (Z.of_nat p + 1) by lia.
        barrier_eq. by rewrite He.
      * split; [apply Forall_insert; [done | by right] | unfold cur in *; simpl; lia].
  - (* draining *)
    assert (Hti : t = Woken cur ∨ t = Returned).
    { rewrite Forall_lookup in Hall. by eapply Hall. }
    destruct Hti as [-> | ->]; [|done].
    rewrite (enter_leave_eq _ cur (set_count (Z.of_nat q) c)) in Hs
      by (by apply list_lookup_insert_eq).
    unfold decr_count in Hs. simpl in Hs. fold cur in Hs.
    pose proof (occ_insert (Woken cur) i Returned _ _ Ht) as H.
    rewrite decide_True in H by done. rewrite decide_False in H by done.
    assert (Hle : (occ (Woken cur) ts ≤ length ts)%nat)
      by apply length_filter.
    rewrite !(u32_small (Z.of_nat q - 1)) in Hs by lia.
    split; [|destruct (bool_decide _); injection Hs as <-; simpl;
             by rewrite length_insert].
    exists c. split; [exact Hc|].
    assert (Hall' : Forall (λ t, t = Woken cur ∨ t = Returned)
                      (<[i := Returned]> ts))
      by (apply Forall_insert; [done | by right]).
    case_bool_decide as Hq1; simpl in Hs; injection Hs as <-; simpl.
    + right. right. split.
      * rewrite Hq1. barrier_eq.
        rewrite (insert_zero_count _ _ _ Hc Hz), <- He. by destruct b.
      * apply (none_woken cur); [done|]. unfold cur in *. lia.
    + right. left. exists (q - 1)%nat. split; [lia|]. split.
      * replace (Z.of_nat (q - 1)) with (Z.of_nat q - 1) by lia.
        barrier_eq.
      * split; [done | unfold cur in *; simpl; lia].
  - (* everybody has returned *)
    rewrite Forall_lookup in Hall. rewrite (Hall i t Ht) in Hs. done.
Qed.

Lemma round_shape_run b n sch s s' :
  emptying b = false →
  (∀ c, contexts b !! Z.to_nat (curContext b) = Some c → count c = 0) →
  configCount b = Z.of_nat n →
  Z.of_nat n < 2 ^ 32 →
  length (sys_threads s) = n →
  round_shape b n s → run sch s = Some s' →
  round_shape b n s'.
Proof.
  intros He Hzero Hcfg Hn. revert s.
  induction sch as [|i sch IH]; intros s Hlen Hsh Hr; simpl in Hr.
  - by injection Hr as <-.
  - destruct (sched i s) as [s1|] eqn:Hs; simpl in Hr; [|done].
    destruct (round_shape_sched b n i s s1 He Hzero Hcfg Hn Hlen Hsh Hs)
      as [Hsh1 Hlen1].
    by apply (IH s1).
Qed.

(** The barrier at the end of a round. *)
Lemma round_end n b sch s :
  (1 ≤ n)%nat → Z.of_nat n < 2 ^ 32 →
  configCount b = Z.of_nat n → quiescent b →
  run sch (start b n) = Some s →
  sys_threads s = replicate n Returned →
  sys_barrier s = set_curContext (1 - curContext b) b ∧
  quiescent (sys_barrier s) ∧
  configCount (sys_barrier s) = Z.of_nat n.
Proof.
  intros Hn Hmax Hcfg (He & Hcur & cv0 & cv1 & Hctx) Hrun Hall.
  assert (Hzero : ∀ c, contexts b !! Z.to_nat (curContext b) = Some c →
                       count c = 0).
  { intros c Hc. rewrite Hctx in Hc.
    destruct Hcur as [Hcur | Hcur]; rewrite Hcur in Hc; simpl in Hc;
      by injection Hc as <-. }
  assert (Hstart : round_shape b n (start b n)).
  { assert (∃ c, contexts b !! Z.to_nat (curContext b) = Some c) as [c Hc].
    { rewrite Hctx. destruct Hcur as [-> | ->]; by eexists. }
    exists c. split; [exact Hc|]. left. exists 0%nat. simpl.
    split; [lia|]. split; [|split].
    - change (Z.of_nat 0) with 0. barrier_eq.
      rewrite (insert_zero_count _ _ _ Hc (Hzero c Hc)).
      by destruct b.
    - apply Forall_replicate. by left.
    - by apply occ_replicate_ne. }
  pose proof (round_shape_run b n sch (start b n) s He Hzero Hcfg Hmax
                (length_replicate _ _) Hstart Hrun) as (c & Hc & Hphase).
  assert (Hfinal : sys_barrier s = set_curContext (flip (curContext b)) b).
  { destruct Hphase as [(p & Hp & _ & Hf & _) | [(q & Hq & _ & Hf & Ho) | [H _]]].
    - rewrite Hall in Hf. destruct n; [lia|]. simpl in Hf.
      apply Forall_cons_1 in Hf as [[? | ?] _]; done.
    - rewrite Hall in Ho. rewrite occ_replicate_ne in Ho by done. lia.
    - exact H. }
  rewrite (flip_other _ Hcur) in Hfinal. rewrite Hfinal.
  split; [done|]. split; [|done].
  split; [done|]. split.
  - simpl. destruct Hcur as [-> | ->]; [by right | by left].
  - by exists cv0, cv1.
Qed.

(** X9.  When the [n] threads of a round on a barrier for [n] parties that
    nobody was inside of have all returned, the barrier is what it was
    before the round except that [curContext] names the other context:
    [curContext] is [1 - curContext] of before, both counts are 0 again,
    [emptying] is clear, the contexts, the header, the lock and the
    configured count are those of before, and nothing had to be reset.  It
    is thus ready for the next round, and after a second complete round
    [curContext] is back and the barrier is exactly what it was at the
    start. *)
Theorem barrier_regenerates (n : nat) (b : MXUserBarrier) (sch : list nat)
    (s : System) :
  (1 ≤ n)%nat →
  Z.of_nat n < 2 ^ 32 →
  configCount b = Z.of_nat n →
  quiescent b →
  run sch (start b n) = Some s →
  sys_threads s = replicate n Returned →
  curContext (sys_barrier s) = 1 - curContext b ∧
  curContext (sys_barrier s) ≠ curContext b ∧
  emptying (sys_barrier s) = false ∧
  count <$> contexts (sys_barrier s) = [0; 0] ∧
  contexts (sys_barrier s) = contexts b ∧
  header (sys_barrier s) = header b ∧
  lock (sys_barrier s) = lock b ∧
  configCount (sys_barrier s) = Z.of_nat n ∧
  quiescent (sys_barrier s) ∧
  ∀ sch2 s2,
    run sch2 (start (sys_barrier s) n) = Some s2 →
    sys_threads s2 = replicate n Returned →
    curContext (sys_barrier s2) = curContext b ∧
    sys_barrier s2 = b.
Proof.
  intros Hn Hmax Hcfg Hq Hrun Hall.
  destruct (round_end n b sch s Hn Hmax Hcfg Hq Hrun Hall)
    as (Hb & Hq1 & Hcfg1).
  pose proof Hq as (He & Hcur & cv0 & cv1 & Hctx).
  assert (Hflip : curContext (sys_barrier s) = 1 - curContext b)
    by (by rewrite Hb).
  split; [exact Hflip|]. split; [lia|].
  split; [by rewrite Hb|]. split; [rewrite Hb; simpl; by rewrite Hctx|].
  split; [by rewrite Hb|]. split; [by rewrite Hb|]. split; [by rewrite Hb|].
  split; [exact Hcfg1|]. split; [exact Hq1|].
  intros sch2 s2 Hrun2 Hall2.
  destruct (round_end n (sys_barrier s) sch2 s2 Hn Hmax Hcfg1 Hq1 Hrun2 Hall2)
    as (Hb2 & _ & _).
  assert (Hback : curContext (sys_barrier s2) = curContext b).
  { rewrite Hb2. simpl. rewrite Hflip. lia. }
  split; [exact Hback|].
  rewrite Hb2, Hb. simpl.
  destruct b as [h lk e cfg cur ctx].
  unfold set_curContext. simpl in *. f_equal. lia.
Qed.

Lemma barrier_regenerates_witness :
  (1 ≤ 3)%nat ∧ Z.of_nat 3 < 2 ^ 32 ∧ configCount barrier3 = Z.of_nat 3 ∧
  quiescent barrier3 ∧
  ∃ s, run [2; 0; 1; 0; 2]%nat (start barrier3 3) = Some s ∧
       sys_threads s = replicate 3 Returned ∧
       curContext barrier3 = 0 ∧
       curContext (sys_barrier s) = 1 ∧
       emptying (sys_barrier s) = false ∧
       count <$> contexts (sys_barrier s) = [0; 0].
Proof.
  assert (Hq : quiescent barrier3).
  { split; [reflexivity|]. split; [left; reflexivity|].
    exists (Some 4%positive), (Some 5%positive). reflexivity. }
  assert (Hm : Z.of_nat 3 < 2 ^ 32) by (vm_compute; reflexivity).
  assert (Hrun : run [2; 0; 1; 0; 2]%nat (start barrier3 3)
    = Some {| sys_barrier := set_curContext 1 barrier3;
              sys_threads := replicate 3 Returned |})
    by (vm_compute; reflexivity).
  split; [lia|]. split; [exact Hm|]. split; [reflexivity|].
  split; [exact Hq|].
  destruct (barrier_regenerates 3 barrier3 [2; 0; 1; 0; 2]%nat _
              ltac:(lia) Hm eq_refl Hq Hrun eq_refl)
    as (Hcur & _ & He & Hcnt & _).
  eexists. split; [exact Hrun|]. split; [reflexivity|].
  split; [reflexivity|]. split; [exact Hcur|]. split; [exact He | exact Hcnt].
Defined.

(** ** Round after round *)

Lemma inside_registered k ts :
  inside k ts = length (filter (λ o, o = Some k) (registered <$> ts)).
Proof.
  induction ts as [|t ts IH]; [done|].
  rewrite inside_cons, fmap_cons, filter_cons, IH.
  by destruct (decide (registered t = Some k)).
Qed.

Lemma place_rouse cv (ts : list Looper) :
  place <$> (rouse cv <$> ts) = wake cv <$> (place <$> ts).
Proof. rewrite <- !list_fmap_compose. by apply list_fmap_ext. Qed.

(** A step of the party is a step of its snapshot, up to the difference
    between a thread that has returned and a thread that is outside
    again. *)
Lemma turn_snapshot i s s' :
  turn i s = Some s' →
  ∃ s1, sched i (snapshot s) = Some s1 ∧
        sys_barrier s1 = loop_barrier s' ∧
        registered <$> sys_threads s1
        = registered <$> (place <$> loop_threads s') ∧
        length (loop_threads s') = length (loop_threads s).
Proof.
  destruct s as [b ts]. unfold turn, sched, snapshot. simpl. intros Hs.
  rewrite list_lookup_fmap.
  destruct (ts !! i) as [t|] eqn:Ht; simpl in *; [|done].
  destruct (place t) as [| cv0 k0 | k |] eqn:Hp; try done.
  - destruct (calls_left t) as [|r]; [done|].
    destruct (enter_arrive b) as [a|]; simpl in *; [|done].
    destruct (arr_call a) as [cv | lk cv].
    + destruct (enter_leave (arr_ptr a) (arr_barrier a)) as [b'|];
        simpl in *; [|done].
      injection Hs as <-. eexists. split; [reflexivity|]. simpl.
      split; [done|]. split.
      * by rewrite !list_fmap_insert, place_rouse.
      * by rewrite length_insert, length_fmap.
    + injection Hs as <-. eexists. split; [reflexivity|]. simpl.
      split; [done|]. split; [by rewrite !list_fmap_insert|].
      by rewrite length_insert.
  - destruct (enter_leave k b) as [b'|]; simpl in *; [|done].
    injection Hs as <-. eexists. split; [reflexivity|]. simpl.
    split; [done|]. split; [by rewrite !list_fmap_insert|].
    by rewrite length_insert.
Qed.

Lemma loop_accounted_snapshot s : loop_accounted s ↔ accounted (snapshot s).
Proof.
  unfold loop_accounted, accounted, snapshot. simpl.
  by rewrite Forall_fmap.
Qed.

Lemma loop_accounted_turn i s s' :
  Z.of_nat (length (loop_threads s)) < 2 ^ 32 →
  loop_accounted s → turn i s = Some s' →
  loop_accounted s' ∧
  length (loop_threads s') = length (loop_threads s) ∧
  header (loop_barrier s') = header (loop_barrier s) ∧
  lock (loop_barrier s') = lock (loop_barrier s) ∧
  configCount (loop_barrier s') = configCount (loop_barrier s) ∧
  condVar <$> contexts (loop_barrier s')
  = condVar <$> contexts (loop_barrier s).
Proof.
  intros Hm Hacc Hs. apply loop_accounted_snapshot in Hacc.
  destruct (turn_snapshot i s s' Hs) as (s1 & Hs1 & Hb & Hreg & Hlen).
  assert (Hm' : Z.of_nat (length (sys_threads (snapshot s))) < 2 ^ 32)
    by (simpl; by rewrite length_fmap).
  destruct (accounted_sched i (snapshot s) s1 Hm' Hacc Hs1)
    as [(Hwf & Hr & Hcnt) _].
  destruct (sched_frame i (snapshot s) s1 Hacc Hs1) as (H1 & H2 & H3 & H4).
  rewrite Hb in *. simpl in *.
  split; [|by repeat split].
  split; [exact Hwf|]. split.
  - assert (He : Forall (λ o, ∀ k, o = Some k → (k < 2)%nat)
                   (registered <$> sys_threads s1)).
    { rewrite Forall_fmap. exact Hr. }
    rewrite Hreg in He. rewrite !Forall_fmap in He. exact He.
  - intros k c Hk. rewrite (Hcnt k c Hk).
    by rewrite !inside_registered, Hreg.
Qed.

Section Room.
Implicit Types (t : ThreadState) (ts : list ThreadState).

Lemma inside_pos_ex k ts :
  (0 < inside k ts)%nat → ∃ t, t ∈ ts ∧ registered t = Some k.
Proof.
  induction ts as [|t ts IH]; [unfold inside; simpl; lia|].
  rewrite inside_cons. destruct (decide (registered t = Some k)) as [Hr|_].
  - intros _. exists t. split; [by left | done].
  - intros H. destruct IH as (t' & Hin & Hr'); [lia|].
    exists t'. split; [by right | done].
Qed.

Lemma inside_lt_ex k ts :
  (inside k ts < length ts)%nat → ∃ t, t ∈ ts ∧ registered t ≠ Some k.
Proof.
  induction ts as [|t ts IH]; [simpl; lia|].
  rewrite inside_cons. simpl.
  destruct (decide (registered t = Some k)) as [Hr|Hr].
  - intros H. destruct IH as (t' & Hin & Hr'); [lia|].
    exists t'. split; [by right | done].
  - intros _. exists t. split; [by left | done].
Qed.

Lemma inside_all_but k i j t tj ts :
  (inside k ts + 1 = length ts)%nat →
  ts !! i = Some t → registered t ≠ Some k →
  j ≠ i → ts !! j = Some tj → registered tj = Some k.
Proof.
  intros Hfull Hi Hr Hji Hj.
  destruct (decide (registered tj = Some k)) as [|Hne]; [done|].
  exfalso.
  pose proof (inside_insert k j (Woken k) _ _ Hj) as H.
  simpl in H. rewrite decide_False in H by done.
  rewrite decide_True in H by done.
  assert (Hi' : <[j := Woken k]> ts !! i = Some t)
    by (by rewrite list_lookup_insert_ne).
  pose proof (inside_room k i t _ Hi' Hr) as H'.
  rewrite length_insert in H'. lia.
Qed.

End Room.

Lemma flip_flip cur : cur = 0 ∨ cur = 1 → flip (flip cur) = cur.
Proof. by intros [-> | ->]. Qed.

Lemma flip_ne cur :
  cur = 0 ∨ cur = 1 → Z.to_nat cur ≠ Z.to_nat (flip cur).
Proof. by intros [-> | ->]. Qed.

Lemma elem_of_insert_other {A} (l : list A) i j x y :
  l !! j = Some x → j ≠ i → x ∈ <[i := y]> l.
Proof.
  intros Hj Hne. apply list_elem_of_lookup. exists j.
  by rewrite list_lookup_insert_ne.
Qed.

Lemma loop_phase_turn n i s s' :
  Z.of_nat n < 2 ^ 32 →
  loop_accounted s → loop_phase n s → turn i s = Some s' →
  loop_phase n s'.
Proof.
  intros Hn Hacc (Hcfg & Hlen & m & cc & co & Hcc & Hco & Hphase) Hs.
  destruct (loop_accounted_turn i s s') as ((_ & _ & Hcnt') & _);
    [by rewrite Hlen | done | done |].
  destruct Hacc as ((Hcur & Hlen2) & _ & Hcnt).
  destruct s as [b ts]. simpl in *.
  pose proof (flip_ne _ Hcur) as Hne.
  set (cur := Z.to_nat (curContext b)) in *.
  set (oth := Z.to_nat (flip (curContext b))) in *.
  assert (Hcl : (cur < length (contexts b))%nat) by (by eapply lookup_lt_Some).
  assert (Hol : (oth < length (contexts b))%nat) by (by eapply lookup_lt_Some).
  pose proof (Hcnt _ _ Hcc) as Hcount.
  assert (Hple : (inside cur (place <$> ts) ≤ n)%nat).
  { pose proof (inside_le cur (place <$> ts)) as H.
    by rewrite length_fmap, Hlen in H. }
  unfold turn in Hs. simpl in Hs.
  destruct (ts !! i) as [t|] eqn:Ht; simpl in Hs; [|done].
  assert (Hti : (place <$> ts) !! i = Some (place t))
    by (by rewrite list_lookup_fmap, Ht).
  destruct (emptying b) eqn:He.
  - (* a round is draining *)
    destruct Hphase as [Hall [tw [Htw Hw]]].
    assert (Hshape := proj1 (Forall_lookup _ _) Hall i t Ht). simpl in Hshape.
    destruct Hshape as [[Hp Hm] | [[Hp Hm] | [Hp Hm]]]; rewrite Hp in Hs;
      [| |done].
    + (* a woken thread leaves *)
      rewrite (enter_leave_eq b cur cc Hcc) in Hs. simpl in Hs.
      assert (Hpos : (0 < inside cur (place <$> ts))%nat).
      { apply (inside_pos cur (place t)); [|by rewrite Hp].
        apply list_elem_of_lookup. by exists i. }
      rewrite (u32_small (count cc - 1)) in Hs by lia.
      assert (Hall' : ∀ P : Looper → Prop,
                (∀ x, (place x = Woken cur ∧ calls_left x = m) ∨
                      (place x = Outside ∧ calls_left x = m) ∨
                      (place x = Parked (condVar co) oth
                       ∧ S (calls_left x) = m) → x ∈ <[i := {| calls_left := calls_left t; place := Outside |}]> ts → P x) →
                Forall P
                  (<[i := {| calls_left := calls_left t; place := Outside |}]>
                     ts)).
      { intros P HP. apply Forall_forall. intros x Hx. apply HP; [|done].
        assert (Hf : Forall (λ t, (place t = Woken cur ∧ calls_left t = m) ∨
                        (place t = Outside ∧ calls_left t = m) ∨
                        (place t = Parked (condVar co) oth
                         ∧ S (calls_left t) = m))
                       (<[i := {| calls_left := calls_left t;
                                  place := Outside |}]> ts)).
        { apply Forall_insert; [done|]. right. left. by simpl. }
        rewrite Forall_forall in Hf. by apply Hf. }
      case_bool_decide as Hzero; injection Hs as <-; unfold loop_phase;
        simpl in *.
      * (* the last one: the round is over, the next one is filling *)
        rewrite (flip_flip _ Hcur). fold cur oth.
        split; [done|]. split; [by rewrite length_insert|].
        eexists m, co, _.
        split; [by rewrite list_lookup_insert_ne|].
        split; [by apply list_lookup_insert_eq|]. split.
        -- apply Hall'. intros x [[Hx _] | [Hx | Hx]] Hin; [|by left|by right].
           exfalso.
           assert (Hpos' : (0 < inside cur
                     (place <$> <[i := {| calls_left := calls_left t;
                                          place := Outside |}]> ts))%nat).
           { apply (inside_pos cur (place x)); [|by rewrite Hx].
             apply list_elem_of_fmap. by exists x. }
           specialize (Hcnt' cur _ (list_lookup_insert_eq _ _ _ Hcl)).
           simpl in Hcnt'. rewrite u32_small in Hcnt' by lia. lia.
        -- exists {| calls_left := calls_left t; place := Outside |}.
           split; [|reflexivity].
           apply list_elem_of_lookup. exists i.
           apply list_lookup_insert_eq. by eapply lookup_lt_Some.
      * (* others are still to leave *)
        rewrite He. fold cur oth.
        split; [done|]. split; [by rewrite length_insert|].
        eexists m, _, co.
        split; [by apply list_lookup_insert_eq|].
        split; [by rewrite list_lookup_insert_ne|]. split.
        -- apply Hall'. by intros x Hx _.
        -- specialize (Hcnt' cur _ (list_lookup_insert_eq _ _ _ Hcl)).
           simpl in Hcnt'. rewrite u32_small in Hcnt' by lia.
           destruct (inside_pos_ex cur
                       (place <$> <[i := {| calls_left := calls_left t;
                                            place := Outside |}]> ts))
             as (x0 & Hx0 & Hr0); [lia|].
           apply list_elem_of_fmap in Hx0 as (x & -> & Hx).
           exists x. split; [done|].
           assert (Hf := Hall' (λ x, registered (place x) = Some cur →
                                     place x = Woken cur)).
           rewrite Forall_forall in Hf. apply Hf; [|done|done].
           intros y [[Hy _] | [[Hy _] | [Hy _]]] _ Hr; rewrite Hy in Hr;
             simpl in Hr; [done | done |].
           injection Hr as Hr. by symmetry in Hr.
    + (* a thread arrives during the release *)
      destruct (calls_left t) as [|r] eqn:Hleft; [done|].
      rewrite (enter_arrive_abnormal b co He Hco) in Hs. simpl in Hs.
      injection Hs as <-. unfold loop_phase. simpl. rewrite He. fold cur oth.
      split; [done|]. split; [by rewrite length_insert|].
      exists m, cc, (incr_count co).
      split; [by rewrite list_lookup_insert_ne|].
      split; [by apply list_lookup_insert_eq|]. split.
      * apply Forall_insert; [done|]. right. right. simpl. by split.
      * exists tw. split; [|done].
        apply list_elem_of_lookup in Htw as [j Hj].
        apply (elem_of_insert_other _ _ j); [done|].
        intros ->. rewrite Ht in Hj. injection Hj as ->. congruence.
  - (* a round is filling *)
    destruct Hphase as [Hall [to [Hto Ho]]].
    assert (Hshape := proj1 (Forall_lookup _ _) Hall i t Ht). simpl in Hshape.
    destruct Hshape as [[Hp Hm] | [Hp Hm]]; rewrite Hp in Hs; [|done].
    destruct (calls_left t) as [|r] eqn:Hleft; [done|].
    rewrite (enter_arrive_normal b cc He Hcc) in Hs. simpl in Hs.
    assert (Hroom : (inside cur (place <$> ts) < n)%nat).
    { pose proof (inside_room cur i _ _ Hti) as H.
      rewrite Hp, length_fmap, Hlen in H. by apply H. }
    rewrite !(u32_small (count cc + 1)) in Hs by lia.
    rewrite Hcfg in Hs.
    case_bool_decide as Hlast; simpl in Hs.
    + (* the last of the round *)
      rewrite (enter_leave_eq _ cur (incr_count cc)) in Hs
        by (by apply list_lookup_insert_eq).
      unfold incr_count, decr_count in Hs. simpl in Hs.
      rewrite !(u32_small (count cc + 1)) in Hs by lia.
      replace (count cc + 1 - 1) with (count cc) in Hs by lia.
      rewrite !(u32_small (count cc)) in Hs by lia.
      assert (Hothers : ∀ j x, j ≠ i → ts !! j = Some x →
                place x = Parked (condVar cc) cur ∧ calls_left x = r).
      { intros j x Hji Hj.
        assert (Hr : registered (place x) = Some cur).
        { apply (inside_all_but cur i j (place t) (place x) (place <$> ts));
            [rewrite length_fmap; lia | done | by rewrite Hp | done
            | by rewrite list_lookup_fmap, Hj]. }
        assert (Hx := proj1 (Forall_lookup _ _) Hall j x Hj). simpl in Hx.
        destruct Hx as [[Hx _] | [Hx Hm']]; [by rewrite Hx in Hr|].
        split; [done | lia]. }
      assert (Hall' : ∀ P : Looper → Prop,
                P {| calls_left := r; place := Outside |} →
                P {| calls_left := r; place := Woken cur |} →
                Forall P (<[i := {| calls_left := r; place := Outside |}]>
                            (rouse (condVar cc) <$> ts))).
      { intros P HPo HPw. apply Forall_lookup. intros j x Hj.
        destruct (decide (j = i)) as [-> | Hji].
        - rewrite list_lookup_insert_eq in Hj
            by (rewrite length_fmap; by eapply lookup_lt_Some).
          by injection Hj as <-.
        - rewrite list_lookup_insert_ne in Hj by done.
          rewrite list_lookup_fmap in Hj.
          destruct (ts !! j) as [y|] eqn:Hy; [|done].
          injection Hj as <-. destruct (Hothers j y Hji Hy) as [Hpy Hcy].
          destruct y as [cl pl]. simpl in *. subst. unfold rouse. simpl.
          by rewrite bool_decide_eq_true_2. }
      case_bool_decide as Hzero; injection Hs as <-; unfold loop_phase;
        simpl in *; fold cur in Hcnt' |- *;
        rewrite ?list_insert_insert_eq in Hcnt' |- *.
      * (* a party of one: the next round is filling at once *)
        rewrite (flip_flip _ Hcur). fold cur oth.
        split; [done|]. split; [by rewrite length_insert, length_fmap|].
        eexists r, co, _.
        split; [by rewrite list_lookup_insert_ne|].
        split; [by apply list_lookup_insert_eq|]. split.
        -- apply Forall_forall. intros x Hx.
           assert (Hf := Hall' (λ x, x ∈ <[i := {| calls_left := r;
                                                    place := Outside |}]>
                                           (rouse (condVar cc) <$> ts) →
                                     (place x = Outside ∧ calls_left x = r) ∨
                                     (place x = Parked (condVar co) oth
                                      ∧ S (calls_left x) = r))).
           rewrite Forall_forall in Hf. apply Hf; [by left | | done | done].
           intros Hin. exfalso.
           assert (Hpos' : (0 < inside cur
                     (place <$> <[i := {| calls_left := r;
                                          place := Outside |}]>
                                  (rouse (condVar cc) <$> ts)))%nat).
           { apply (inside_pos cur (Woken cur)); [|done].
             apply list_elem_of_fmap. by eexists; split; [|exact Hin]. }
           specialize (Hcnt' cur _ (list_lookup_insert_eq _ _ _ Hcl)).
           simpl in Hcnt'. lia.
        -- exists {| calls_left := r; place := Outside |}.
           split; [|reflexivity].
           apply list_elem_of_lookup. exists i.
           apply list_lookup_insert_eq. rewrite length_fmap.
           by eapply lookup_lt_Some.
      * (* the round starts draining *)
        fold cur oth.
        split; [done|]. split; [by rewrite length_insert, length_fmap|].
        eexists r, _, co.
        split; [by apply list_lookup_insert_eq|].
        split; [by rewrite list_lookup_insert_ne|]. split.
        -- apply Hall'; [right; by left | by left].
        -- specialize (Hcnt' cur _ (list_lookup_insert_eq _ _ _ Hcl)).
           simpl in Hcnt'.
           destruct (inside_pos_ex cur
                       (place <$> <[i := {| calls_left := r;
                                            place := Outside |}]>
                                    (rouse (condVar cc) <$> ts)))
             as (x0 & Hx0 & Hr0); [lia|].
           apply list_elem_of_fmap in Hx0 as (x & -> & Hx).
           exists x. split; [done|].
           assert (Hf := Hall' (λ x, registered (place x) = Some cur →
                                     place x = Woken cur)).
           rewrite Forall_forall in Hf. by apply Hf.
    + (* not the last: it parks *)
      injection Hs as <-. unfold loop_phase. simpl in *. fold cur oth.
      split; [done|]. split; [by rewrite length_insert|].
      exists m, (incr_count cc), co.
      split; [by apply list_lookup_insert_eq|].
      split; [by rewrite list_lookup_insert_ne|].
      assert (Hall' : Forall (λ t, (place t = Outside ∧ calls_left t = m) ∨
                        (place t = Parked (condVar cc) cur
                         ∧ S (calls_left t) = m))
                       (<[i := {| calls_left := r;
                                  place := Parked (condVar cc) cur |}]> ts)).
      { apply Forall_insert; [done|]. right. by simpl. }
      split; [exact Hall'|].
      specialize (Hcnt' cur _ (list_lookup_insert_eq _ _ _ Hcl)).
      unfold incr_count in Hcnt'. simpl in Hcnt'.
      rewrite (u32_small (count cc + 1)) in Hcnt' by lia. fold cur in Hcnt'.
      destruct (inside_lt_ex cur
                  (place <$> <[i := {| calls_left := r;
                                       place := Parked (condVar cc) cur |}]> ts))
        as (x0 & Hx0 & Hr0).
      { rewrite length_fmap, length_insert. lia. }
      apply list_elem_of_fmap in Hx0 as (x & -> & Hx).
      exists x. split; [done|].
      rewrite Forall_forall in Hall'.
      destruct (Hall' x Hx) as [[Hpx _] | [Hpx _]]; [done|].
      by rewrite Hpx in Hr0.
Qed.

(** *** The steps that remain *)

Lemma workload_insert i t t' ts :
  ts !! i = Some t →
  (workload (<[i := t']> ts) + effort t = workload ts + effort t')%nat.
Proof.
  revert i. unfold workload.
  induction ts as [|x ts IH]; intros [|i] Ht; simpl in *; try done.
  - injection Ht as ->. lia.
  - specialize (IH i Ht). unfold fmap in IH. lia.
Qed.

Lemma effort_rouse cv t : effort (rouse cv t) = effort t.
Proof.
  destruct t as [cl [|cv' k|k|]]; unfold effort, rouse; simpl; try done.
  by case_bool_decide.
Qed.

Lemma workload_rouse cv ts : workload (rouse cv <$> ts) = workload ts.
Proof.
  unfold workload. induction ts as [|t ts IH]; [done|].
  rewrite !fmap_cons. simpl sum_list. by rewrite effort_rouse, IH.
Qed.

Lemma turn_workload i s s' :
  turn i s = Some s' →
  (workload (loop_threads s') < workload (loop_threads s))%nat.
Proof.
  destruct s as [b ts]. unfold turn. simpl. intros Hs.
  destruct (ts !! i) as [[cl pl]|] eqn:Ht; simpl in Hs; [|done].
  destruct pl as [|cv k|k|]; try done.
  - destruct cl as [|r]; [done|].
    destruct (enter_arrive b) as [a|]; simpl in Hs; [|done].
    destruct (arr_call a) as [cv|lk cv].
    + destruct (enter_leave (arr_ptr a) (arr_barrier a)) as [b'|];
        simpl in Hs; [|done].
      injection Hs as <-. simpl.
      assert (Hi : (rouse cv <$> ts) !! i
                   = Some (rouse cv {| calls_left := S r; place := Outside |}))
        by (by rewrite list_lookup_fmap, Ht).
      pose proof (workload_insert i _
                    {| calls_left := r; place := Outside |} _ Hi) as H.
      rewrite workload_rouse in H. unfold effort in H. simpl in H. lia.
    + injection Hs as <-. simpl.
      pose proof (workload_insert i _
                    {| calls_left := r; place := Parked cv (arr_ptr a) |}
                    _ Ht) as H.
      unfold effort in H. simpl in H. lia.
  - destruct (enter_leave k b) as [b'|]; simpl in Hs; [|done].
    injection Hs as <-. simpl.
    pose proof (workload_insert i _
                  {| calls_left := cl; place := Outside |} _ Ht) as H.
    unfold effort in H. simpl in H. lia.
Qed.

Lemma workload_party b n r :
  workload (loop_threads (party b n r)) = (2 * n * r)%nat.
Proof.
  unfold workload, party. simpl.
  induction n as [|n IH]; [done|].
  simpl replicate. rewrite fmap_cons. simpl sum_list. rewrite IH.
  unfold effort. simpl. lia.
Qed.

(** *** The party from its start *)

Lemma party_accounted b n r : quiescent b → loop_accounted (party b n r).
Proof.
  intros (_ & Hcur & cv0 & cv1 & Hctx). unfold loop_accounted, party. simpl.
  split; [split; [done | by rewrite Hctx]|]. split.
  - apply Forall_replicate. by intros k.
  - intros k c Hk. rewrite fmap_replicate. simpl. rewrite inside_start.
    rewrite Hctx in Hk. destruct k as [|[|k]]; simpl in Hk; [| |done];
      by injection Hk as <-.
Qed.

Lemma party_phase b n r :
  (1 ≤ n)%nat → configCount b = Z.of_nat n → quiescent b →
  loop_phase n (party b n r).
Proof.
  intros Hn Hcfg (He & Hcur & cv0 & cv1 & Hctx). unfold loop_phase, party.
  simpl. split; [done|]. split; [by rewrite length_replicate|].
  assert (Hl : ∀ k, (k < 2)%nat → is_Some (contexts b !! k)).
  { intros k Hk. apply lookup_lt_is_Some. rewrite Hctx. simpl. lia. }
  destruct (Hl (Z.to_nat (curContext b))) as [cc Hcc];
    [destruct Hcur as [-> | ->]; simpl; lia|].
  destruct (Hl (Z.to_nat (flip (curContext b)))) as [co Hco];
    [apply flip_lt_2|].
  exists r, cc, co. split; [done|]. split; [done|]. rewrite He. split.
  - apply Forall_replicate. by left.
  - exists {| calls_left := r; place := Outside |}. split; [|done].
    apply elem_of_replicate. split; [done | lia].
Qed.

(** *** What holds at every moment *)

Lemma turns_inv n sch : ∀ s s',
  Z.of_nat n < 2 ^ 32 →
  loop_accounted s → loop_phase n s → turns sch s = Some s' →
  loop_accounted s' ∧ loop_phase n s' ∧
  header (loop_barrier s') = header (loop_barrier s) ∧
  lock (loop_barrier s') = lock (loop_barrier s) ∧
  condVar <$> contexts (loop_barrier s')
  = condVar <$> contexts (loop_barrier s) ∧
  (length sch + workload (loop_threads s')
   ≤ workload (loop_threads s))%nat.
Proof.
  induction sch as [|i sch IH]; intros s s' Hn Hacc Hph Hs; simpl in Hs.
  - injection Hs as <-. simpl. split_and!; try done; lia.
  - destruct (turn i s) as [s1|] eqn:H1; simpl in Hs; [|done].
    assert (Hlen : length (loop_threads s) = n)
      by (by destruct Hph as (_ & ? & _)).
    destruct (loop_accounted_turn i s s1) as (Hacc1 & _ & Hh & Hl & _ & Hcv);
      [by rewrite Hlen | done | done |].
    pose proof (loop_phase_turn n i s s1 Hn Hacc Hph H1) as Hph1.
    pose proof (turn_workload i s s1 H1) as Hw.
    destruct (IH s1 s' Hn Hacc1 Hph1 Hs) as (? & ? & Hh' & Hl' & Hcv' & Hw').
    rewrite Hh', Hl', Hcv'. split_and!; try done. simpl. lia.
Qed.

Lemma phase_in_step n s ti tj :
  loop_phase n s → ti ∈ loop_threads s → tj ∈ loop_threads s →
  (calls_left tj ≤ calls_left ti + in_call ti)%nat.
Proof.
  intros (_ & _ & m & cc & co & _ & _ & Hph) Hi Hj.
  destruct (emptying (loop_barrier s)); destruct Hph as [Hall _];
    rewrite Forall_forall in Hall;
    pose proof (Hall ti Hi) as Hti; pose proof (Hall tj Hj) as Htj;
    unfold in_call.
  - destruct Hti as [[-> ?] | [[-> ?] | [-> ?]]];
      destruct Htj as [[_ ?] | [[_ ?] | [_ ?]]]; lia.
  - destruct Hti as [[-> ?] | [-> ?]]; destruct Htj as [[_ ?] | [_ ?]]; lia.
Qed.

Lemma phase_progress n s :
  loop_phase n s →
  all_done (loop_threads s) ∨ ∃ i s', turn i s = Some s'.
Proof.
  intros (_ & _ & m & cc & co & Hcc & Hco & Hph).
  destruct s as [b ts]. simpl in *.
  destruct (emptying b) eqn:He; destruct Hph as [Hall [t [Hin Hp]]].
  - (* somebody is woken and can leave *)
    right. apply list_elem_of_lookup in Hin as [i Hi]. exists i.
    unfold turn. simpl. rewrite Hi. simpl. rewrite Hp.
    rewrite (enter_leave_eq b _ cc Hcc). simpl. by eexists.
  - destruct m as [|r].
    + left. unfold all_done. apply (Forall_impl _ _ _ Hall).
      by intros x [[? ?] | [_ ?]].
    + right. apply list_elem_of_lookup in Hin as [i Hi]. exists i.
      rewrite Forall_forall in Hall.
      destruct (Hall t) as [[_ Hm] | [Hp' _]];
        [apply list_elem_of_lookup; by exists i | | congruence].
      unfold turn. simpl. rewrite Hi. simpl. rewrite Hp, Hm.
      rewrite (enter_arrive_normal b cc He Hcc). simpl.
      case_bool_decide; simpl.
      * rewrite (enter_leave_eq _ _ (incr_count cc))
          by (apply list_lookup_insert_eq; by eapply lookup_lt_Some).
        simpl. by eexists.
      * by eexists.
Qed.

Lemma done_no_turn s i :
  all_done (loop_threads s) → turn i s = None.
Proof.
  intros Hd. unfold turn.
  destruct (loop_threads s !! i) as [t|] eqn:Ht; simpl; [|done].
  unfold all_done in Hd. rewrite Forall_lookup in Hd.
  destruct (Hd i t Ht) as [-> ->]. done.
Qed.

Lemma phase_done_quiescent n s :
  loop_accounted s → loop_phase n s → all_done (loop_threads s) →
  quiescent (loop_barrier s).
Proof.
  intros ((Hcur & Hlen) & _ & Hcnt) (_ & _ & m & cc & co & _ & _ & Hph) Hd.
  unfold all_done in Hd. rewrite Forall_forall in Hd.
  unfold quiescent. destruct (emptying (loop_barrier s)).
  { destruct Hph as [_ [t [Hin Hp]]]. destruct (Hd t Hin) as [Ho _].
    congruence. }
  split; [done|]. split; [done|].
  assert (Hz : ∀ k, inside k (place <$> loop_threads s) = 0%nat).
  { intros k. destruct (inside k (place <$> loop_threads s)) eqn:Hi; [done|].
    destruct (inside_pos_ex k (place <$> loop_threads s)) as (x & Hx & Hr);
      [lia|].
    apply list_elem_of_fmap in Hx as (t & -> & Ht).
    destruct (Hd t Ht) as [Ho _]. by rewrite Ho in Hr. }
  destruct (contexts (loop_barrier s)) as [|[n0 cv0] [|[n1 cv1] [|]]] eqn:Hctx;
    try done.
  exists cv0, cv1.
  pose proof (Hcnt 0%nat _ eq_refl) as H0.
  pose proof (Hcnt 1%nat _ eq_refl) as H1.
  simpl in H0, H1. rewrite Hz in H0, H1. simpl in H0, H1. by subst.
Qed.

Lemma party_can_finish n : ∀ w s,
  Z.of_nat n < 2 ^ 32 →
  workload (loop_threads s) = w →
  loop_accounted s → loop_phase n s →
  ∃ sch s', turns sch s = Some s' ∧ all_done (loop_threads s').
Proof.
  induction w as [w IH] using lt_wf_ind. intros s Hn Hw Hacc Hph.
  destruct (phase_progress n s Hph) as [Hd | (i & s1 & H1)].
  - by exists [], s.
  - assert (Hlen : length (loop_threads s) = n)
      by (by destruct Hph as (_ & ? & _)).
    destruct (loop_accounted_turn i s s1) as (Hacc1 & _);
      [by rewrite Hlen | done | done |].
    pose proof (loop_phase_turn n i s s1 Hn Hacc Hph H1) as Hph1.
    pose proof (turn_workload i s s1 H1) as Hlt.
    destruct (IH (workload (loop_threads s1)) ltac:(lia) s1 Hn eq_refl
                Hacc1 Hph1) as (sch & s' & Hs & Hd).
    exists (i :: sch), s'. split; [|done]. simpl. by rewrite H1.
Qed.

(** X10. "Nobody comes out until everyone goes in", round after round:
    when [n] threads each call [MXUser_EnterBarrier] [r] times on a barrier
    made for [n] with nobody inside, then at every moment of every
    interleaving no thread has returned from more calls than any thread has
    begun: the calls a thread has not begun are at most the calls any
    other thread has not returned from.  The counts of the two contexts are
    then the numbers of threads registered in them. *)
Theorem nobody_out_until_all_in b n r sch s :
  (1 ≤ n)%nat → Z.of_nat n < 2 ^ 32 →
  configCount b = Z.of_nat n → quiescent b →
  turns sch (party b n r) = Some s →
  (∀ ti tj, ti ∈ loop_threads s → tj ∈ loop_threads s →
            (calls_left tj ≤ calls_left ti + in_call ti)%nat) ∧
  (∀ k c, contexts (loop_barrier s) !! k = Some c →
          count c = Z.of_nat (inside k (place <$> loop_threads s))).
Proof.
  intros Hn Hm Hcfg Hq Hs.
  destruct (turns_inv n sch (party b n r) s Hm) as (Hacc & Hph & _);
    [by apply party_accounted | by apply party_phase | done |].
  split.
  - intros ti tj. by apply (phase_in_step n).
  - by destruct Hacc as (_ & _ & Hcnt).
Qed.

Lemma nobody_out_until_all_in_witness :
  let s := {| loop_barrier :=
                set_context 1 {| count := 1; condVar := Some 5%positive |}
                  (set_curContext 1 barrier3);
              loop_threads :=
                [ {| calls_left := 1; place := Outside |};
                  {| calls_left := 1; place := Outside |};
                  {| calls_left := 0;
                     place := Parked (Some 5%positive) 1 |} ] |} in
  turns [2; 0; 1; 0; 2; 2]%nat (party barrier3 3 2) = Some s ∧
  ∀ ti tj, ti ∈ loop_threads s → tj ∈ loop_threads s →
           (calls_left tj ≤ calls_left ti + in_call ti)%nat.
Proof.
  intros s.
  assert (Hq : quiescent barrier3).
  { split; [reflexivity|]. split; [left; reflexivity|].
    exists (Some 4%positive), (Some 5%positive). reflexivity. }
  assert (Hm : Z.of_nat 3 < 2 ^ 32) by (vm_compute; reflexivity).
  assert (Hs : turns [2; 0; 1; 0; 2; 2]%nat (party barrier3 3 2) = Some s)
    by (vm_compute; reflexivity).
  split; [exact Hs|].
  exact (proj1 (nobody_out_until_all_in barrier3 3 2 [2; 0; 1; 0; 2; 2]%nat s
                  ltac:(lia) Hm eq_refl Hq Hs)).
Defined.

(** X11. The same party never gets stuck and always finishes: after any
    interleaving, either every thread has returned from all its [r] calls
    or some thread can take a step; every step uses up some of the [2 n r]
    steps there are at most, so no interleaving is longer than that; from
    wherever the party is, some continuation takes every thread through all
    its calls; and once every thread is through, no thread can step, and
    the barrier has nobody inside and is not emptying, with the header, the
    lock and the condition variables it started with: it needs no reset
    between rounds. *)
Theorem party_completes b n r sch s :
  (1 ≤ n)%nat → Z.of_nat n < 2 ^ 32 →
  configCount b = Z.of_nat n → quiescent b →
  turns sch (party b n r) = Some s →
  (length sch + workload (loop_threads s) ≤ 2 * n * r)%nat ∧
  (all_done (loop_threads s) ∨ ∃ i s', turn i s = Some s') ∧
  (∃ sch' s', turns sch' s = Some s' ∧ all_done (loop_threads s')) ∧
  (all_done (loop_threads s) →
   (∀ i, turn i s = None) ∧
   quiescent (loop_barrier s) ∧
   header (loop_barrier s) = header b ∧
   lock (loop_barrier s) = lock b ∧
   condVar <$> contexts (loop_barrier s) = condVar <$> contexts b).
Proof.
  intros Hn Hm Hcfg Hq Hs.
  destruct (turns_inv n sch (party b n r) s Hm)
    as (Hacc & Hph & Hh & Hl & Hcv & Hw);
    [by apply party_accounted | by apply party_phase | done |].
  rewrite workload_party in Hw. split; [done|].
  split; [by apply (phase_progress n)|].
  split; [by apply (party_can_finish n (workload (loop_threads s)))|].
  intros Hd. split; [intros i; by apply done_no_turn|].
  split; [by apply (phase_done_quiescent n)|]. done.
Qed.

Lemma party_completes_witness :
  turns [2; 0; 1; 0; 2; 2; 1; 0; 1; 2]%nat (party barrier3 3 2)
    = Some (party barrier3 3 0) ∧
  all_done (loop_threads (party barrier3 3 0)) ∧
  quiescent (loop_barrier (party barrier3 3 0)) ∧
  ∀ i, turn i (party barrier3 3 0) = None.
Proof.
  assert (Hq : quiescent barrier3).
  { split; [reflexivity|]. split; [left; reflexivity|].
    exists (Some 4%positive), (Some 5%positive). reflexivity. }
  assert (Hm : Z.of_nat 3 < 2 ^ 32) by (vm_compute; reflexivity).
  assert (Hs : turns [2; 0; 1; 0; 2; 2; 1; 0; 1; 2]%nat (party barrier3 3 2)
               = Some (party barrier3 3 0)) by (vm_compute; reflexivity).
  assert (Hd : all_done (loop_threads (party barrier3 3 0))).
  { unfold all_done, party. simpl. by repeat constructor. }
  pose proof (party_completes barrier3 3 2 _ _ ltac:(lia) Hm eq_refl Hq Hs)
    as (_ & _ & _ & Hend).
  destruct (Hend Hd) as (Hno & Hq' & _).
  split; [exact Hs|]. split; [exact Hd|]. split; [exact Hq'|]. exact Hno.
Defined.

(** ** More threads than parties *)

Lemma occ_lookup x i ts : ts !! i = Some x → (0 < occ x ts)%nat.
Proof.
  revert i. induction ts as [|t ts IH]; intros [|i] Hi; simpl in *; try done.
  - injection Hi as ->. rewrite occ_cons, decide_True by done. lia.
  - rewrite occ_cons. specialize (IH i Hi). lia.
Qed.

Lemma overfull_sched i s s' :
  overfull s → sched i s = Some s' →
  overfull s' ∧
  sys_threads s !! i = Some Outside ∧
  (∃ cv, sys_threads s'
         = <[i := Parked cv (Z.to_nat (curContext (sys_barrier s)))]>
             (sys_threads s)) ∧
  curContext (sys_barrier s') = curContext (sys_barrier s) ∧
  configCount (sys_barrier s') = configCount (sys_barrier s) ∧
  occ Returned (sys_threads s') = occ Returned (sys_threads s) ∧
  (occ Outside (sys_threads s') + 1 = occ Outside (sys_threads s))%nat.
Proof.
  intros (He & Hnw & c & Hc & Hfull & Hroom) Hs.
  destruct s as [b ts]. simpl in *. unfold sched in Hs. simpl in Hs.
  destruct (ts !! i) as [t|] eqn:Ht; simpl in Hs; [|done].
  destruct t as [| cv0 k0 | k |]; try done.
  - pose proof (occ_lookup _ _ _ Ht) as Hpos.
    rewrite (enter_arrive_normal b c He Hc) in Hs. simpl in Hs.
    rewrite !(u32_small (count c + 1)) in Hs by lia.
    rewrite bool_decide_eq_false_2 in Hs by lia. simpl in Hs.
    injection Hs as <-. simpl.
    pose proof (occ_insert Outside i
                  (Parked (condVar c) (Z.to_nat (curContext b))) _ _ Ht)
      as Hout.
    pose proof (occ_insert Returned i
                  (Parked (condVar c) (Z.to_nat (curContext b))) _ _ Ht)
      as Hret.
    rewrite decide_True in Hout by done.
    rewrite decide_False in Hout by done.
    rewrite !decide_False in Hret by done.
    split_and!; try done; try lia; [|by eexists].
    split; [done|]. split.
    + apply Forall_insert; [done|]. by intros k.
    + exists (incr_count c). simpl. split.
      * apply list_lookup_insert_eq. by eapply lookup_lt_Some.
      * unfold incr_count. simpl. rewrite (u32_small (count c + 1)) by lia.
        lia.
  - rewrite Forall_lookup in Hnw. by destruct (Hnw i _ Ht k).
Qed.

Lemma overfull_run sch : ∀ s s',
  overfull s → run sch s = Some s' →
  overfull s' ∧
  curContext (sys_barrier s') = curContext (sys_barrier s) ∧
  configCount (sys_barrier s') = configCount (sys_barrier s) ∧
  occ Returned (sys_threads s') = occ Returned (sys_threads s) ∧
  (occ Outside (sys_threads s') + length sch
   = occ Outside (sys_threads s))%nat.
Proof.
  induction sch as [|i sch IH]; intros s s' Hov Hr; simpl in Hr.
  - injection Hr as <-. simpl. split_and!; try done; lia.
  - destruct (sched i s) as [s1|] eqn:Hs; simpl in Hr; [|done].
    destruct (overfull_sched i s s1 Hov Hs)
      as (Hov1 & _ & _ & Hcur & Hcfg & Hret & Hout).
    destruct (IH s1 s' Hov1 Hr) as (Hov' & Hcur' & Hcfg' & Hret' & Hout').
    rewrite Hcur', Hcfg', Hret'. simpl. split_and!; try done; lia.
Qed.

(** X12. A barrier used by more threads than it was made for can strand
    them.  Once the context in use holds [configCount] threads or more
    while the barrier is not emptying (threads that arrived during a
    release are counted but never trigger a broadcast), every later call
    of [MXUser_EnterBarrier] parks: whatever the interleaving, no thread
    returns any more, the barrier never starts emptying and never changes
    context, and a schedule can only be as long as there are threads yet
    to call. *)
Theorem overfull_barrier_strands sch s s' :
  overfull s → run sch s = Some s' →
  occ Returned (sys_threads s') = occ Returned (sys_threads s) ∧
  emptying (sys_barrier s') = false ∧
  curContext (sys_barrier s') = curContext (sys_barrier s) ∧
  (length sch ≤ occ Outside (sys_threads s))%nat ∧
  (∀ i, sys_threads s' !! i ≠ Some Outside → sched i s' = None).
Proof.
  intros Hov Hr.
  destruct (overfull_run sch s s' Hov Hr)
    as ((He & Hnw & _) & Hcur & _ & Hret & Hout).
  split_and!; try done; [lia|].
  intros i Hi. unfold sched.
  destruct (sys_threads s' !! i) as [[| cv k | k |]|] eqn:Ht; simpl;
    try done.
  rewrite Forall_lookup in Hnw. by destruct (Hnw i _ Ht k).
Qed.

Lemma overfull_barrier_strands_witness :
  run [0; 1; 2; 3; 0]%nat (start barrier2 5) = Some stranded5 ∧
  overfull stranded5 ∧
  ∃ s', run [4]%nat stranded5 = Some s' ∧
        occ Returned (sys_threads s') = 2%nat ∧
        ∀ i, sched i s' = None.
Proof.
  assert (Hov : overfull stranded5).
  { split; [reflexivity|]. split.
    - repeat constructor; intros k; discriminate.
    - eexists. split; [reflexivity|]. vm_compute. repeat split; congruence. }
  split; [vm_compute; reflexivity|]. split; [exact Hov|].
  eexists. split; [vm_compute; reflexivity|].
  match goal with
  | |- context [sys_threads ?s'] =>
      pose proof (overfull_barrier_strands [4]%nat stranded5 s' Hov
                    ltac:(vm_compute; reflexivity))
        as (Hret & _ & _ & _ & Hstuck)
  end.
  split; [exact Hret|].
  intros i. apply Hstuck.
  destruct i as [|[|[|[|[|i]]]]]; simpl; discriminate.
Defined.

(** ** The signature check *)


